(** * SmartGrid: the load-balancing simulator and the demand forecaster

    A shallow embedding of [utils.simulate_load_balancing] and of
    [forecasting.DemandForecaster], with the properties of the two numerical
    subsystems.

    Conventions of the embedding.
    - Python numbers (int and float) are exact rationals [Q]; equalities
      between computed numbers are stated with [==].  Where the rounding of
      floating-point operations decides a property, the code concerned is
      followed a second time on binary64 floats, in the module [Binary64].
    - A Python [dict] is an insertion-ordered association list.  The regional
      status dictionaries map a region name to a *reference* to a mutable
      record; the records live in a [Heap], so that [dict.copy()] (a shallow
      copy) shares them.
    - An exception is a value [Raise e] of [PyResult]; [try/except] is a
      [match] on it.
    - [np.random] and [datetime.now()] are explicit sources passed as
      arguments. *)

From Stdlib Require Import QArith Qround Qabs Lia Lqa ZArith String Sorted.
From Stdlib Require PrimFloat.
From stdpp Require Import list strings.

Open Scope Q_scope.

(** ** Exceptions *)

Inductive PyExn : Type :=
| KeyError (key : string)
| ZeroDivisionError
| ValueError (msg : string)
| IndexError (msg : string)
| AttributeError (msg : string).

Inductive PyResult (A : Type) : Type :=
| Ok (a : A)
| Raise (e : PyExn).

Arguments Ok {A} a.
Arguments Raise {A} e.

Definition bind {A B : Type} (m : PyResult A) (k : A -> PyResult B) : PyResult B :=
  match m with
  | Ok a => k a
  | Raise e => Raise e
  end.

Notation "x <- m ;; k" := (bind m (fun x => k))
  (at level 20, m at level 99, k at level 200, only parsing).

(** [str(e)]; the wording of the messages of library errors is not
    reproduced, and no statement below depends on it. *)
Definition exn_message (e : PyExn) : string :=
  match e with
  | KeyError k => k
  | ZeroDivisionError => "division by zero"
  | ValueError m => m
  | IndexError m => m
  | AttributeError m => m
  end.

(** ** Numbers *)

Definition Qlt_bool (a b : Q) : bool := negb (Qle_bool b a).

(** [min(a, b)]: the first argument unless the second is strictly smaller. *)
Definition py_min (a b : Q) : Q := if Qlt_bool b a then b else a.

(** [max(a, b)]: the first argument unless the second is strictly larger. *)
Definition py_max (a b : Q) : Q := if Qlt_bool a b then b else a.

(** [round(x)] to an integer, ties to even. *)
Definition round_half_even (x : Q) : Z :=
  let f := Qfloor x in
  let r := x - inject_Z f in
  if Qlt_bool r (1 # 2) then f
  else if Qlt_bool (1 # 2) r then (f + 1)%Z
  else if Z.even f then f else (f + 1)%Z.

(** [round(x, 2)] of the exact value [x]; the code rounds the binary64
    number nearest to [x], which can fall on the other side of a decimal
    tie. *)
Definition round2 (x : Q) : Q := inject_Z (round_half_even (x * 100)) / 100.

(** [sum(xs)]: starts from 0 and adds from the left, without rounding
    ([Binary64.py_sum] has the rounding). *)
Definition py_sum (xs : list Q) : Q := fold_left Qplus xs 0.

(** ** The shared store of region records *)

(** One value of [initial_status]: the dict
    [{'generation', 'consumption', 'balance', 'frequency'}]. *)
Record RegionStatus : Type := mkRegionStatus {
  generation : Q;
  consumption : Q;
  balance : Q;
  frequency : Q
}.

Definition set_generation (v : Q) (s : RegionStatus) : RegionStatus :=
  mkRegionStatus v (consumption s) (balance s) (frequency s).
Definition set_consumption (v : Q) (s : RegionStatus) : RegionStatus :=
  mkRegionStatus (generation s) v (balance s) (frequency s).
Definition set_balance (v : Q) (s : RegionStatus) : RegionStatus :=
  mkRegionStatus (generation s) (consumption s) v (frequency s).
Definition set_frequency (v : Q) (s : RegionStatus) : RegionStatus :=
  mkRegionStatus (generation s) (consumption s) (balance s) v.

(** A reference to a record, and the store the references point into. *)
Abbreviation loc := nat (only parsing).
Abbreviation Heap := (list RegionStatus) (only parsing).

(** A status dictionary: region name to reference, in insertion order. *)
Abbreviation StatusDict := (list (string * loc)) (only parsing).

Definition dict_keys (d : StatusDict) : list string := map fst d.
Definition dict_values (d : StatusDict) : list loc := map snd d.

Fixpoint dict_get (d : StatusDict) (k : string) : option loc :=
  match d with
  | [] => None
  | (k', l) :: d' => if String.eqb k' k then Some l else dict_get d' k
  end.

(** [d[k] = l]: replaces the value in place, or appends a new key. *)
Fixpoint dict_set (d : StatusDict) (k : string) (l : loc) : StatusDict :=
  match d with
  | [] => [(k, l)]
  | (k', l') :: d' =>
      if String.eqb k' k then (k', l) :: d' else (k', l') :: dict_set d' k l
  end.

(** [d.copy()]: a new dictionary holding the same references. *)
Definition dict_copy (d : StatusDict) : StatusDict := d.

(** [d[k]], the record itself. *)
Definition status_get (d : StatusDict) (h : Heap) (k : string) : PyResult RegionStatus :=
  match dict_get d k with
  | None => Raise (KeyError k)
  | Some l =>
      match h !! l with
      | Some s => Ok s
      | None => Raise (KeyError k)
      end
  end.

(** [d[k][field] = ...]: an update of the record [d[k]] refers to. *)
Definition status_update (d : StatusDict) (h : Heap) (k : string)
    (f : RegionStatus -> RegionStatus) : PyResult Heap :=
  match dict_get d k with
  | None => Raise (KeyError k)
  | Some l =>
      match h !! l with
      | Some s => Ok (<[l := f s]> h)
      | None => Raise (KeyError k)
      end
  end.

(** [d.values()] *)
Fixpoint status_values (d : StatusDict) (h : Heap) : list RegionStatus :=
  match d with
  | [] => []
  | (_, l) :: d' =>
      match h !! l with
      | Some s => s :: status_values d' h
      | None => status_values d' h
      end
  end.

(** [sum(r['balance'] for r in d.values())] *)
Definition sum_balance (d : StatusDict) (h : Heap) : Q :=
  py_sum (map balance (status_values d h)).

(** ** The input snapshot *)

(** One entry of [power_data['regions']]; a missing key is [None]. *)
Record RegionData : Type := mkRegionData {
  data_generation : option Q;
  data_consumption : option Q;
  data_frequency : option Q
}.

Abbreviation Snapshot := (list (string * RegionData)) (only parsing).

(** [data.get(key, default)] *)
Definition get_default (o : option Q) (default : Q) : Q :=
  match o with
  | Some v => v
  | None => default
  end.

(** The record built for one region (lines 152-160). *)
Definition region_status_of (data : RegionData) : RegionStatus :=
  let generation := get_default (data_generation data) 0 in
  let consumption := get_default (data_consumption data) 0 in
  let balance := generation - consumption in
  mkRegionStatus generation consumption balance
    (get_default (data_frequency data) 50.0).

(** [k in regions] *)
Definition key_in (k : string) (regions : list string) : bool :=
  existsb (String.eqb k) regions.

(** [if not regions: regions = list(regional_data.keys())] *)
Definition effective_regions (regional_data : Snapshot) (regions : list string)
    : list string :=
  match regions with
  | [] => map fst regional_data
  | _ => regions
  end.

(** [{k: v for k, v in regional_data.items() if k in regions}] *)
Definition filter_regions (regional_data : Snapshot) (regions : list string)
    : Snapshot :=
  filter (fun kv => key_in (fst kv) regions) regional_data.

(** The loop of lines 150-160: one fresh record per region. *)
Fixpoint build_status (regional_data : Snapshot) (d : StatusDict) (h : Heap)
    : StatusDict * Heap :=
  match regional_data with
  | [] => (d, h)
  | (region, data) :: rest =>
      build_status rest (dict_set d region (length h))
        (h ++ [region_status_of data])
  end.

Definition build_initial_status (regional_data : Snapshot) (regions : list string)
    : StatusDict * Heap :=
  let regions := effective_regions regional_data regions in
  build_status (filter_regions regional_data regions) [] [].

(** ** Sources of randomness and of time *)

(** [np.random]: [random n] is the n-th value returned by
    [np.random.random()] in a run, [choice_index n] the n-th index drawn by
    [np.random.choice]. *)
Record RandomSource : Type := mkRandomSource {
  random : nat -> Q;
  choice_index : nat -> nat
}.

(** [np.random.choice(keys)]: one element; an empty population is an error. *)
Definition random_choice (rng : RandomSource) (keys : list string)
    : PyResult string :=
  match keys !! (choice_index rng 0 mod length keys)%nat with
  | Some k => Ok k
  | None => Raise (ValueError "'a' cannot be empty unless no samples are taken")
  end.

(** [np.random.choice(keys, size=2, replace=False)]: two distinct elements;
    a population of fewer than two is an error. *)
Definition random_choice2 (rng : RandomSource) (keys : list string)
    : PyResult (list string) :=
  if (length keys <? 2)%nat then
    Raise (ValueError
      "Cannot take a larger sample than population when 'replace=False'")
  else
    let i := (choice_index rng 0 mod length keys)%nat in
    let others := delete i keys in
    let j := (choice_index rng 1 mod length others)%nat in
    match keys !! i, others !! j with
    | Some a, Some b => Ok [a; b]
    | _, _ => Raise (ValueError "'a' cannot be empty unless no samples are taken")
    end.

(** ** Scenario perturbation (lines 162-195) *)

(** The body of the [peak] loop; [n] counts the draws made so far. *)
Fixpoint peak_loop (rng : RandomSource) (initial_status : StatusDict)
    (keys : list string) (n : nat) (h : Heap) : PyResult Heap :=
  match keys with
  | [] => Ok h
  | region :: rest =>
      let increase_factor := 1.1 + random rng n * 0.1 in
      h <- status_update initial_status h region
             (fun s => set_consumption (consumption s * increase_factor) s) ;;
      h <- status_update initial_status h region
             (fun s => set_balance (generation s - consumption s) s) ;;
      h <- status_update initial_status h region
             (fun s => set_frequency
                         (frequency s - (0.05 + random rng (S n) * 0.1)) s) ;;
      peak_loop rng initial_status rest (S (S n)) h
  end.

(** The body of the [renewable_surplus] loop. *)
Fixpoint surplus_loop (rng : RandomSource) (initial_status : StatusDict)
    (keys : list string) (n : nat) (h : Heap) : PyResult Heap :=
  match keys with
  | [] => Ok h
  | region :: rest =>
      let increase_factor := 1.15 + random rng n * 0.15 in
      h <- status_update initial_status h region
             (fun s => set_generation (generation s * increase_factor) s) ;;
      h <- status_update initial_status h region
             (fun s => set_balance (generation s - consumption s) s) ;;
      h <- status_update initial_status h region
             (fun s => set_frequency
                         (frequency s + (0.05 + random rng (S n) * 0.1)) s) ;;
      surplus_loop rng initial_status rest (S (S n)) h
  end.

Definition outage (rng : RandomSource) (initial_status : StatusDict) (h : Heap)
    : PyResult Heap :=
  outage_region <- random_choice rng (dict_keys initial_status) ;;
  let decrease_factor := 0.6 + random rng 0 * 0.2 in
  h <- status_update initial_status h outage_region
         (fun s => set_generation (generation s * decrease_factor) s) ;;
  h <- status_update initial_status h outage_region
         (fun s => set_balance (generation s - consumption s) s) ;;
  status_update initial_status h outage_region
    (fun s => set_frequency (frequency s - (0.2 + random rng 1 * 0.2)) s).

(** The [if scenario == ... elif ...] chain; no branch is taken for any
    other name. *)
Definition apply_scenario (rng : RandomSource) (scenario : string)
    (initial_status : StatusDict) (h : Heap) : PyResult Heap :=
  if String.eqb scenario "peak" then
    peak_loop rng initial_status (dict_keys initial_status) 0 h
  else if String.eqb scenario "renewable_surplus" then
    surplus_regions <- random_choice2 rng (dict_keys initial_status) ;;
    surplus_loop rng initial_status surplus_regions 0 h
  else if String.eqb scenario "outage" then
    outage rng initial_status h
  else Ok h.

(** The status the balancing algorithm starts from: lines 139-195. *)
Definition perturbed_status (rng : RandomSource) (regional_data : Snapshot)
    (scenario : string) (regions : list string) : PyResult (StatusDict * Heap) :=
  let '(initial_status, h) := build_initial_status regional_data regions in
  h <- apply_scenario rng scenario initial_status h ;;
  Ok (initial_status, h).

(** ** Greedy rebalancing (lines 200-240) *)

Record BalancingAction : Type := mkBalancingAction {
  source : string;
  target : string;
  amount : Q;
  timestamp : string
}.

(** The keys of [sorted(..., key=...)]: computed once per element. *)
Fixpoint balance_keys (d : StatusDict) (h : Heap) (keys : list string)
    : PyResult (list (string * Q)) :=
  match keys with
  | [] => Ok []
  | r :: rest =>
      s <- status_get d h r ;;
      keyed <- balance_keys d h rest ;;
      Ok ((r, balance s) :: keyed)
  end.

(** Stable insertion into a list in descending key order: [x] comes from
    before every element of [l] and stays before those of equal key. *)
Fixpoint insert_desc (x : string * Q) (l : list (string * Q))
    : list (string * Q) :=
  match l with
  | [] => [x]
  | y :: l' =>
      if Qlt_bool (snd x) (snd y) then y :: insert_desc x l' else x :: y :: l'
  end.

(** [sorted(keyed, key=snd, reverse=True)] *)
Fixpoint sort_desc (l : list (string * Q)) : list (string * Q) :=
  match l with
  | [] => []
  | x :: l' => insert_desc x (sort_desc l')
  end.

(** [sorted(d.keys(), key=lambda r: d[r]['balance'], reverse=True)] *)
Definition sorted_regions (d : StatusDict) (h : Heap) : PyResult (list string) :=
  keyed <- balance_keys d h (dict_keys d) ;;
  Ok (map fst (sort_desc keyed)).

(** [[r for r in keys if test(d[r]['balance'])]] *)
Fixpoint select_regions (test : Q -> bool) (d : StatusDict) (h : Heap)
    (keys : list string) : PyResult (list string) :=
  match keys with
  | [] => Ok []
  | r :: rest =>
      s <- status_get d h r ;;
      selected <- select_regions test d h rest ;;
      Ok (if test (balance s) then r :: selected else selected)
  end.

(** The inner loop (lines 215-240) for one surplus region.  The updates of
    the balances are exact here; [Binary64.offer_surplus] is the same loop
    with their rounding. *)
Fixpoint offer_surplus (now : nat -> string) (balanced_status : StatusDict)
    (surplus_region : string) (deficit_regions : list string)
    (available_surplus : Q) (h : Heap) (balancing_actions : list BalancingAction)
    : PyResult (Heap * list BalancingAction) :=
  match deficit_regions with
  | [] => Ok (h, balancing_actions)
  | deficit_region :: rest =>
      s <- status_get balanced_status h deficit_region ;;
      let needed_power := Qabs (balance s) in
      if Qle_bool needed_power 0 then
        offer_surplus now balanced_status surplus_region rest
          available_surplus h balancing_actions
      else
        let transfer_amount := py_min available_surplus needed_power in
        if Qle_bool transfer_amount 0 then
          offer_surplus now balanced_status surplus_region rest
            available_surplus h balancing_actions
        else
          h <- status_update balanced_status h surplus_region
                 (fun s => set_balance (balance s - transfer_amount) s) ;;
          h <- status_update balanced_status h deficit_region
                 (fun s => set_balance (balance s + transfer_amount) s) ;;
          let balancing_actions :=
            balancing_actions ++
              [mkBalancingAction surplus_region deficit_region
                 (round2 transfer_amount) (now (length balancing_actions))] in
          let available_surplus := available_surplus - transfer_amount in
          if Qle_bool available_surplus 0 then Ok (h, balancing_actions)
          else
            offer_surplus now balanced_status surplus_region rest
              available_surplus h balancing_actions
  end.

(** The outer loop (lines 210-240). *)
Fixpoint transfer_loop (now : nat -> string) (balanced_status : StatusDict)
    (surplus_regions deficit_regions : list string) (h : Heap)
    (balancing_actions : list BalancingAction)
    : PyResult (Heap * list BalancingAction) :=
  match surplus_regions with
  | [] => Ok (h, balancing_actions)
  | surplus_region :: rest =>
      s <- status_get balanced_status h surplus_region ;;
      let available_surplus := balance s in
      if Qle_bool available_surplus 0 then
        transfer_loop now balanced_status rest deficit_regions h balancing_actions
      else
        r <- offer_surplus now balanced_status surplus_region deficit_regions
               available_surplus h balancing_actions ;;
        transfer_loop now balanced_status rest deficit_regions (fst r) (snd r)
  end.

(** Lines 204-240 on the copied dictionary. *)
Definition rebalance (now : nat -> string) (balanced_status : StatusDict)
    (h : Heap) : PyResult (Heap * list BalancingAction) :=
  sorted <- sorted_regions balanced_status h ;;
  surplus_regions <-
    select_regions (fun b => Qlt_bool 0 b) balanced_status h sorted ;;
  deficit_regions <-
    select_regions (fun b => Qlt_bool b 0) balanced_status h sorted ;;
  transfer_loop now balanced_status surplus_regions deficit_regions h [].

(** ** Frequencies after balancing (lines 242-248) *)

Definition clamp_frequency (f : Q) : Q := py_min 50.2 (py_max 49.8 f).

Fixpoint frequency_loop (initial_status balanced_status : StatusDict)
    (keys : list string) (h : Heap) : PyResult Heap :=
  match keys with
  | [] => Ok h
  | region :: rest =>
      b <- status_get balanced_status h region ;;
      let initial_freq := frequency b in
      i <- status_get initial_status h region ;;
      let balance_change := balance b - balance i in
      if Qeq_bool (consumption i) 0 then Raise ZeroDivisionError
      else
        let freq_change := balance_change / consumption i * 0.1 in
        h <- status_update balanced_status h region
               (set_frequency (clamp_frequency (initial_freq + freq_change))) ;;
        frequency_loop initial_status balanced_status rest h
  end.

(** ** The simulation (lines 127-279) *)

Record Metrics : Type := mkMetrics {
  initial_imbalance : Q;
  remaining_imbalance : Q;
  improvement_percentage : Q;
  transfers_count : nat;
  total_power_transferred : Q
}.

(** The result dictionary, with the store its two status dictionaries
    refer into. *)
Record BalancingResult : Type := mkBalancingResult {
  scenario : string;
  initial_status : StatusDict;
  balanced_status : StatusDict;
  store : Heap;
  balancing_actions : list BalancingAction;
  metrics : Metrics
}.

Inductive SimulationResult : Type :=
| Balanced (r : BalancingResult)
| SimulationError (error : string) (scenario : string) (regions : list string).

(** Lines 252-254. *)
Definition improvement (total_imbalance remaining_imbalance : Q) : Q :=
  if negb (Qeq_bool total_imbalance 0) then
    (Qabs total_imbalance - Qabs remaining_imbalance)
      / Qabs total_imbalance * 100
  else 0.

(** The body of the [try] block. *)
Definition simulate_body (rng : RandomSource) (now : nat -> string)
    (regional_data : Snapshot) (scenario : string) (regions : list string)
    : PyResult BalancingResult :=
  st <- perturbed_status rng regional_data scenario regions ;;
  let initial_status := fst st in
  let h := snd st in
  let total_imbalance := sum_balance initial_status h in
  let balanced_status := dict_copy initial_status in
  r <- rebalance now balanced_status h ;;
  let balancing_actions := snd r in
  h <- frequency_loop initial_status balanced_status
         (dict_keys balanced_status) (fst r) ;;
  let remaining_imbalance := sum_balance balanced_status h in
  let improvement_percentage := improvement total_imbalance remaining_imbalance in
  Ok (mkBalancingResult scenario initial_status balanced_status h
        balancing_actions
        (mkMetrics (round2 total_imbalance) (round2 remaining_imbalance)
           (round2 improvement_percentage) (length balancing_actions)
           (round2 (py_sum (map amount balancing_actions))))).

Definition simulate_load_balancing (rng : RandomSource) (now : nat -> string)
    (regional_data : Snapshot) (scenario : string) (regions : list string)
    : SimulationResult :=
  match simulate_body rng now regional_data scenario regions with
  | Ok result => Balanced result
  | Raise e =>
      SimulationError (exn_message e) scenario
        (effective_regions regional_data regions)
  end.

(** What a reader of the result sees under [result[which][region]]. *)
Definition reported (which : BalancingResult -> StatusDict)
    (r : BalancingResult) (region : string) : option RegionStatus :=
  match dict_get (which r) region with
  | Some l => store r !! l
  | None => None
  end.

(** ** A two-region example *)

Definition example_snapshot : Snapshot :=
  [ ("A"%string, mkRegionData (Some 100) (Some 80) None);
    ("B"%string, mkRegionData (Some 50) (Some 90) None) ].

Definition no_randomness : RandomSource := mkRandomSource (fun _ => 0) (fun _ => 0%nat).
Definition fixed_clock : nat -> string := fun _ => "2024-01-01T00:00:00"%string.

(** * The greedy pass on binary64 floats *)

(** The embedding above computes with exact rationals.  A Python [float] is
    an IEEE 754 binary64 number, and its operations round.  This module
    follows the balances of [simulate_load_balancing] under the scenario
    [normal] with no region list (lines 150-160, 198, 200-240 and 251) on
    Rocq's primitive binary64 floats, operation for operation.  What no
    balance depends on is left out: the recorded actions, and the update of
    the frequencies (lines 242-248), which writes no balance. *)
Module Binary64.

Import PrimFloat.
#[local] Open Scope float_scope.
#[local] Set Warnings "-inexact-float".

(** [min(a, b)]: the first argument unless the second is strictly smaller. *)
Definition py_min (a b : float) : float := if b <? a then b else a.

(** [sum(xs)] up to CPython 3.11: starts from 0 and adds from the left. *)
Definition py_sum (xs : list float) : float := fold_left add xs 0.

(** The loop of [sum(xs)] from CPython 3.12 on, which carries a compensation
    [c] for the rounding of each addition (Neumaier's summation). *)
Fixpoint compensated_loop (xs : list float) (f_result c : float)
    : float * float :=
  match xs with
  | [] => (f_result, c)
  | x :: rest =>
      let t := f_result + x in
      let c :=
        if abs x <=? abs f_result then c + ((f_result - t) + x)
        else c + ((x - t) + f_result) in
      compensated_loop rest t c
  end.

(** [sum(xs)] from CPython 3.12 on: the compensation is added at the end,
    unless it is zero or not finite. *)
Definition py_sum_compensated (xs : list float) : float :=
  let '(f_result, c) := compensated_loop xs 0 0 in
  if negb (c =? 0) && is_finite c then f_result + c else f_result.

(** One value of [initial_status]. *)
Record RegionStatus : Type := mkRegionStatus {
  generation : float;
  consumption : float;
  balance : float;
  frequency : float
}.

Definition set_balance (v : float) (s : RegionStatus) : RegionStatus :=
  mkRegionStatus (generation s) (consumption s) v (frequency s).

(** [d[k]], the record itself. *)
Definition status_get (d : StatusDict) (h : list RegionStatus) (k : string)
    : PyResult RegionStatus :=
  match dict_get d k with
  | None => Raise (KeyError k)
  | Some l =>
      match h !! l with
      | Some s => Ok s
      | None => Raise (KeyError k)
      end
  end.

(** [d[k][field] = ...]: an update of the record [d[k]] refers to. *)
Definition status_update (d : StatusDict) (h : list RegionStatus) (k : string)
    (f : RegionStatus -> RegionStatus) : PyResult (list RegionStatus) :=
  match dict_get d k with
  | None => Raise (KeyError k)
  | Some l =>
      match h !! l with
      | Some s => Ok (<[l := f s]> h)
      | None => Raise (KeyError k)
      end
  end.

(** [d.values()] *)
Fixpoint status_values (d : StatusDict) (h : list RegionStatus)
    : list RegionStatus :=
  match d with
  | [] => []
  | (_, l) :: d' =>
      match h !! l with
      | Some s => s :: status_values d' h
      | None => status_values d' h
      end
  end.

(** [sum(r['balance'] for r in d.values())], with either summation. *)
Definition sum_balance (sum : list float -> float) (d : StatusDict)
    (h : list RegionStatus) : float :=
  sum (map balance (status_values d h)).

(** One entry of [power_data['regions']]; a missing key is [None]. *)
Record RegionData : Type := mkRegionData {
  data_generation : option float;
  data_consumption : option float;
  data_frequency : option float
}.

(** [data.get(key, default)] *)
Definition get_default (o : option float) (default : float) : float :=
  match o with
  | Some v => v
  | None => default
  end.

(** The record built for one region (lines 152-160). *)
Definition region_status_of (data : RegionData) : RegionStatus :=
  let generation := get_default (data_generation data) 0 in
  let consumption := get_default (data_consumption data) 0 in
  let balance := generation - consumption in
  mkRegionStatus generation consumption balance
    (get_default (data_frequency data) 50.0).

(** The loop of lines 150-160: one fresh record per region. *)
Fixpoint build_status (regional_data : list (string * RegionData))
    (d : StatusDict) (h : list RegionStatus)
    : StatusDict * list RegionStatus :=
  match regional_data with
  | [] => (d, h)
  | (region, data) :: rest =>
      build_status rest (dict_set d region (length h))
        (h ++ [region_status_of data])
  end.

(** The keys of [sorted(..., key=...)]: computed once per element. *)
Fixpoint balance_keys (d : StatusDict) (h : list RegionStatus)
    (keys : list string) : PyResult (list (string * float)) :=
  match keys with
  | [] => Ok []
  | r :: rest =>
      s <- status_get d h r ;;
      keyed <- balance_keys d h rest ;;
      Ok ((r, balance s) :: keyed)
  end.

(** Stable insertion into a list in descending key order. *)
Fixpoint insert_desc (x : string * float) (l : list (string * float))
    : list (string * float) :=
  match l with
  | [] => [x]
  | y :: l' => if snd x <? snd y then y :: insert_desc x l' else x :: y :: l'
  end.

(** [sorted(keyed, key=snd, reverse=True)] *)
Fixpoint sort_desc (l : list (string * float)) : list (string * float) :=
  match l with
  | [] => []
  | x :: l' => insert_desc x (sort_desc l')
  end.

(** [sorted(d.keys(), key=lambda r: d[r]['balance'], reverse=True)] *)
Definition sorted_regions (d : StatusDict) (h : list RegionStatus)
    : PyResult (list string) :=
  keyed <- balance_keys d h (dict_keys d) ;;
  Ok (map fst (sort_desc keyed)).

(** [[r for r in keys if test(d[r]['balance'])]] *)
Fixpoint select_regions (test : float -> bool) (d : StatusDict)
    (h : list RegionStatus) (keys : list string) : PyResult (list string) :=
  match keys with
  | [] => Ok []
  | r :: rest =>
      s <- status_get d h r ;;
      selected <- select_regions test d h rest ;;
      Ok (if test (balance s) then r :: selected else selected)
  end.

(** The inner loop (lines 215-240) for one surplus region. *)
Fixpoint offer_surplus (balanced_status : StatusDict) (surplus_region : string)
    (deficit_regions : list string) (available_surplus : float)
    (h : list RegionStatus) : PyResult (list RegionStatus) :=
  match deficit_regions with
  | [] => Ok h
  | deficit_region :: rest =>
      s <- status_get balanced_status h deficit_region ;;
      let needed_power := abs (balance s) in
      if needed_power <=? 0 then
        offer_surplus balanced_status surplus_region rest available_surplus h
      else
        let transfer_amount := py_min available_surplus needed_power in
        if transfer_amount <=? 0 then
          offer_surplus balanced_status surplus_region rest available_surplus h
        else
          h <- status_update balanced_status h surplus_region
                 (fun s => set_balance (balance s - transfer_amount) s) ;;
          h <- status_update balanced_status h deficit_region
                 (fun s => set_balance (balance s + transfer_amount) s) ;;
          let available_surplus := available_surplus - transfer_amount in
          if available_surplus <=? 0 then Ok h
          else
            offer_surplus balanced_status surplus_region rest
              available_surplus h
  end.

(** The outer loop (lines 210-240). *)
Fixpoint transfer_loop (balanced_status : StatusDict)
    (surplus_regions deficit_regions : list string) (h : list RegionStatus)
    : PyResult (list RegionStatus) :=
  match surplus_regions with
  | [] => Ok h
  | surplus_region :: rest =>
      s <- status_get balanced_status h surplus_region ;;
      let available_surplus := balance s in
      if available_surplus <=? 0 then
        transfer_loop balanced_status rest deficit_regions h
      else
        h <- offer_surplus balanced_status surplus_region deficit_regions
               available_surplus h ;;
        transfer_loop balanced_status rest deficit_regions h
  end.

(** Lines 204-240 on the copied dictionary. *)
Definition rebalance (balanced_status : StatusDict) (h : list RegionStatus)
    : PyResult (list RegionStatus) :=
  sorted <- sorted_regions balanced_status h ;;
  surplus_regions <- select_regions (fun b => 0 <? b) balanced_status h sorted ;;
  deficit_regions <- select_regions (fun b => b <? 0) balanced_status h sorted ;;
  transfer_loop balanced_status surplus_regions deficit_regions h.

(** A snapshot of three regions with one decimal each: A generates 109.0 and
    consumes 92.7, B 139.1 and 51.1, C 60.9 and 80.2. *)
Definition decimal_snapshot : list (string * RegionData) :=
  [ ("A"%string, mkRegionData (Some 109.0) (Some 92.7) None);
    ("B"%string, mkRegionData (Some 139.1) (Some 51.1) None);
    ("C"%string, mkRegionData (Some 60.9) (Some 80.2) None) ].

(** The sum of the balances of [decimal_snapshot] before the pass, and the
    sum after it, as Python prints them. *)
Definition decimal_total_before : float := 85.0.
Definition decimal_total_after : float := 84.99999999999999.

End Binary64.

(** * The demand forecaster ([forecasting.py]) *)

(** ** Calendar *)

(** Dates are day numbers, day 0 being 1970-01-01 (a Thursday);
    [strftime("%Y-%m-%d")] renders a day number and is left implicit. *)

(** [date.dayofweek]: Monday is 0. *)
Definition dayofweek_of (d : Z) : Z := ((d + 3) mod 7)%Z.

(** Day of the year counted from 1 March, in the proleptic Gregorian
    calendar. *)
Definition day_of_march_year (d : Z) : Z :=
  let z := (d + 719468)%Z in
  let doe := (z mod 146097)%Z in
  let yoe := ((doe - doe / 1460 + doe / 36524 - doe / 146096) / 365)%Z in
  (doe - (365 * yoe + yoe / 4 - yoe / 100))%Z.

(** [date.month] *)
Definition month_of (d : Z) : Z :=
  let mp := ((5 * day_of_march_year d + 2) / 153)%Z in
  if (mp <? 10)%Z then (mp + 3)%Z else (mp - 9)%Z.

(** [date.day] *)
Definition day_of (d : Z) : Z :=
  let doy := day_of_march_year d in
  let mp := ((5 * doy + 2) / 153)%Z in
  (doy - (153 * mp + 2) / 5 + 1)%Z.

(** ** Data *)

(** One element of [historical_data]; [hist_date] is [None] for a value
    [pd.to_datetime] rejects. *)
Record HistoricalPoint : Type := mkHistoricalPoint {
  hist_date : option Z;
  peak_demand : Q;
  minimum_demand : Q;
  average_demand : Q
}.

(** One row of the data frame after feature construction. *)
Record FeatureRow : Type := mkFeatureRow {
  row_date : Z;
  row_average_demand : Q;
  dayofweek : Z;
  month : Z;
  day : Z;
  is_weekend : Z;
  demand_lag1 : Q;
  demand_lag2 : Q;
  demand_lag7 : Q;
  demand_rolling_mean3 : Q;
  demand_rolling_mean7 : Q
}.

(** [row[feature_columns].values] *)
Definition feature_values (r : FeatureRow) : list Q :=
  [ inject_Z (dayofweek r); inject_Z (month r); inject_Z (day r);
    inject_Z (is_weekend r);
    demand_lag1 r; demand_lag2 r; demand_lag7 r;
    demand_rolling_mean3 r; demand_rolling_mean7 r ].

Record ForecastPoint : Type := mkForecastPoint {
  date : Z;
  predicted_demand : Q;
  lower_bound : Q;
  upper_bound : Q
}.

(** ** The learning library *)

(** What the forecaster uses of scikit-learn: a standard scaler and a
    regressor.  [fit_model] covers the train/validation split, the fit of
    the forest and its scores, any of which may raise. *)
Class Learner : Type := mkLearner {
  Scaler : Type;
  Model : Type;
  TrainingInfo : Type;
  scaler_fit : list (list Q) -> Scaler;
  scaler_transform : Scaler -> list Q -> list Q;
  fit_model : list (list Q) -> list Q -> PyResult (Model * TrainingInfo);
  model_predict : Model -> list Q -> Q
}.

(** ** Feature preparation (lines 21-63) *)

(** [pd.to_datetime(df['date'])] *)
Fixpoint parse_dates (history : list HistoricalPoint)
    : PyResult (list (Z * HistoricalPoint)) :=
  match history with
  | [] => Ok []
  | p :: rest =>
      match hist_date p with
      | None => Raise (ValueError "Unknown datetime string format")
      | Some d =>
          parsed <- parse_dates rest ;;
          Ok ((d, p) :: parsed)
      end
  end.

(** Stable insertion into a list in ascending date order. *)
Fixpoint insert_by_date (x : Z * HistoricalPoint)
    (l : list (Z * HistoricalPoint)) : list (Z * HistoricalPoint) :=
  match l with
  | [] => [x]
  | y :: l' =>
      if (fst y <? fst x)%Z then y :: insert_by_date x l' else x :: y :: l'
  end.

(** [df.sort_values('date')], with rows of equal date in their original
    order; pandas leaves the order of such rows open, and the statements
    below that depend on it are about histories of distinct dates. *)
Fixpoint sort_by_date (l : list (Z * HistoricalPoint))
    : list (Z * HistoricalPoint) :=
  match l with
  | [] => []
  | x :: l' => insert_by_date x (sort_by_date l')
  end.

(** [series.shift(k)] at position [i]: missing in the first [k] rows. *)
Definition shift (k : nat) (xs : list Q) (i : nat) : option Q :=
  if (i <? k)%nat then None else xs !! (i - k)%nat.

(** [series.rolling(window=w).mean()] at position [i]: the mean of the [w]
    values ending at [i], missing while the window is not full. *)
Definition rolling_mean (w : nat) (xs : list Q) (i : nat) : option Q :=
  if (i + 1 <? w)%nat then None
  else Some (py_sum (take w (drop (i + 1 - w) xs)) / inject_Z (Z.of_nat w)).

(** Row [i] of the frame, if none of its derived columns is missing. *)
Definition feature_row (sorted : list (Z * HistoricalPoint)) (i : nat)
    : option FeatureRow :=
  let demand := map (fun x => average_demand (snd x)) sorted in
  x ← sorted !! i;
  lag1 ← shift 1 demand i;
  lag2 ← shift 2 demand i;
  lag7 ← shift 7 demand i;
  mean3 ← rolling_mean 3 demand i;
  mean7 ← rolling_mean 7 demand i;
  let dow := dayofweek_of (fst x) in
  Some (mkFeatureRow (fst x) (average_demand (snd x)) dow
          (month_of (fst x)) (day_of (fst x))
          (if (5 <=? dow)%Z then 1%Z else 0%Z)
          lag1 lag2 lag7 mean3 mean7).

(** [df.dropna()] over the whole frame. *)
Definition surviving_rows (sorted : list (Z * HistoricalPoint))
    : list FeatureRow :=
  omap (feature_row sorted) (seq 0 (length sorted)).

(** What [_prepare_features] returns, with the scaler it has fitted. *)
Record Prepared `{Learner} : Type := mkPrepared {
  X_scaled : list (list Q);
  y : list Q;
  df : list FeatureRow;
  fitted_scaler : Scaler
}.

Arguments mkPrepared {_} X_scaled y df fitted_scaler.

(** [self._prepare_features(historical_data)]: an empty list has no [date]
    column, and the scaler refuses a frame without rows. *)
Definition _prepare_features `{Learner} (historical_data : list HistoricalPoint)
    : PyResult Prepared :=
  match historical_data with
  | [] => Raise (KeyError "date")
  | _ =>
      parsed <- parse_dates historical_data ;;
      let df := surviving_rows (sort_by_date parsed) in
      let X := map feature_values df in
      let y := map row_average_demand df in
      match df with
      | [] =>
          Raise (ValueError
            "Found array with 0 sample(s) while a minimum of 1 is required by StandardScaler.")
      | _ =>
          let scaler := scaler_fit X in
          Ok (mkPrepared (map (scaler_transform scaler) X) y df scaler)
      end
  end.

(** ** The forecaster object *)

(** [self.model].  The scaler is refitted by every call of
    [_prepare_features] before it is used, so it travels with [Prepared]. *)
Record DemandForecaster `{Learner} : Type := mkDemandForecaster {
  model : option Model
}.

Arguments mkDemandForecaster {_} model.

(** [DemandForecaster()] *)
Definition new_forecaster `{Learner} : DemandForecaster :=
  mkDemandForecaster None.

(** The dictionary [train_model] returns. *)
Inductive TrainingResult `{Learner} : Type :=
| TrainingSucceeded (info : TrainingInfo)
| TrainingFailure (error : string).

(** [self.train_model(historical_data)] (lines 65-103) *)
Definition train_model `{Learner} (self : DemandForecaster)
    (historical_data : list HistoricalPoint)
    : TrainingResult * DemandForecaster :=
  match
    (p <- _prepare_features historical_data ;; fit_model (X_scaled p) (y p))
  with
  | Ok (m, info) => (TrainingSucceeded info, mkDemandForecaster (Some m))
  | Raise e => (TrainingFailure (exn_message e), self)
  end.

(** ** Forecasting (lines 105-203) *)

(** The last day a [datetime] holds, 9999-12-31: [datetime.now() +
    timedelta(days=i)] raises [OverflowError] for a later day. *)
Definition datetime_max_day : Z := 2932896.

(** The last day a pandas [Timestamp] of nanosecond resolution holds,
    2262-04-11: up to it [last_date + timedelta(days=i)] does not
    overflow. *)
Definition timestamp_max_day : Z := 106751.

(** [self._get_fallback_forecast(forecast_days)]; [today] is the day of
    [datetime.now()].  The day numbers are unbounded here: the series is the
    one the code returns as long as its last date, [today + forecast_days],
    is no later than [datetime_max_day]. *)
Definition fallback_point (today : Z) (i : nat) : ForecastPoint :=
  let base_demand := 320000 in
  let forecast_date := (today + Z.of_nat i)%Z in
  let daily_variation :=
    15000 * (inject_Z ((Z.of_nat i mod 7) - 3) / 3) in
  let predicted_demand := base_demand + daily_variation in
  mkForecastPoint forecast_date (round2 predicted_demand)
    (round2 (predicted_demand * 0.95)) (round2 (predicted_demand * 1.05)).

Definition _get_fallback_forecast (today : Z) (forecast_days : Z)
    : list ForecastPoint :=
  map (fallback_point today) (seq 1 (Z.to_nat forecast_days)).

(** [df['date'].max()] *)
Definition max_date (df : list FeatureRow) : option Z :=
  match df with
  | [] => None
  | r :: rest => Some (fold_left Z.max (map row_date rest) (row_date r))
  end.

(** The body of the forecasting loop for the steps [i] in [steps]; it
    follows the code as long as the dates [last_date + i] are no later than
    [timestamp_max_day]. *)
Fixpoint forecast_loop `{Learner} (m : Model) (scaler : Scaler) (last_date : Z)
    (steps : list nat) (last_row : FeatureRow)
    (forecast_results : list ForecastPoint) : PyResult (list ForecastPoint) :=
  match steps with
  | [] => Ok forecast_results
  | i :: rest =>
      let forecast_date := (last_date + Z.of_nat i)%Z in
      let dow := dayofweek_of forecast_date in
      let last_row :=
        mkFeatureRow forecast_date (row_average_demand last_row) dow
          (month_of forecast_date) (day_of forecast_date)
          (if (5 <=? dow)%Z then 1%Z else 0%Z)
          (demand_lag1 last_row) (demand_lag2 last_row) (demand_lag7 last_row)
          (demand_rolling_mean3 last_row) (demand_rolling_mean7 last_row) in
      let X_forecast := feature_values last_row in
      let X_forecast_scaled := scaler_transform scaler X_forecast in
      let predicted := model_predict m X_forecast_scaled in
      let forecast_results :=
        forecast_results ++
          [mkForecastPoint forecast_date (round2 predicted)
             (round2 (predicted * 0.95)) (round2 (predicted * 1.05))] in
      let lag7 := demand_lag2 last_row in
      let lag2 := demand_lag1 last_row in
      let lag1 := predicted in
      previous <-
        (if (i =? 1)%nat then Ok (row_average_demand last_row)
         else
           match forecast_results !! (length forecast_results - 2)%nat with
           | Some p =>
               if (2 <=? length forecast_results)%nat
               then Ok (predicted_demand p)
               else Raise (IndexError "list index out of range")
           | None => Raise (IndexError "list index out of range")
           end) ;;
      let mean3 := (lag1 + lag2 + previous) / 3 in
      let mean7 := (lag1 + lag2 + lag7 + predicted * 4) / 7 in
      forecast_loop m scaler last_date rest
        (mkFeatureRow forecast_date (row_average_demand last_row) dow
           (month_of forecast_date) (day_of forecast_date)
           (if (5 <=? dow)%Z then 1%Z else 0%Z)
           lag1 lag2 lag7 mean3 mean7)
        forecast_results
  end.

(** Lines 114-170: everything after the training step. *)
Definition forecast_steps `{Learner} (self : DemandForecaster)
    (historical_data : list HistoricalPoint) (forecast_days : Z)
    : PyResult (list ForecastPoint) :=
  p <- _prepare_features historical_data ;;
  match max_date (df p), last (df p), model self with
  | Some last_date, Some last_row, Some m =>
      forecast_loop m (fitted_scaler p) last_date
        (seq 1 (Z.to_nat forecast_days)) last_row []
  | _, _, None =>
      Raise (AttributeError "'NoneType' object has no attribute 'predict'")
  | _, _, _ =>
      Raise (IndexError "single positional indexer is out of bounds")
  end.

(** The dictionary [forecast_demand] returns: one of
    [{"success": True, "forecast": ...}], the failed [training_result]
    [{"success": False, "error": ...}] returned as it is, and
    [{"success": False, "error": ..., "fallback_forecast": ...}]. *)
Inductive ForecastResponse : Type :=
| Forecast (forecast : list ForecastPoint)
| TrainingFailed (error : string)
| Fallback (error : string) (fallback_forecast : list ForecastPoint).

(** [response.get("forecast")] and [response.get("fallback_forecast")] *)
Definition get_forecast (r : ForecastResponse) : option (list ForecastPoint) :=
  match r with
  | Forecast f => Some f
  | _ => None
  end.

Definition get_fallback_forecast (r : ForecastResponse)
    : option (list ForecastPoint) :=
  match r with
  | Fallback _ f => Some f
  | _ => None
  end.

(** Lines 114-183: the forecast, or the fallback of the [except] clause. *)
Definition forecast_or_fallback `{Learner} (today : Z) (self : DemandForecaster)
    (historical_data : list HistoricalPoint) (forecast_days : Z)
    : ForecastResponse * DemandForecaster :=
  match forecast_steps self historical_data forecast_days with
  | Ok forecast_results => (Forecast forecast_results, self)
  | Raise e =>
      (Fallback (exn_message e) (_get_fallback_forecast today forecast_days),
       self)
  end.

(** [self.forecast_demand(historical_data, forecast_days)] *)
Definition forecast_demand `{Learner} (today : Z) (self : DemandForecaster)
    (historical_data : list HistoricalPoint) (forecast_days : Z)
    : ForecastResponse * DemandForecaster :=
  match model self with
  | None =>
      let (training_result, self) := train_model self historical_data in
      match training_result with
      | TrainingFailure error => (TrainingFailed error, self)
      | TrainingSucceeded _ =>
          forecast_or_fallback today self historical_data forecast_days
      end
  | Some _ => forecast_or_fallback today self historical_data forecast_days
  end.

(** The last date of a history: the latest of its dates. *)
Definition last_historical_date (history : list HistoricalPoint) : option Z :=
  match omap hist_date history with
  | [] => None
  | d :: ds => Some (fold_left Z.max ds d)
  end.

(** ** A learner and a history to run the forecaster on *)

(** A scaler that changes nothing and a regressor that answers the mean of
    its training targets. *)
Definition mean_learner : Learner := {|
  Scaler := unit;
  Model := Q;
  TrainingInfo := unit;
  scaler_fit := fun _ => tt;
  scaler_transform := fun _ x => x;
  fit_model := fun _ y =>
    match y with
    | [] => Raise (ValueError "the resulting train set will be empty")
    | _ => Ok (py_sum y / inject_Z (Z.of_nat (length y)), tt)
    end;
  model_predict := fun m _ => m
|}.

(** Ten consecutive days from 2024-01-01 (day 19723), in reverse order. *)
Definition example_history : list HistoricalPoint :=
  map (fun i => mkHistoricalPoint (Some (19732 - Z.of_nat i)%Z)
                  (inject_Z (300000 + 1000 * Z.of_nat i))
                  (inject_Z (200000 + 1000 * Z.of_nat i))
                  (inject_Z (250000 + 1000 * Z.of_nat i)))
      (seq 0 10).


(** * The data source and the forecast endpoint ([api_client.py], [app.py]) *)

(** [CEAClient._get_fallback_historical_data(region, days)]: one point per
    day, the newest first.  The three demand values of a day are integers
    that the source computes in floating point ([int] of a product of
    floats); they are given by [levels] here.  The date is the day its
    string is read back as. *)
Definition _get_fallback_historical_data (levels : nat -> Q * Q * Q)
    (today : Z) (days : Z) : list HistoricalPoint :=
  map (fun i =>
         mkHistoricalPoint (Some (today - Z.of_nat i)%Z)
           (fst (fst (levels i))) (snd (fst (levels i))) (snd (levels i)))
      (seq 0 (Z.to_nat days)).

(** [CEAClient.get_historical_data(region, days)]: the constructor sets
    [use_fallback], so the fallback data is returned at once. *)
Definition get_historical_data (levels : nat -> Q * Q * Q) (today : Z)
    (days : Z) : list HistoricalPoint :=
  _get_fallback_historical_data levels today days.

(** The value under ["forecast"] in the answer of [/api/forecast-demand]: a
    series, or the dictionary [{"success": False, "error": ...}] put there
    in place of one. *)
Inductive ForecastPayload : Type :=
| PayloadSeries (points : list ForecastPoint)
| PayloadFailure (error : string).

(** [app.forecast_demand()] (lines 84-111) for a request whose [days] field
    reads as the integer [days]; the history is asked for with the default
    of 30 days. *)
Definition api_forecast_demand `{Learner} (levels : nat -> Q * Q * Q)
    (today : Z) (forecaster : DemandForecaster) (days : Z)
    : ForecastPayload * DemandForecaster :=
  let historical_data := get_historical_data levels today 30 in
  let (forecast_result, forecaster) :=
    forecast_demand today forecaster historical_data days in
  match forecast_result with
  | Fallback _ fallback_forecast =>
      (* not success, and a "fallback_forecast" in the result *)
      (PayloadSeries fallback_forecast, forecaster)
  | Forecast forecast =>
      (* a "forecast" in the result *)
      (PayloadSeries forecast, forecaster)
  | TrainingFailed error =>
      (* neither: the result itself is sent as the forecast *)
      (PayloadFailure error, forecaster)
  end.

(** * Fault detection and the grid summary ([utils.py]) *)

(** One value of [grid_status['regions']]; a missing key is [None]. *)
Record RegionHealth : Type := mkRegionHealth {
  load_percentage : option Q;
  region_frequency : option Q
}.

(** One element of [grid_status['potential_issues']]. *)
Record ReportedIssue : Type := mkReportedIssue {
  issue_type : option string;
  issue_region : option string;
  issue_substation : option string;
  issue_severity : option string;
  issue_timestamp : option string
}.

(** What the two functions read of [grid_status]. *)
Record GridStatus : Type := mkGridStatus {
  grid_frequency : option Q;
  overall_status : option string;
  status_regions : list (string * RegionHealth);
  potential_issues : list ReportedIssue
}.

(** The ['value'] of a fault: a number, or a text such as ["92%"]. *)
Inductive FaultValue : Type :=
| NumberValue (v : Q)
| TextValue (text : string).

(** One detected fault; the keys a kind of fault does not have are [None]. *)
Record Fault : Type := mkFault {
  fault_type : string;
  fault_region : option string;
  fault_substation : option string;
  fault_value : option FaultValue;
  fault_threshold : option string;
  fault_severity : string;
  fault_timestamp : string;
  fault_description : string
}.

(** [d.get(key, default)] for a text. *)
Definition get_text (o : option string) (default : string) : string :=
  match o with
  | Some v => v
  | None => default
  end.

(** Lines 70-80; [show] is the text of a number in an f-string, [now n] the
    n-th reading of the clock. *)
Definition frequency_faults (show : Q -> string) (now : nat -> string)
    (frequency : Q) (faults : list Fault) : list Fault :=
  if Qlt_bool frequency 49.7 || Qlt_bool 50.3 frequency then
    faults ++
      [mkFault "frequency_deviation" None None
         (Some (NumberValue frequency)) (Some "49.7-50.3 Hz"%string)
         (if Qlt_bool frequency 49.5 || Qlt_bool 50.5 frequency
          then "high" else "medium")
         (now (length faults))
         ("Grid frequency outside acceptable limits: " ++ show frequency
          ++ " Hz")]
  else faults.

(** Lines 85-95 for one region. *)
Definition load_faults (show : Q -> string) (now : nat -> string)
    (region : string) (data : RegionHealth) (faults : list Fault)
    : list Fault :=
  let load_percentage := get_default (load_percentage data) 0 in
  if Qlt_bool 90 load_percentage then
    faults ++
      [mkFault "high_load" (Some region) None
         (Some (TextValue (show load_percentage ++ "%")))
         (Some "90%"%string)
         (if Qlt_bool 95 load_percentage then "critical" else "high")
         (now (length faults))
         ("High load in " ++ region ++ " region: " ++ show load_percentage
          ++ "%")]
  else faults.

(** Lines 98-108 for one region. *)
Definition regional_frequency_faults (show : Q -> string)
    (now : nat -> string) (region : string) (data : RegionHealth)
    (faults : list Fault) : list Fault :=
  let region_freq := get_default (region_frequency data) 50.0 in
  if Qlt_bool 0.3 (Qabs (region_freq - 50.0)) then
    faults ++
      [mkFault "regional_frequency_deviation" (Some region) None
         (Some (NumberValue region_freq)) (Some "49.7-50.3 Hz"%string)
         "medium" (now (length faults))
         ("Frequency deviation in " ++ region ++ " region: "
          ++ show region_freq ++ " Hz")]
  else faults.

(** The loop over the regions (lines 83-108). *)
Fixpoint region_faults (show : Q -> string) (now : nat -> string)
    (regions : list (string * RegionHealth)) (faults : list Fault)
    : list Fault :=
  match regions with
  | [] => faults
  | (region, data) :: rest =>
      let faults := load_faults show now region data faults in
      let faults := regional_frequency_faults show now region data faults in
      region_faults show now rest faults
  end.

(** The fault made of one reported issue (lines 112-119). *)
Definition issue_fault (now : nat -> string) (issue : ReportedIssue)
    (n : nat) : Fault :=
  mkFault (get_text (issue_type issue) "unknown")
    (Some (get_text (issue_region issue) "unknown"))
    (Some (get_text (issue_substation issue) "unknown"))
    None None
    (get_text (issue_severity issue) "low")
    (get_text (issue_timestamp issue) (now n))
    (get_text (issue_type issue) "Issue" ++ " at "
     ++ get_text (issue_substation issue) "substation" ++ " in "
     ++ get_text (issue_region issue) "region").

(** The loop over the reported issues (lines 111-119). *)
Fixpoint issue_faults (now : nat -> string) (issues : list ReportedIssue)
    (faults : list Fault) : list Fault :=
  match issues with
  | [] => faults
  | issue :: rest =>
      issue_faults now rest (faults ++ [issue_fault now issue (length faults)])
  end.

(** [detect_grid_faults(grid_status)] (lines 63-125). *)
Definition detect_grid_faults (show : Q -> string) (now : nat -> string)
    (grid_status : GridStatus) : list Fault :=
  let faults := [] in
  let frequency := get_default (grid_frequency grid_status) 50.0 in
  let faults := frequency_faults show now frequency faults in
  let faults := region_faults show now (status_regions grid_status) faults in
  issue_faults now (potential_issues grid_status) faults.

(** What [get_grid_summary] reads of [power_data]. *)
Record PowerData : Type := mkPowerData {
  power_timestamp : option string;
  total_generation : option Q;
  total_consumption : option Q;
  power_regions : Snapshot;
  generation_mix : list (string * Q)
}.

(** [renewable_data['current_generation']]. *)
Record CurrentGeneration : Type := mkCurrentGeneration {
  solar : option Q;
  wind : option Q;
  hydro : option Q;
  biomass : option Q;
  others : option Q
}.

(** The dictionary [get_grid_summary] returns. *)
Record GridSummary : Type := mkGridSummary {
  summary_timestamp : string;
  summary_generation : Q;
  summary_consumption : Q;
  reserve_margin : Q;
  summary_frequency : Q;
  renewable_percentage : Q;
  regional_data : Snapshot;
  summary_generation_mix : list (string * Q);
  summary_issues : list ReportedIssue;
  summary_status : string
}.

(** [get_grid_summary()] (lines 10-61) on the three answers of the data
    source; [now] is the clock. *)
Definition get_grid_summary (now : string) (power_data : PowerData)
    (current_generation : CurrentGeneration) (grid_status : GridStatus)
    : GridSummary :=
  let total_generation := get_default (total_generation power_data) 0 in
  let renewable_generation :=
    get_default (solar current_generation) 0
    + get_default (wind current_generation) 0
    + get_default (hydro current_generation) 0
    + get_default (biomass current_generation) 0
    + get_default (others current_generation) 0 in
  let renewable_percentage :=
    if Qlt_bool 0 total_generation
    then renewable_generation / total_generation * 100 else 0 in
  let reserve_margin :=
    if Qlt_bool 0 total_generation
    then (total_generation - get_default (total_consumption power_data) 0)
         / total_generation * 100
    else 0 in
  mkGridSummary
    (get_text (power_timestamp power_data) now)
    total_generation
    (get_default (total_consumption power_data) 0)
    (round2 reserve_margin)
    (get_default (grid_frequency grid_status) 50.0)
    (round2 renewable_percentage)
    (power_regions power_data)
    (generation_mix power_data)
    (potential_issues grid_status)
    (get_text (overall_status grid_status) "unknown").

(** Demand values that are 250000 on every day. *)
Definition flat_levels : nat -> Q * Q * Q :=
  fun _ => (250000, 250000, 250000).

(** A grid status with one overloaded region and one reported issue. *)
Definition example_grid_status : GridStatus :=
  mkGridStatus (Some 49.6) (Some "alert"%string)
    [ ("north"%string, mkRegionHealth (Some 96) (Some 49.95));
      ("south"%string, mkRegionHealth (Some 70) None) ]
    [ mkReportedIssue (Some "line_loading"%string) (Some "south"%string)
        None (Some "medium"%string) None ].

(** * Invariants of the store *)

(** Distinct dictionary entries refer to distinct records, all of them
    allocated. *)
Definition wf_store (d : StatusDict) (h : Heap) : Prop :=
  NoDup (dict_values d) /\ forall l, l ∈ dict_values d -> (l < length h)%nat.

(** What a sequence of transfers may do to the store: records keep their
    generation, consumption and frequency, and no balance crosses zero. *)
Definition transfers (h h' : Heap) : Prop :=
  length h' = length h /\
  forall l s s', h !! l = Some s -> h' !! l = Some s' ->
    generation s' = generation s /\ consumption s' = consumption s /\
    frequency s' = frequency s /\
    (0 <= balance s -> 0 <= balance s') /\ (balance s <= 0 -> balance s' <= 0).

(** Every record's balance is its generation minus its consumption. *)
Definition balance_consistent (s : RegionStatus) : Prop :=
  balance s = generation s - consumption s.

(** What a scenario may do to the store: no record is added or removed, and
    balances stay consistent. *)
Definition perturbs (h h' : Heap) : Prop :=
  length h' = length h /\
  (Forall balance_consistent h -> Forall balance_consistent h').

(** The loop rewrites frequencies only. *)
Definition same_but_frequency (h h' : Heap) : Prop :=
  length h' = length h /\
  forall l s s', h !! l = Some s -> h' !! l = Some s' ->
    generation s' = generation s /\ consumption s' = consumption s /\
    balance s' = balance s.

(** The record the [peak] loop leaves for a region whose two draws are
    [random n] and [random (S n)]. *)
Definition peak_record (rng : RandomSource) (n : nat) (s : RegionStatus)
    : RegionStatus :=
  let consumption' := consumption s * (1.1 + random rng n * 0.1) in
  mkRegionStatus (generation s) consumption' (generation s - consumption')
    (frequency s - (0.05 + random rng (S n) * 0.1)).

(** The record the [renewable_surplus] loop leaves for a chosen region. *)
Definition surplus_record (rng : RandomSource) (n : nat) (s : RegionStatus)
    : RegionStatus :=
  let generation' := generation s * (1.15 + random rng n * 0.15) in
  mkRegionStatus generation' (consumption s) (generation' - consumption s)
    (frequency s + (0.05 + random rng (S n) * 0.1)).

(** The record [outage] leaves for the region it has chosen. *)
Definition outage_record (rng : RandomSource) (s : RegionStatus)
    : RegionStatus :=
  let generation' := generation s * (0.6 + random rng 0 * 0.2) in
  mkRegionStatus generation' (consumption s) (generation' - consumption s)
    (frequency s - (0.2 + random rng 1 * 0.2)).

(** [m] is the greatest element of [l]. *)
Definition is_max (m : Z) (l : list Z) : Prop :=
  m ∈ l /\ forall x, x ∈ l -> (x <= m)%Z.

(** * Properties *)

(** ** Numbers *)

Lemma Qlt_bool_iff (a b : Q) : Qlt_bool a b = true <-> a < b.
Proof.
  unfold Qlt_bool. rewrite negb_true_iff, <- not_true_iff_false, Qle_bool_iff.
  split; [apply Qnot_le_lt | apply Qlt_not_le].
Qed.

Lemma Qlt_bool_false (a b : Q) : Qlt_bool a b = false <-> b <= a.
Proof.
  unfold Qlt_bool. rewrite negb_false_iff. apply Qle_bool_iff.
Qed.

Lemma Qle_bool_false (a b : Q) : Qle_bool a b = false <-> b < a.
Proof.
  rewrite <- not_true_iff_false, Qle_bool_iff.
  split; [apply Qnot_le_lt | apply Qlt_not_le].
Qed.

#[export] Instance Qlt_bool_proper : Proper (Qeq ==> Qeq ==> eq) Qlt_bool.
Proof.
  intros a a' Ha b b' Hb. unfold Qlt_bool. now rewrite Ha, Hb.
Qed.

Lemma py_min_le_l (a b : Q) : py_min a b <= a.
Proof.
  unfold py_min. destruct (Qlt_bool b a) eqn:E.
  - apply Qlt_bool_iff in E. lra.
  - lra.
Qed.

Lemma py_min_le_r (a b : Q) : py_min a b <= b.
Proof.
  unfold py_min. destruct (Qlt_bool b a) eqn:E.
  - lra.
  - apply Qlt_bool_false in E. lra.
Qed.

Lemma fold_left_Qplus (xs : list Q) (a : Q) :
  fold_left Qplus xs a == a + fold_left Qplus xs 0.
Proof.
  revert a. induction xs as [|x xs IH]; intros a; simpl.
  - lra.
  - rewrite (IH (a + x)), (IH (0 + x)). lra.
Qed.

Lemma py_sum_cons (x : Q) (xs : list Q) : py_sum (x :: xs) == x + py_sum xs.
Proof.
  unfold py_sum. simpl. rewrite fold_left_Qplus. lra.
Qed.

Lemma round_half_even_proper (a b : Q) :
  a == b -> round_half_even a = round_half_even b.
Proof.
  intros E. unfold round_half_even.
  rewrite (Qfloor_comp _ _ E).
  assert (E' : a - inject_Z (Qfloor b) == b - inject_Z (Qfloor b))
    by (rewrite E; reflexivity).
  now rewrite !E'.
Qed.

Lemma round2_proper (a b : Q) : a == b -> round2 a = round2 b.
Proof.
  intros E. unfold round2.
  rewrite (round_half_even_proper (a * 100) (b * 100)); [reflexivity|].
  now rewrite E.
Qed.

Lemma round_half_even_mono (a b : Q) :
  a <= b -> (round_half_even a <= round_half_even b)%Z.
Proof.
  intros Hab. unfold round_half_even.
  pose proof (Qfloor_le a) as La. pose proof (Qlt_floor a) as Ua.
  pose proof (Qfloor_le b) as Lb. pose proof (Qlt_floor b) as Ub.
  assert (Hfl : (Qfloor a <= Qfloor b)%Z) by now apply Qfloor_resp_le.
  rewrite inject_Z_plus in Ua, Ub.
  destruct (Z.eq_dec (Qfloor a) (Qfloor b)) as [Heq|Hne].
  - rewrite Heq in *.
    destruct (Qlt_bool (a - inject_Z (Qfloor b)) (1 # 2)) eqn:E1;
    destruct (Qlt_bool (b - inject_Z (Qfloor b)) (1 # 2)) eqn:E2;
    destruct (Qlt_bool (1 # 2) (a - inject_Z (Qfloor b))) eqn:E3;
    destruct (Qlt_bool (1 # 2) (b - inject_Z (Qfloor b))) eqn:E4;
    destruct (Z.even (Qfloor b));
    repeat match goal with
      | H : Qlt_bool _ _ = true |- _ => apply Qlt_bool_iff in H
      | H : Qlt_bool _ _ = false |- _ => apply Qlt_bool_false in H
      end; try lia; exfalso; lra.
  - assert (Hlt : (Qfloor a + 1 <= Qfloor b)%Z) by lia.
    destruct (Qlt_bool (a - inject_Z (Qfloor a)) (1 # 2));
    destruct (Qlt_bool (1 # 2) (a - inject_Z (Qfloor a)));
    destruct (Qlt_bool (b - inject_Z (Qfloor b)) (1 # 2));
    destruct (Qlt_bool (1 # 2) (b - inject_Z (Qfloor b)));
    destruct (Z.even (Qfloor a)); destruct (Z.even (Qfloor b)); lia.
Qed.

Lemma round2_mono (a b : Q) : a <= b -> round2 a <= round2 b.
Proof.
  intros Hab. unfold round2.
  assert (H : (round_half_even (a * 100) <= round_half_even (b * 100))%Z)
    by (apply round_half_even_mono; lra).
  rewrite Zle_Qle in H. unfold Qdiv.
  apply Qmult_le_compat_r; [exact H | discriminate].
Qed.

(** ** Dictionaries of references *)

Lemma dict_get_elem (d : StatusDict) (k : string) (l : loc) :
  dict_get d k = Some l -> (k, l) ∈ d.
Proof.
  induction d as [|[k' l'] d IH]; simpl; [discriminate|].
  destruct (String.eqb k' k) eqn:E.
  - apply String.eqb_eq in E. intros [= ->]. subst. left.
  - intros H. right. auto.
Qed.

Lemma dict_get_value (d : StatusDict) (k : string) (l : loc) :
  dict_get d k = Some l -> l ∈ dict_values d.
Proof.
  intros H. apply dict_get_elem in H. unfold dict_values.
  apply list_elem_of_fmap. exists (k, l). auto.
Qed.

Lemma dict_get_key (d : StatusDict) (k : string) :
  k ∈ dict_keys d -> exists l, dict_get d k = Some l.
Proof.
  induction d as [|[k' l'] d IH]; simpl.
  - intros H. inversion H.
  - intros H. destruct (String.eqb k' k) eqn:E; [eauto|].
    apply String.eqb_neq in E. inversion H; subst; [congruence|auto].
Qed.

Lemma dict_get_is_key (d : StatusDict) (k : string) (l : loc) :
  dict_get d k = Some l -> k ∈ dict_keys d.
Proof.
  intros H. apply dict_get_elem in H. unfold dict_keys.
  apply list_elem_of_fmap. exists (k, l). auto.
Qed.

(** Two names with the same reference are the same name. *)
Lemma dict_get_inj (d : StatusDict) (k1 k2 : string) (l : loc) :
  NoDup (dict_values d) ->
  dict_get d k1 = Some l -> dict_get d k2 = Some l -> k1 = k2.
Proof.
  induction d as [|[k' l'] d IH]; simpl; [discriminate|].
  intros ND H1 H2. apply NoDup_cons in ND as [Hnotin ND].
  destruct (String.eqb k' k1) eqn:E1; destruct (String.eqb k' k2) eqn:E2.
  - apply String.eqb_eq in E1, E2. congruence.
  - injection H1 as ->. apply dict_get_value in H2. contradiction.
  - injection H2 as ->. apply dict_get_value in H1. contradiction.
  - eauto.
Qed.

Lemma dict_set_values (d : StatusDict) (k : string) (l : loc) :
  forall x, x ∈ dict_values (dict_set d k l) -> x = l \/ x ∈ dict_values d.
Proof.
  induction d as [|[k' l'] d IH]; simpl; intros x Hx.
  - inversion Hx; subst; [auto|]. inversion H1.
  - destruct (String.eqb k' k); simpl in Hx.
    + inversion Hx; subst; [auto|]. right. now right.
    + inversion Hx; subst; [right; left|].
      destruct (IH _ H1); [auto|]. right. now right.
Qed.

Lemma dict_set_NoDup (d : StatusDict) (k : string) (l : loc) :
  NoDup (dict_values d) -> l ∉ dict_values d ->
  NoDup (dict_values (dict_set d k l)).
Proof.
  induction d as [|[k' l'] d IH]; simpl; intros ND Hl.
  - apply NoDup_singleton.
  - apply NoDup_cons in ND as [Hnotin ND].
    apply not_elem_of_cons in Hl as [Hne Hl].
    destruct (String.eqb k' k); simpl.
    + apply NoDup_cons. auto.
    + apply NoDup_cons. split; [|auto].
      intros Hin. apply dict_set_values in Hin as [->|Hin]; auto.
Qed.

(** ** Well-formed stores *)

Lemma build_status_wf (regional_data : Snapshot) (d : StatusDict) (h : Heap) :
  wf_store d h ->
  wf_store (fst (build_status regional_data d h))
    (snd (build_status regional_data d h)).
Proof.
  revert d h. induction regional_data as [|[region data] rest IH];
    intros d h [ND Hlt]; simpl; [split; auto|].
  apply IH. split.
  - apply dict_set_NoDup; [auto|]. intros Hin. apply Hlt in Hin. lia.
  - intros l Hl. rewrite length_app. simpl.
    apply dict_set_values in Hl as [->|Hl]; [lia|]. apply Hlt in Hl. lia.
Qed.

Lemma build_initial_status_wf (regional_data : Snapshot) (regions : list string) :
  wf_store (fst (build_initial_status regional_data regions))
    (snd (build_initial_status regional_data regions)).
Proof.
  unfold build_initial_status. apply build_status_wf. split.
  - apply NoDup_nil_2.
  - intros l Hl. inversion Hl.
Qed.

Lemma wf_store_length (d : StatusDict) (h h' : Heap) :
  length h' = length h -> wf_store d h -> wf_store d h'.
Proof.
  intros E [ND Hlt]. split; [auto|]. intros l Hl. rewrite E. auto.
Qed.

Lemma status_get_wf (d : StatusDict) (h : Heap) (k : string) :
  wf_store d h -> k ∈ dict_keys d ->
  exists l s, dict_get d k = Some l /\ h !! l = Some s /\ status_get d h k = Ok s.
Proof.
  intros [ND Hlt] Hk. destruct (dict_get_key _ _ Hk) as [l Hl].
  destruct (lookup_lt_is_Some_2 h l) as [s Hs].
  { apply Hlt. eapply dict_get_value; eauto. }
  exists l, s. unfold status_get. rewrite Hl, Hs. auto.
Qed.

Lemma status_get_inv (d : StatusDict) (h : Heap) (k : string) (s : RegionStatus) :
  status_get d h k = Ok s ->
  exists l, dict_get d k = Some l /\ h !! l = Some s.
Proof.
  unfold status_get. destruct (dict_get d k) as [l|]; [|discriminate].
  destruct (h !! l) as [s'|] eqn:E; [|discriminate].
  intros [= ->]. eauto.
Qed.

Lemma status_update_inv (d : StatusDict) (h h' : Heap) (k : string)
    (f : RegionStatus -> RegionStatus) :
  status_update d h k f = Ok h' ->
  exists l s, dict_get d k = Some l /\ h !! l = Some s /\ h' = <[l := f s]> h.
Proof.
  unfold status_update. destruct (dict_get d k) as [l|]; [|discriminate].
  destruct (h !! l) as [s|] eqn:E; [|discriminate].
  intros [= <-]. eauto.
Qed.

Lemma status_update_ok (d : StatusDict) (h : Heap) (k : string)
    (f : RegionStatus -> RegionStatus) (l : loc) (s : RegionStatus) :
  dict_get d k = Some l -> h !! l = Some s ->
  status_update d h k f = Ok (<[l := f s]> h).
Proof.
  intros Hl Hs. unfold status_update. now rewrite Hl, Hs.
Qed.

(** ** Sums of balances *)

Lemma sum_balance_cons (k : string) (l : loc) (d : StatusDict) (h : Heap)
    (s : RegionStatus) :
  h !! l = Some s ->
  sum_balance ((k, l) :: d) h == balance s + sum_balance d h.
Proof.
  intros Hs. unfold sum_balance. simpl. rewrite Hs. simpl.
  apply py_sum_cons.
Qed.

(** The sum reads the balances only. *)
Lemma sum_balance_ext (d : StatusDict) (h h' : Heap) :
  (forall l, balance <$> (h' !! l) = balance <$> (h !! l)) ->
  sum_balance d h' = sum_balance d h.
Proof.
  intros E. unfold sum_balance. f_equal.
  induction d as [|[k l] d IH]; simpl; [auto|].
  specialize (E l).
  destruct (h' !! l), (h !! l); simpl in *; try discriminate; congruence.
Qed.

Lemma sum_balance_insert_other (d : StatusDict) (h : Heap) (l : loc)
    (s : RegionStatus) :
  l ∉ dict_values d -> sum_balance d (<[l := s]> h) = sum_balance d h.
Proof.
  intros Hl. unfold sum_balance. do 2 f_equal.
  induction d as [|[k l'] d IH]; simpl in *; [auto|].
  apply not_elem_of_cons in Hl as [Hne Hl].
  rewrite list_lookup_insert_ne by auto. rewrite IH by auto. reflexivity.
Qed.

(** Replacing the record behind one reference moves the sum by the
    difference of the two balances. *)
Lemma sum_balance_insert (d : StatusDict) (h : Heap) (l : loc)
    (s s' : RegionStatus) :
  NoDup (dict_values d) -> l ∈ dict_values d -> h !! l = Some s ->
  sum_balance d (<[l := s']> h) == sum_balance d h + (balance s' - balance s).
Proof.
  intros ND Hl Hs. induction d as [|[k l0] d IH]; simpl in *.
  - inversion Hl.
  - apply NoDup_cons in ND as [Hnotin ND].
    destruct (decide (l = l0)) as [->|Hne].
    + rewrite (sum_balance_cons k l0 d _ s').
      2:{ apply list_lookup_insert_eq. eapply lookup_lt_Some; eauto. }
      rewrite (sum_balance_cons k l0 d h s) by auto.
      rewrite sum_balance_insert_other by auto. lra.
    + apply elem_of_cons in Hl as [?|Hl]; [contradiction|].
      destruct (h !! l0) as [s0|] eqn:E0.
      * rewrite (sum_balance_cons k l0 d _ s0)
          by (rewrite list_lookup_insert_ne; auto).
        rewrite (sum_balance_cons k l0 d h s0) by auto.
        rewrite IH by auto. lra.
      * unfold sum_balance in *. simpl.
        rewrite list_lookup_insert_ne by auto. rewrite E0. auto.
Qed.

(** ** The greedy transfers *)

Lemma transfers_refl (h : Heap) : transfers h h.
Proof.
  split; [auto|]. intros l s s' H1 H2.
  rewrite H1 in H2. injection H2 as <-. auto.
Qed.

Lemma transfers_trans (h1 h2 h3 : Heap) :
  transfers h1 h2 -> transfers h2 h3 -> transfers h1 h3.
Proof.
  intros [L12 T12] [L23 T23]. split; [congruence|].
  intros l s1 s3 H1 H3.
  destruct (lookup_lt_is_Some_2 h2 l) as [s2 H2].
  { rewrite L12. eapply lookup_lt_Some; eauto. }
  destruct (T12 _ _ _ H1 H2) as (G1 & C1 & F1 & P1 & N1).
  destruct (T23 _ _ _ H2 H3) as (G2 & C2 & F2 & P2 & N2).
  repeat split; try congruence; auto.
Qed.

Lemma transfers_lookup (h h' : Heap) (l : loc) (s : RegionStatus) :
  transfers h h' -> h !! l = Some s -> exists s', h' !! l = Some s'.
Proof.
  intros [L _] H. apply lookup_lt_is_Some_2. rewrite L.
  eapply lookup_lt_Some; eauto.
Qed.

(** One transfer of [t] between two distinct records. *)
Lemma transfer_step (h : Heap) (ls ld : loc) (ss sd : RegionStatus) (t : Q) :
  ls <> ld -> h !! ls = Some ss -> h !! ld = Some sd ->
  0 <= t -> t <= balance ss -> t <= - balance sd ->
  transfers h
    (<[ld := set_balance (balance sd + t) sd]>
       (<[ls := set_balance (balance ss - t) ss]> h)).
Proof.
  intros Hne Hs Hd Ht Hts Htd. split.
  - now rewrite !length_insert.
  - intros l s s' H1 H2.
    destruct (decide (l = ld)) as [->|Hld].
    + rewrite list_lookup_insert_eq in H2
        by (rewrite length_insert; eapply lookup_lt_Some; eauto).
      injection H2 as <-. rewrite Hd in H1. injection H1 as <-.
      simpl. repeat split; auto; intros; lra.
    + rewrite list_lookup_insert_ne in H2 by auto.
      destruct (decide (l = ls)) as [->|Hls].
      * rewrite list_lookup_insert_eq in H2 by (eapply lookup_lt_Some; eauto).
        injection H2 as <-. rewrite Hs in H1. injection H1 as <-.
        simpl. repeat split; auto; intros; lra.
      * rewrite list_lookup_insert_ne in H2 by auto.
        rewrite H1 in H2. injection H2 as <-. repeat split; auto.
Qed.

Lemma offer_surplus_spec (now : nat -> string) (d : StatusDict)
    (src : string) (ls : loc) :
  NoDup (dict_values d) -> dict_get d src = Some ls ->
  forall (deficits : list string) (avail : Q) (h : Heap)
         (acts : list BalancingAction) (ss : RegionStatus),
    h !! ls = Some ss -> balance ss == avail -> 0 < avail ->
    (forall r, r ∈ deficits ->
       exists l s, dict_get d r = Some l /\ h !! l = Some s /\ balance s <= 0) ->
    exists h' acts',
      offer_surplus now d src deficits avail h acts = Ok (h', acts') /\
      transfers h h' /\ sum_balance d h' == sum_balance d h.
Proof.
  intros ND Hsrc deficits.
  induction deficits as [|r rest IH]; intros avail h acts ss Hss Hbal Hpos Hdef.
  - exists h, acts. simpl. split; [auto|]. split; [apply transfers_refl|reflexivity].
  - assert (Hrest : forall r', r' ∈ rest ->
        exists l s, dict_get d r' = Some l /\ h !! l = Some s /\ balance s <= 0).
    { intros r' Hr'. apply Hdef. now right. }
    destruct (Hdef r) as (l & sd & Hl & Hsd & Hneg); [left|].
    simpl. unfold status_get at 1. rewrite Hl, Hsd. simpl.
    destruct (Qle_bool (Qabs (balance sd)) 0) eqn:Eneed; [eapply IH; eauto|].
    apply Qle_bool_false in Eneed.
    assert (Eabs : Qabs (balance sd) == - balance sd) by now apply Qabs_neg.
    set (t := py_min avail (Qabs (balance sd))).
    destruct (Qle_bool t 0) eqn:Et; [eapply IH; eauto|].
    apply Qle_bool_false in Et.
    assert (Ht1 : t <= avail) by apply py_min_le_l.
    assert (Ht2 : t <= Qabs (balance sd)) by apply py_min_le_r.
    assert (Hne : ls <> l).
    { intros ->. rewrite Hss in Hsd. injection Hsd as ->. lra. }
    rewrite (status_update_ok d h src _ ls ss) by auto. simpl.
    rewrite (status_update_ok d _ r _ l sd)
      by (auto; rewrite list_lookup_insert_ne; auto).
    simpl.
    set (h2 := <[l := set_balance (balance sd + t) sd]>
                 (<[ls := set_balance (balance ss - t) ss]> h)).
    assert (T : transfers h h2) by (apply transfer_step; auto; lra).
    assert (S : sum_balance d h2 == sum_balance d h).
    { pose proof (sum_balance_insert d h ls ss
                    (set_balance (balance ss - t) ss) ND
                    (dict_get_value _ _ _ Hsrc) Hss) as E1.
      assert (Hsd1 : <[ls := set_balance (balance ss - t) ss]> h !! l = Some sd)
        by (rewrite list_lookup_insert_ne; auto).
      pose proof (sum_balance_insert d _ l sd
                    (set_balance (balance sd + t) sd) ND
                    (dict_get_value _ _ _ Hl) Hsd1) as E2.
      fold h2 in E2. simpl in E1, E2. lra. }
    destruct (Qle_bool (avail - t) 0) eqn:Eleft.
    + eexists _, _. split; [reflexivity|]. split; auto.
    + apply Qle_bool_false in Eleft.
      destruct (IH (avail - t) h2
                  (acts ++ [mkBalancingAction src r (round2 t) (now (length acts))])
                  (set_balance (balance ss - t) ss))
        as (h' & acts' & Hrun & T' & S').
      * unfold h2. rewrite list_lookup_insert_ne by auto.
        apply list_lookup_insert_eq. eapply lookup_lt_Some; eauto.
      * simpl. lra.
      * lra.
      * intros r' Hr'. destruct (Hrest r' Hr') as (l' & s' & Hl' & Hs' & Hn').
        destruct (transfers_lookup _ _ _ _ T Hs') as [s2 Hs2].
        exists l', s2. repeat split; auto.
        destruct T as [_ T]. destruct (T _ _ _ Hs' Hs2) as (_ & _ & _ & _ & N).
        auto.
      * exists h', acts'. split; [exact Hrun|]. split.
        -- eapply transfers_trans; eauto.
        -- rewrite S'. exact S.
Qed.

Lemma transfer_loop_spec (now : nat -> string) (d : StatusDict) :
  NoDup (dict_values d) ->
  forall (surplus deficits : list string) (h : Heap)
         (acts : list BalancingAction),
    (forall r, r ∈ surplus ->
       exists l, dict_get d r = Some l /\ (l < length h)%nat) ->
    (forall r, r ∈ deficits ->
       exists l s, dict_get d r = Some l /\ h !! l = Some s /\ balance s <= 0) ->
    exists h' acts',
      transfer_loop now d surplus deficits h acts = Ok (h', acts') /\
      transfers h h' /\ sum_balance d h' == sum_balance d h.
Proof.
  intros ND surplus.
  induction surplus as [|src rest IH]; intros deficits h acts Hsur Hdef.
  - exists h, acts. simpl. split; [auto|]. split; [apply transfers_refl|reflexivity].
  - assert (Hrest : forall h', transfers h h' ->
        (forall r, r ∈ rest ->
           exists l, dict_get d r = Some l /\ (l < length h')%nat) /\
        (forall r, r ∈ deficits ->
           exists l s, dict_get d r = Some l /\ h' !! l = Some s /\
                       balance s <= 0)).
    { intros h' T. split.
      - intros r Hr. destruct (Hsur r) as (l & Hl & Hlt); [now right|].
        exists l. split; [auto|]. destruct T as [-> _]. auto.
      - intros r Hr. destruct (Hdef r Hr) as (l & s & Hl & Hs & Hn).
        destruct (transfers_lookup _ _ _ _ T Hs) as [s2 Hs2].
        exists l, s2. repeat split; auto.
        destruct T as [_ T]. destruct (T _ _ _ Hs Hs2) as (_ & _ & _ & _ & N).
        auto. }
    destruct (Hsur src) as (ls & Hls & Hlt); [left|].
    destruct (lookup_lt_is_Some_2 h ls Hlt) as [ss Hss].
    simpl. unfold status_get at 1. rewrite Hls, Hss. simpl.
    destruct (Qle_bool (balance ss) 0) eqn:Eav.
    + destruct (Hrest h (transfers_refl h)) as [H1 H2]. eapply IH; eauto.
    + apply Qle_bool_false in Eav.
      destruct (offer_surplus_spec now d src ls ND Hls deficits (balance ss)
                  h acts ss Hss ltac:(reflexivity) Eav Hdef)
        as (h1 & acts1 & Hrun & T1 & S1).
      rewrite Hrun. simpl.
      destruct (Hrest h1 T1) as [H1 H2].
      destruct (IH deficits h1 acts1 H1 H2) as (h' & acts' & Hrun' & T' & S').
      exists h', acts'. split; [exact Hrun'|]. split.
      * eapply transfers_trans; eauto.
      * rewrite S'. exact S1.
Qed.

(** ** Sorting and selecting regions *)

Lemma insert_desc_perm (x : string * Q) (l : list (string * Q)) :
  insert_desc x l ≡ₚ x :: l.
Proof.
  induction l as [|y l IH]; simpl; [reflexivity|].
  destruct (Qlt_bool (snd x) (snd y)); [|reflexivity].
  rewrite IH. apply Permutation_swap.
Qed.

Lemma sort_desc_perm (l : list (string * Q)) : sort_desc l ≡ₚ l.
Proof.
  induction l as [|x l IH]; simpl; [reflexivity|].
  rewrite insert_desc_perm. now rewrite IH.
Qed.

Lemma balance_keys_spec (d : StatusDict) (h : Heap) (keys : list string) :
  wf_store d h -> (forall k, k ∈ keys -> k ∈ dict_keys d) ->
  exists keyed, balance_keys d h keys = Ok keyed /\ map fst keyed = keys.
Proof.
  intros W. induction keys as [|k keys IH]; intros Hk; simpl.
  - exists []. auto.
  - destruct (status_get_wf d h k W) as (l & s & _ & _ & ->); [apply Hk; left|].
    destruct IH as (keyed & -> & E); [intros; apply Hk; now right|].
    simpl. eexists. split; [reflexivity|]. simpl. now rewrite E.
Qed.

Lemma sorted_regions_spec (d : StatusDict) (h : Heap) :
  wf_store d h ->
  exists sorted, sorted_regions d h = Ok sorted /\ sorted ≡ₚ dict_keys d.
Proof.
  intros W. unfold sorted_regions.
  destruct (balance_keys_spec d h (dict_keys d) W) as (keyed & -> & E); [auto|].
  simpl. eexists. split; [reflexivity|].
  rewrite <- E. apply Permutation_map, sort_desc_perm.
Qed.

Lemma select_regions_spec (test : Q -> bool) (d : StatusDict) (h : Heap)
    (keys : list string) :
  wf_store d h -> (forall k, k ∈ keys -> k ∈ dict_keys d) ->
  exists selected,
    select_regions test d h keys = Ok selected /\
    forall r, r ∈ selected ->
      exists l s, dict_get d r = Some l /\ h !! l = Some s /\
                  test (balance s) = true.
Proof.
  intros W. induction keys as [|k keys IH]; intros Hk; simpl.
  - exists []. split; [auto|]. intros r Hr. inversion Hr.
  - destruct (status_get_wf d h k W) as (l & s & Hl & Hs & ->); [apply Hk; left|].
    destruct IH as (sel & -> & Hsel); [intros; apply Hk; now right|].
    simpl. eexists. split; [reflexivity|].
    intros r Hr. destruct (test (balance s)) eqn:E; [|auto].
    apply elem_of_cons in Hr as [->|Hr]; eauto.
Qed.

(** The greedy pass never fails on a well-formed store; it keeps the sum of
    the balances and lets no balance cross zero. *)
Lemma rebalance_spec (now : nat -> string) (d : StatusDict) (h : Heap) :
  wf_store d h ->
  exists h' acts,
    rebalance now d h = Ok (h', acts) /\
    transfers h h' /\ sum_balance d h' == sum_balance d h.
Proof.
  intros W. unfold rebalance.
  destruct (sorted_regions_spec d h W) as (sorted & -> & P). simpl.
  assert (Hk : forall k, k ∈ sorted -> k ∈ dict_keys d)
    by (intros k Hk; now rewrite <- P).
  destruct (select_regions_spec (fun b => Qlt_bool 0 b) d h sorted W Hk)
    as (surplus & -> & Hsur). simpl.
  destruct (select_regions_spec (fun b => Qlt_bool b 0) d h sorted W Hk)
    as (deficit & -> & Hdef). simpl.
  destruct W as [ND Hlt].
  apply transfer_loop_spec; [auto| |].
  - intros r Hr. destruct (Hsur r Hr) as (l & s & Hl & Hs & _).
    exists l. split; [auto|]. eapply lookup_lt_Some; eauto.
  - intros r Hr. destruct (Hdef r Hr) as (l & s & Hl & Hs & Ht).
    exists l, s. repeat split; auto. apply Qlt_bool_iff in Ht. lra.
Qed.

(** ** Updates that leave the balances alone *)

Lemma status_update_length (d : StatusDict) (h h' : Heap) (k : string)
    (f : RegionStatus -> RegionStatus) :
  status_update d h k f = Ok h' -> length h' = length h.
Proof.
  intros H. apply status_update_inv in H as (l & s & _ & _ & ->).
  apply length_insert.
Qed.

(** A property of single records that an update of one record preserves. *)
Lemma status_update_Forall (P : RegionStatus -> Prop) (d : StatusDict)
    (h h' : Heap) (k : string) (f : RegionStatus -> RegionStatus) :
  (forall s, P s -> P (f s)) ->
  status_update d h k f = Ok h' -> Forall P h -> Forall P h'.
Proof.
  intros Hf H HP. apply status_update_inv in H as (l & s & _ & Hs & ->).
  rewrite Forall_lookup in HP. apply Forall_insert; [|eauto].
  now apply Forall_lookup.
Qed.

(** Three successive updates of the same record are one update. *)
Lemma status_update_thrice (d : StatusDict) (h h1 h2 h3 : Heap) (k : string)
    (f g e : RegionStatus -> RegionStatus) :
  status_update d h k f = Ok h1 ->
  status_update d h1 k g = Ok h2 ->
  status_update d h2 k e = Ok h3 ->
  status_update d h k (fun s => e (g (f s))) = Ok h3.
Proof.
  unfold status_update. destruct (dict_get d k) as [l|]; [|discriminate].
  destruct (h !! l) as [s|] eqn:Hs; [|discriminate].
  assert (Hlt : (l < length h)%nat) by (eapply lookup_lt_Some; eauto).
  intros [= <-]. rewrite list_lookup_insert_eq by auto.
  intros [= <-]. rewrite list_lookup_insert_eq by (now rewrite length_insert).
  intros [= <-]. now rewrite !list_insert_insert_eq.
Qed.

Lemma bind_Ok {A B : Type} (m : PyResult A) (k : A -> PyResult B) (b : B) :
  bind m k = Ok b -> exists a, m = Ok a /\ k a = Ok b.
Proof.
  destruct m as [a|e]; simpl; [eauto|discriminate].
Qed.

(** Splits a successful sequence of binds into its successful steps. *)
Ltac bind_inv H :=
  let a := fresh "a" in
  let E := fresh "E" in
  apply bind_Ok in H as (a & E & H).

Lemma build_status_consistent (regional_data : Snapshot) (d : StatusDict)
    (h : Heap) :
  Forall balance_consistent h ->
  Forall balance_consistent (snd (build_status regional_data d h)).
Proof.
  revert d h. induction regional_data as [|[region data] rest IH];
    intros d h H; simpl; [auto|].
  apply IH. apply Forall_app. split; [auto|].
  apply Forall_singleton. reflexivity.
Qed.

Lemma perturbs_refl (h : Heap) : perturbs h h.
Proof. split; auto. Qed.

Lemma perturbs_trans (h1 h2 h3 : Heap) :
  perturbs h1 h2 -> perturbs h2 h3 -> perturbs h1 h3.
Proof. intros [L1 C1] [L2 C2]. split; [congruence|auto]. Qed.

(** The three updates every scenario makes to a region: scale one of
    generation and consumption, recompute the balance, shift the frequency. *)
Lemma perturb_region (d : StatusDict) (h h1 h2 h3 : Heap) (k : string)
    (f : RegionStatus -> RegionStatus) (v : RegionStatus -> Q) :
  status_update d h k f = Ok h1 ->
  status_update d h1 k
    (fun s => set_balance (generation s - consumption s) s) = Ok h2 ->
  status_update d h2 k (fun s => set_frequency (v s) s) = Ok h3 ->
  perturbs h h3.
Proof.
  intros E1 E2 E3.
  pose proof (status_update_thrice _ _ _ _ _ _ _ _ _ E1 E2 E3) as E.
  split.
  - eapply status_update_length; eauto.
  - intros HC. eapply status_update_Forall; [|exact E|exact HC].
    intros s _. reflexivity.
Qed.

Lemma peak_loop_spec (rng : RandomSource) (d : StatusDict) (keys : list string) :
  forall (n : nat) (h h' : Heap),
    peak_loop rng d keys n h = Ok h' -> perturbs h h'.
Proof.
  induction keys as [|k keys IH]; intros n h h' H; simpl in H.
  - injection H as <-. apply perturbs_refl.
  - do 3 bind_inv H.
    eapply perturbs_trans; [|eapply IH; exact H].
    exact (perturb_region _ _ _ _ _ _ _ _ E E0 E1).
Qed.

Lemma surplus_loop_spec (rng : RandomSource) (d : StatusDict)
    (keys : list string) :
  forall (n : nat) (h h' : Heap),
    surplus_loop rng d keys n h = Ok h' -> perturbs h h'.
Proof.
  induction keys as [|k keys IH]; intros n h h' H; simpl in H.
  - injection H as <-. apply perturbs_refl.
  - do 3 bind_inv H.
    eapply perturbs_trans; [|eapply IH; exact H].
    exact (perturb_region _ _ _ _ _ _ _ _ E E0 E1).
Qed.

Lemma outage_spec (rng : RandomSource) (d : StatusDict) (h h' : Heap) :
  outage rng d h = Ok h' -> perturbs h h'.
Proof.
  unfold outage. intros H. do 3 bind_inv H.
  exact (perturb_region _ _ _ _ _ _ _ _ E0 E1 H).
Qed.

Lemma apply_scenario_spec (rng : RandomSource) (scenario : string)
    (d : StatusDict) (h h' : Heap) :
  apply_scenario rng scenario d h = Ok h' -> perturbs h h'.
Proof.
  unfold apply_scenario.
  destruct (String.eqb scenario "peak"); [apply peak_loop_spec|].
  destruct (String.eqb scenario "renewable_surplus").
  { intros H. bind_inv H. eapply surplus_loop_spec; eauto. }
  destruct (String.eqb scenario "outage"); [apply outage_spec|].
  intros [= <-]. apply perturbs_refl.
Qed.

(** The status the balancing starts from is well formed and consistent. *)
Lemma perturbed_status_spec (rng : RandomSource) (regional_data : Snapshot)
    (scenario : string) (regions : list string) (d : StatusDict) (h : Heap) :
  perturbed_status rng regional_data scenario regions = Ok (d, h) ->
  wf_store d h /\ Forall balance_consistent h.
Proof.
  unfold perturbed_status.
  pose proof (build_initial_status_wf regional_data regions) as W.
  assert (C : Forall balance_consistent
                (snd (build_initial_status regional_data regions)))
    by (apply build_status_consistent; constructor).
  destruct (build_initial_status regional_data regions) as [d0 h0].
  simpl in W, C. intros H. bind_inv H. injection H as <- <-.
  apply apply_scenario_spec in E as [L HC]. split; [|auto].
  eapply wf_store_length; eauto.
Qed.

(** ** The frequency loop *)

Lemma frequency_loop_spec (d1 d2 : StatusDict) (keys : list string) :
  forall (h h' : Heap),
    frequency_loop d1 d2 keys h = Ok h' -> same_but_frequency h h'.
Proof.
  induction keys as [|k keys IH]; intros h h' H; simpl in H.
  - injection H as <-. split; [auto|]. intros l s s' H1 H2.
    rewrite H1 in H2. injection H2 as <-. auto.
  - do 2 bind_inv H.
    destruct (Qeq_bool (consumption a0) 0); [discriminate|].
    bind_inv H. apply IH in H as [L2 S2].
    apply status_update_inv in E1 as (l0 & s0 & _ & Hs0 & ->).
    rewrite length_insert in L2. split; [auto|].
    intros l s s' H1 H2.
    destruct (lookup_lt_is_Some_2 (<[l0 := set_frequency
        (clamp_frequency (frequency a + (balance a - balance a0)
           / consumption a0 * 0.1)) s0]> h) l) as [sm Hm].
    { rewrite length_insert. eapply lookup_lt_Some; eauto. }
    destruct (S2 _ _ _ Hm H2) as (G & C & B).
    destruct (decide (l = l0)) as [->|Hne].
    + rewrite list_lookup_insert_eq in Hm by (eapply lookup_lt_Some; eauto).
      injection Hm as <-. rewrite Hs0 in H1. injection H1 as <-.
      simpl in *. auto.
    + rewrite list_lookup_insert_ne in Hm by auto.
      rewrite H1 in Hm. injection Hm as <-. auto.
Qed.

Lemma same_but_frequency_sum (d : StatusDict) (h h' : Heap) :
  same_but_frequency h h' -> sum_balance d h' = sum_balance d h.
Proof.
  intros [L S]. apply sum_balance_ext. intros l.
  destruct (h !! l) as [s|] eqn:Hs.
  - destruct (lookup_lt_is_Some_2 h' l) as [s' Hs'].
    { rewrite L. eapply lookup_lt_Some; eauto. }
    rewrite Hs'. simpl. f_equal. now apply (S l s s').
  - apply lookup_ge_None in Hs. rewrite <- L in Hs.
    apply lookup_ge_None in Hs. now rewrite Hs.
Qed.

(** ** The whole simulation *)

(** A successful run, stage by stage. *)
Lemma simulate_body_inv (rng : RandomSource) (now : nat -> string)
    (regional_data : Snapshot) (scenario : string) (regions : list string)
    (r : BalancingResult) :
  simulate_body rng now regional_data scenario regions = Ok r ->
  exists d h0 h1 acts h2,
    perturbed_status rng regional_data scenario regions = Ok (d, h0) /\
    rebalance now d h0 = Ok (h1, acts) /\
    frequency_loop d d (dict_keys d) h1 = Ok h2 /\
    r = mkBalancingResult scenario d d h2 acts
          (mkMetrics (round2 (sum_balance d h0)) (round2 (sum_balance d h2))
             (round2 (improvement (sum_balance d h0) (sum_balance d h2)))
             (length acts) (round2 (py_sum (map amount acts)))).
Proof.
  unfold simulate_body, dict_copy. intros H.
  bind_inv H. destruct a as [d h0]. simpl in H.
  bind_inv H. destruct a as [h1 acts]. simpl in H.
  bind_inv H. injection H as <-.
  exists d, h0, h1, acts, a. auto.
Qed.

Lemma simulate_load_balancing_inv (rng : RandomSource) (now : nat -> string)
    (regional_data : Snapshot) (scenario : string) (regions : list string)
    (r : BalancingResult) :
  simulate_load_balancing rng now regional_data scenario regions = Balanced r ->
  simulate_body rng now regional_data scenario regions = Ok r.
Proof.
  unfold simulate_load_balancing.
  destruct (simulate_body rng now regional_data scenario regions);
    [intros [= ->]; reflexivity | discriminate].
Qed.

Lemma improvement_same (t r : Q) : r == t -> improvement t r == 0.
Proof.
  intros E. unfold improvement.
  destruct (Qeq_bool t 0) eqn:E0; simpl; [reflexivity|].
  apply Qeq_bool_neq in E0.
  assert (Ha : ~ Qabs t == 0).
  { intros Ha. apply E0. destruct (Qlt_le_dec t 0) as [Hneg|Hpos].
    - rewrite Qabs_neg in Ha by lra. lra.
    - rewrite Qabs_pos in Ha by lra. exact Ha. }
  rewrite E. field. exact Ha.
Qed.

(** ** The initial status of a snapshot *)

Lemma dict_get_set (d : StatusDict) (k k' : string) (l : loc) :
  dict_get (dict_set d k l) k' =
  if String.eqb k k' then Some l else dict_get d k'.
Proof.
  induction d as [|[k0 l0] d IH]; simpl; [reflexivity|].
  destruct (String.eqb k0 k) eqn:E0; simpl.
  - apply String.eqb_eq in E0. subst k0.
    destruct (String.eqb k k'); reflexivity.
  - rewrite IH. destruct (String.eqb k0 k') eqn:E1; [|reflexivity].
    apply String.eqb_eq in E1. subst k0. now rewrite String.eqb_sym, E0.
Qed.

Lemma wf_store_extend (d : StatusDict) (h : Heap) (k : string)
    (s : RegionStatus) :
  wf_store d h -> wf_store (dict_set d k (length h)) (h ++ [s]).
Proof.
  intros [ND Hlt]. split.
  - apply dict_set_NoDup; [auto|]. intros Hin. apply Hlt in Hin. lia.
  - intros l Hl. rewrite length_app. simpl.
    apply dict_set_values in Hl as [->|Hl]; [lia|]. apply Hlt in Hl. lia.
Qed.

(** Records built earlier are not touched by the rest of the loop. *)
Lemma build_status_preserves (rest : Snapshot) :
  forall (d : StatusDict) (h : Heap) (k : string) (s : RegionStatus),
    k ∉ map fst rest -> status_get d h k = Ok s ->
    status_get (fst (build_status rest d h)) (snd (build_status rest d h)) k
    = Ok s.
Proof.
  induction rest as [|[region data] rest IH]; intros d h k s Hk Hget;
    simpl in *; [auto|].
  apply not_elem_of_cons in Hk as [Hne Hk].
  apply IH; [auto|].
  apply status_get_inv in Hget as (l & Hl & Hs).
  unfold status_get. rewrite dict_get_set.
  destruct (String.eqb region k) eqn:E;
    [apply String.eqb_eq in E; congruence|].
  rewrite Hl. rewrite lookup_app_l by (eapply lookup_lt_Some; eauto).
  now rewrite Hs.
Qed.

(** Every region of a snapshot gets the record derived from its data. *)
Lemma build_status_lookup (rest : Snapshot) :
  forall (d : StatusDict) (h : Heap) (k : string) (data : RegionData),
    NoDup (map fst rest) -> (k, data) ∈ rest ->
    status_get (fst (build_status rest d h)) (snd (build_status rest d h)) k
    = Ok (region_status_of data).
Proof.
  induction rest as [|[region data0] rest IH]; intros d h k data ND Hin;
    simpl in *.
  - inversion Hin.
  - apply NoDup_cons in ND as [Hnotin ND].
    apply elem_of_cons in Hin as [[= -> ->]|Hin]; [|auto].
    apply build_status_preserves; [auto|].
    unfold status_get. rewrite dict_get_set, String.eqb_refl.
    rewrite lookup_app_r by lia. now rewrite Nat.sub_diag.
Qed.

Lemma filter_regions_NoDup (regional_data : Snapshot) (regions : list string) :
  NoDup (map fst regional_data) ->
  NoDup (map fst (filter_regions regional_data regions)).
Proof.
  unfold filter_regions.
  induction regional_data as [|[k v] rest IH]; simpl; intros ND; [constructor|].
  apply NoDup_cons in ND as [Hnotin ND].
  rewrite filter_cons. destruct (decide _); simpl; [|auto].
  apply NoDup_cons. split; [|auto].
  intros Hin. apply Hnotin.
  apply list_elem_of_fmap in Hin as ([k' v'] & -> & Hin).
  apply list_elem_of_filter in Hin as [_ Hin].
  apply list_elem_of_fmap. exists (k', v'). auto.
Qed.

Lemma status_values_Forall (P : RegionStatus -> Prop) (d : StatusDict)
    (h : Heap) :
  Forall P h -> Forall P (status_values d h).
Proof.
  intros HP. induction d as [|[k l] d IH]; simpl; [constructor|].
  destruct (h !! l) as [s|] eqn:E; [|auto].
  constructor; [|auto]. rewrite Forall_lookup in HP. eauto.
Qed.

Lemma round2_zero : round2 0 == 0.
Proof. reflexivity. Qed.

(** * The load balancer: properties of the simulation *)

(** C2 (as the code has it): for the snapshot [A: 100/80], [B: 50/90] under
    [normal], the simulation makes exactly one transfer, of 20 from A to B,
    and ends with the balances A = 0 and B = -20; the initial and the
    remaining imbalance are both -20, so that [improvement_percentage] is 0. *)
Theorem two_region_example (rng : RandomSource) (now : nat -> string) :
  exists r a sA sB,
    simulate_load_balancing rng now example_snapshot "normal" [] = Balanced r /\
    balancing_actions r = [a] /\
    source a = "A"%string /\ target a = "B"%string /\ amount a == 20 /\
    reported balanced_status r "A" = Some sA /\ balance sA == 0 /\
    reported balanced_status r "B" = Some sB /\ balance sB == -20 /\
    initial_imbalance (metrics r) == -20 /\
    remaining_imbalance (metrics r) == -20 /\
    improvement_percentage (metrics r) == 0.
Proof.
  do 4 eexists. split; [vm_compute; reflexivity|].
  split; [reflexivity|]. repeat split; reflexivity.
Qed.

(** C2, as stated, fails: the run of the two-region example does not report
    an [improvement_percentage] of 50. *)
Lemma two_region_example_not_50 :
  ~ (exists r a sA sB,
       simulate_load_balancing no_randomness fixed_clock example_snapshot
         "normal" [] = Balanced r /\
       balancing_actions r = [a] /\
       source a = "A"%string /\ target a = "B"%string /\ amount a == 20 /\
       reported balanced_status r "A" = Some sA /\ balance sA == 0 /\
       reported balanced_status r "B" = Some sB /\ balance sB == -20 /\
       improvement_percentage (metrics r) == 50).
Proof.
  intros (r & a & sA & sB & Hrun & _ & _ & _ & _ & _ & _ & _ & _ & Himp).
  vm_compute in Hrun. injection Hrun as <-.
  vm_compute in Himp. discriminate.
Qed.

(** C3 (what the code does at the failing input): in the two-region example
    region A starts with frequency 50, consumption 80 and balance 20 and ends
    with balance 0, so the stated formula gives
    clamp(50 + (0 - 20)/80 * 0.1) = 49.975; the simulation reports 50,
    because the balance it subtracts is read from the record it has just
    updated. *)
Theorem frequency_ignores_balance_change (rng : RandomSource)
    (now : nat -> string) :
  exists r d h0 s0 s,
    simulate_load_balancing rng now example_snapshot "normal" [] = Balanced r /\
    perturbed_status rng example_snapshot "normal" [] = Ok (d, h0) /\
    status_get d h0 "A" = Ok s0 /\
    frequency s0 == 50 /\ balance s0 == 20 /\ consumption s0 == 80 /\
    reported balanced_status r "A" = Some s /\
    balance s == 0 /\
    clamp_frequency
      (frequency s0 + (balance s - balance s0) / consumption s0 * 0.1)
      == 49.975 /\
    frequency s == 50 /\
    ~ frequency s ==
      clamp_frequency
        (frequency s0 + (balance s - balance s0) / consumption s0 * 0.1).
Proof.
  do 5 eexists. split; [vm_compute; reflexivity|].
  split; [vm_compute; reflexivity|].
  split; [vm_compute; reflexivity|].
  repeat split; try reflexivity.
  vm_compute. discriminate.
Qed.

(** C4 (in exact arithmetic): for every snapshot, scenario and random
    source, the greedy pass runs to the end on the status the scenario stage
    produces, and the sum over the regions of generation minus consumption
    before the transfers equals the sum of the balances after them. *)
Theorem rebalancing_conserves_total_balance (rng : RandomSource)
    (now : nat -> string) (regional_data : Snapshot) (scenario : string)
    (regions : list string) (d : StatusDict) (h0 : Heap) :
  perturbed_status rng regional_data scenario regions = Ok (d, h0) ->
  exists h1 acts,
    rebalance now d h0 = Ok (h1, acts) /\
    py_sum (map (fun s => generation s - consumption s) (status_values d h0))
    == sum_balance d h1.
Proof.
  intros Hp. apply perturbed_status_spec in Hp as [W C].
  destruct (rebalance_spec now d h0 W) as (h1 & acts & Hrun & _ & S).
  exists h1, acts. split; [exact Hrun|]. rewrite S. unfold sum_balance.
  assert (E : map (fun s => generation s - consumption s) (status_values d h0)
              = map balance (status_values d h0)).
  { apply (status_values_Forall _ d) in C.
    induction C as [|s l Hs _ IH]; simpl; [reflexivity|].
    rewrite IH. unfold balance_consistent in Hs. now rewrite Hs. }
  rewrite E. reflexivity.
Qed.

(** The conservation of the total balance on the two-region example under
    [peak]. *)
Lemma rebalancing_conserves_total_balance_witness :
  exists d h0,
    perturbed_status no_randomness example_snapshot "peak" [] = Ok (d, h0) /\
    exists h1 acts,
      rebalance fixed_clock d h0 = Ok (h1, acts) /\
      py_sum (map (fun s => generation s - consumption s) (status_values d h0))
      == sum_balance d h1.
Proof.
  eexists _, _. split; [vm_compute; reflexivity|].
  apply (rebalancing_conserves_total_balance no_randomness fixed_clock
           example_snapshot "peak" []).
  vm_compute. reflexivity.
Defined.

(** C4, as stated, fails on floats: on the snapshot [A: 109.0/92.7],
    [B: 139.1/51.1], [C: 60.9/80.2] the pass moves 19.300000000000004 from B
    to C, which leaves B with 68.69999999999999, and the sum over the regions
    of generation minus consumption, 85.0, is not the sum of the balances
    after the pass, 84.99999999999999; with either summation Python's [==]
    between the two is false. *)
Lemma float_rebalancing_changes_total_balance :
  exists d h0 h1,
    Binary64.build_status Binary64.decimal_snapshot [] [] = (d, h0) /\
    Binary64.rebalance d h0 = Ok h1 /\
    forall sum,
      sum = Binary64.py_sum \/ sum = Binary64.py_sum_compensated ->
      let total_before :=
        sum (map (fun s => PrimFloat.sub (Binary64.generation s)
                             (Binary64.consumption s))
               (Binary64.status_values d h0)) in
      let total_after := Binary64.sum_balance sum d h1 in
      PrimFloat.eqb total_before Binary64.decimal_total_before = true /\
      PrimFloat.eqb total_after Binary64.decimal_total_after = true /\
      PrimFloat.eqb total_before total_after = false.
Proof.
  eexists _, _, _. split; [vm_compute; reflexivity|].
  split; [vm_compute; reflexivity|].
  intros sum [->| ->]; vm_compute; repeat split; reflexivity.
Qed.

(** C7: for every snapshot, scenario and random source, after the greedy
    pass no region that started with a positive balance has a negative one,
    and no region that started with a negative balance has a positive one. *)
Theorem rebalancing_keeps_signs (rng : RandomSource) (now : nat -> string)
    (regional_data : Snapshot) (scenario : string) (regions : list string)
    (d : StatusDict) (h0 : Heap) :
  perturbed_status rng regional_data scenario regions = Ok (d, h0) ->
  exists h1 acts,
    rebalance now d h0 = Ok (h1, acts) /\
    forall region s0,
      status_get d h0 region = Ok s0 ->
      exists s1,
        status_get d h1 region = Ok s1 /\
        (0 < balance s0 -> ~ balance s1 < 0) /\
        (balance s0 < 0 -> ~ 0 < balance s1).
Proof.
  intros Hp. apply perturbed_status_spec in Hp as [W _].
  destruct (rebalance_spec now d h0 W) as (h1 & acts & Hrun & T & _).
  exists h1, acts. split; [exact Hrun|].
  intros region s0 Hget. apply status_get_inv in Hget as (l & Hl & Hs0).
  destruct (transfers_lookup _ _ _ _ T Hs0) as [s1 Hs1].
  exists s1. split; [unfold status_get; now rewrite Hl, Hs1|].
  destruct T as [_ T]. destruct (T _ _ _ Hs0 Hs1) as (_ & _ & _ & P & N).
  split; intros Hsign Hbad.
  - assert (0 <= balance s1) by (apply P; lra). lra.
  - assert (balance s1 <= 0) by (apply N; lra). lra.
Qed.

(** The preservation of signs on the two-region example under [normal]:
    region A starts with a surplus of 20 and region B with a deficit of 40,
    and the pass makes one transfer, from A to B. *)
Lemma rebalancing_keeps_signs_witness :
  exists d h0 sA sB,
    perturbed_status no_randomness example_snapshot "normal" [] = Ok (d, h0) /\
    status_get d h0 "A" = Ok sA /\ 0 < balance sA /\
    status_get d h0 "B" = Ok sB /\ balance sB < 0 /\
    (exists h1 a, rebalance fixed_clock d h0 = Ok (h1, [a]) /\
                  source a = "A"%string /\ target a = "B"%string) /\
    exists h1 acts,
      rebalance fixed_clock d h0 = Ok (h1, acts) /\
      forall region s0,
        status_get d h0 region = Ok s0 ->
        exists s1,
          status_get d h1 region = Ok s1 /\
          (0 < balance s0 -> ~ balance s1 < 0) /\
          (balance s0 < 0 -> ~ 0 < balance s1).
Proof.
  eexists _, _, _, _. split; [vm_compute; reflexivity|].
  split; [vm_compute; reflexivity|]. split; [reflexivity|].
  split; [vm_compute; reflexivity|]. split; [reflexivity|].
  split; [eexists _, _; split; [vm_compute; reflexivity|split; reflexivity]|].
  apply (rebalancing_keeps_signs no_randomness fixed_clock example_snapshot
           "normal" []).
  vm_compute. reflexivity.
Defined.

(** C8: under [normal], and under any scenario name other than [peak],
    [renewable_surplus] and [outage], the scenario stage returns the store it
    was given, without an error, so that every selected region of the
    snapshot still has the generation, consumption, balance and frequency
    derived from its input data. *)
Theorem unperturbed_scenario_keeps_snapshot (rng : RandomSource)
    (regional_data : Snapshot) (scenario : string) (regions : list string) :
  scenario <> "peak"%string ->
  scenario <> "renewable_surplus"%string ->
  scenario <> "outage"%string ->
  NoDup (map fst regional_data) ->
  (forall d h, apply_scenario rng scenario d h = Ok h) /\
  perturbed_status rng regional_data scenario regions
  = Ok (build_initial_status regional_data regions) /\
  forall region data,
    (region, data) ∈ regional_data ->
    key_in region (effective_regions regional_data regions) = true ->
    exists d h,
      perturbed_status rng regional_data scenario regions = Ok (d, h) /\
      status_get d h region = Ok (region_status_of data).
Proof.
  intros H1 H2 H3 ND.
  assert (Hid : forall d h, apply_scenario rng scenario d h = Ok h).
  { intros d h. unfold apply_scenario.
    apply String.eqb_neq in H1, H2, H3. now rewrite H1, H2, H3. }
  assert (Hp : perturbed_status rng regional_data scenario regions
               = Ok (build_initial_status regional_data regions)).
  { unfold perturbed_status.
    destruct (build_initial_status regional_data regions) as [d h].
    now rewrite Hid. }
  split; [exact Hid|]. split; [exact Hp|].
  intros region data Hin Hsel. rewrite Hp.
  destruct (build_initial_status regional_data regions) as [d h] eqn:E.
  exists d, h. split; [reflexivity|].
  unfold build_initial_status in E.
  replace d with (fst (build_status (filter_regions regional_data
    (effective_regions regional_data regions)) [] [])) by now rewrite E.
  replace h with (snd (build_status (filter_regions regional_data
    (effective_regions regional_data regions)) [] [])) by now rewrite E.
  apply build_status_lookup; [now apply filter_regions_NoDup|].
  unfold filter_regions. apply list_elem_of_filter. split; [|exact Hin].
  simpl. now rewrite Hsel.
Qed.

(** The two-region example under [normal], restricted to region B. *)
Lemma unperturbed_scenario_keeps_snapshot_witness :
  (forall d h, apply_scenario no_randomness "normal" d h = Ok h) /\
  perturbed_status no_randomness example_snapshot "normal" ["B"%string]
  = Ok (build_initial_status example_snapshot ["B"%string]) /\
  forall region data,
    (region, data) ∈ example_snapshot ->
    key_in region (effective_regions example_snapshot ["B"%string]) = true ->
    exists d h,
      perturbed_status no_randomness example_snapshot "normal" ["B"%string]
      = Ok (d, h) /\
      status_get d h region = Ok (region_status_of data).
Proof.
  apply (unperturbed_scenario_keeps_snapshot no_randomness example_snapshot
           "normal" ["B"%string]).
  - discriminate.
  - discriminate.
  - discriminate.
  - apply (bool_decide_unpack _). vm_compute. exact I.
Defined.

(** C9: in every successful run the two status dictionaries of the result
    hold the same references, so a reader finds the same record under
    [initial_status] and under [balanced_status]; the balance reported as
    initial for a region is its balance after the transfers, and of the
    state before the transfers only the sum of the balances survives, in
    [metrics.initial_imbalance]. *)
Theorem initial_status_aliases_balanced_status (rng : RandomSource)
    (now : nat -> string) (regional_data : Snapshot) (scenario : string)
    (regions : list string) (r : BalancingResult) :
  simulate_load_balancing rng now regional_data scenario regions = Balanced r ->
  initial_status r = balanced_status r /\
  (forall region,
     reported initial_status r region = reported balanced_status r region) /\
  exists d h0 h1 acts,
    perturbed_status rng regional_data scenario regions = Ok (d, h0) /\
    rebalance now d h0 = Ok (h1, acts) /\
    initial_status r = d /\
    (forall region s1,
       status_get d h1 region = Ok s1 ->
       exists s,
         reported initial_status r region = Some s /\
         balance s = balance s1) /\
    initial_imbalance (metrics r) = round2 (sum_balance d h0).
Proof.
  intros Hrun. apply simulate_load_balancing_inv in Hrun.
  apply simulate_body_inv in Hrun
    as (d & h0 & h1 & acts & h2 & Hp & Hr & Hf & ->).
  simpl. split; [reflexivity|]. split; [reflexivity|].
  exists d, h0, h1, acts. repeat split; auto.
  intros region s1 Hget. apply status_get_inv in Hget as (l & Hl & Hs1).
  apply frequency_loop_spec in Hf as [L S].
  destruct (lookup_lt_is_Some_2 h2 l) as [s Hs].
  { rewrite L. eapply lookup_lt_Some; eauto. }
  exists s. unfold reported. simpl. rewrite Hl. split; [exact Hs|].
  now apply (S l s1 s).
Qed.

(** The aliasing on the two-region example under [normal]. *)
Lemma initial_status_aliases_balanced_status_witness :
  exists r,
    simulate_load_balancing no_randomness fixed_clock example_snapshot
      "normal" [] = Balanced r /\
    initial_status r = balanced_status r /\
    (forall region,
       reported initial_status r region = reported balanced_status r region) /\
    exists d h0 h1 acts,
      perturbed_status no_randomness example_snapshot "normal" [] = Ok (d, h0) /\
      rebalance fixed_clock d h0 = Ok (h1, acts) /\
      initial_status r = d /\
      (forall region s1,
         status_get d h1 region = Ok s1 ->
         exists s,
           reported initial_status r region = Some s /\
           balance s = balance s1) /\
      initial_imbalance (metrics r) = round2 (sum_balance d h0).
Proof.
  eexists. split; [vm_compute; reflexivity|].
  apply (initial_status_aliases_balanced_status no_randomness fixed_clock
           example_snapshot "normal" []).
  vm_compute. reflexivity.
Defined.

(** In the two-region example the balance of A before the transfers, 20, is
    not what the result reports as its initial balance, 0. *)
Example pre_rebalancing_state_is_lost :
  exists r d h0 s0 s,
    simulate_load_balancing no_randomness fixed_clock example_snapshot
      "normal" [] = Balanced r /\
    perturbed_status no_randomness example_snapshot "normal" [] = Ok (d, h0) /\
    status_get d h0 "A" = Ok s0 /\ balance s0 == 20 /\
    reported initial_status r "A" = Some s /\ balance s == 0.
Proof.
  do 5 eexists. split; [vm_compute; reflexivity|].
  split; [vm_compute; reflexivity|].
  split; [vm_compute; reflexivity|].
  repeat split; reflexivity.
Qed.

(** C10: in every successful run, with exact arithmetic, the reported
    remaining imbalance equals the reported initial imbalance and the
    reported improvement percentage is 0, whatever the scenario and the
    transfers. *)
Theorem improvement_is_always_zero (rng : RandomSource) (now : nat -> string)
    (regional_data : Snapshot) (scenario : string) (regions : list string)
    (r : BalancingResult) :
  simulate_load_balancing rng now regional_data scenario regions = Balanced r ->
  remaining_imbalance (metrics r) = initial_imbalance (metrics r) /\
  improvement_percentage (metrics r) == 0.
Proof.
  intros Hrun. apply simulate_load_balancing_inv in Hrun.
  apply simulate_body_inv in Hrun
    as (d & h0 & h1 & acts & h2 & Hp & Hr & Hf & ->).
  simpl. apply perturbed_status_spec in Hp as [W _].
  destruct (rebalance_spec now d h0 W) as (h1' & acts' & Hr' & _ & S).
  rewrite Hr in Hr'. injection Hr' as <- <-.
  apply frequency_loop_spec in Hf.
  assert (E : sum_balance d h2 == sum_balance d h0)
    by (rewrite (same_but_frequency_sum d h1 h2 Hf); exact S).
  split.
  - now apply round2_proper.
  - rewrite (round2_proper _ 0); [apply round2_zero|].
    now apply improvement_same.
Qed.

(** A run under [peak] that makes one transfer and still reports no
    improvement. *)
Lemma improvement_is_always_zero_witness :
  exists r,
    simulate_load_balancing no_randomness fixed_clock example_snapshot
      "peak" [] = Balanced r /\
    length (balancing_actions r) = 1%nat /\
    remaining_imbalance (metrics r) = initial_imbalance (metrics r) /\
    improvement_percentage (metrics r) == 0.
Proof.
  eexists. split; [vm_compute; reflexivity|].
  split; [reflexivity|].
  apply (improvement_is_always_zero no_randomness fixed_clock
           example_snapshot "peak" []).
  vm_compute. reflexivity.
Defined.

(** * The forecaster: feature preparation *)

Lemma fold_max_is_max (ds : list Z) :
  forall d, is_max (fold_left Z.max ds d) (d :: ds).
Proof.
  induction ds as [|x ds IH]; intros d; simpl.
  - split; [left|]. intros y Hy. apply list_elem_of_singleton in Hy. lia.
  - destruct (IH (Z.max d x)) as [Hin Hub]. split.
    + apply elem_of_cons in Hin as [E|Hin].
      * rewrite E. destruct (Z.max_spec d x) as [[_ ->]|[_ ->]];
          [right; left | left].
      * right. right. exact Hin.
    + intros y Hy.
      assert (Hm : (Z.max d x <= fold_left Z.max ds (Z.max d x))%Z)
        by (apply Hub; left).
      apply elem_of_cons in Hy as [->|Hy]; [lia|].
      apply elem_of_cons in Hy as [->|Hy]; [lia|].
      apply Hub. right. exact Hy.
Qed.

Lemma is_max_unique (m m' : Z) (l : list Z) :
  is_max m l -> is_max m' l -> m = m'.
Proof.
  intros [H1 U1] [H2 U2]. apply U2 in H1. apply U1 in H2. lia.
Qed.

Lemma strongly_sorted_lookup (l : list Z) :
  StronglySorted Z.le l ->
  forall i j a b, l !! i = Some a -> l !! j = Some b -> (i <= j)%nat ->
    (a <= b)%Z.
Proof.
  induction 1 as [|x l HS IH Hall]; intros i j a b Hi Hj Hij.
  - discriminate.
  - destruct i as [|i], j as [|j]; simpl in *.
    + injection Hi as <-. injection Hj as <-. lia.
    + injection Hi as <-. rewrite Forall_lookup in Hall. eauto.
    + lia.
    + eapply IH; eauto. lia.
Qed.

Lemma insert_by_date_perm (x : Z * HistoricalPoint)
    (l : list (Z * HistoricalPoint)) :
  insert_by_date x l ≡ₚ x :: l.
Proof.
  induction l as [|y l IH]; simpl; [reflexivity|].
  destruct (fst y <? fst x)%Z; [|reflexivity].
  rewrite IH. apply Permutation_swap.
Qed.

Lemma sort_by_date_perm (l : list (Z * HistoricalPoint)) :
  sort_by_date l ≡ₚ l.
Proof.
  induction l as [|x l IH]; simpl; [reflexivity|].
  rewrite insert_by_date_perm. now rewrite IH.
Qed.

Lemma insert_by_date_sorted (x : Z * HistoricalPoint)
    (l : list (Z * HistoricalPoint)) :
  StronglySorted Z.le (map fst l) ->
  StronglySorted Z.le (map fst (insert_by_date x l)).
Proof.
  induction l as [|y l IH]; simpl; intros HS.
  - repeat constructor.
  - apply StronglySorted_inv in HS as [HS Hall].
    destruct (fst y <? fst x)%Z eqn:E; simpl.
    + apply Z.ltb_lt in E. constructor; [auto|].
      rewrite (Permutation_map fst (insert_by_date_perm x l)). simpl.
      constructor; [lia|exact Hall].
    + apply Z.ltb_ge in E. constructor.
      * constructor; assumption.
      * constructor; [exact E|].
        eapply Forall_impl; [exact Hall|]. intros z Hz. simpl in Hz. lia.
Qed.

Lemma sort_by_date_sorted (l : list (Z * HistoricalPoint)) :
  StronglySorted Z.le (map fst (sort_by_date l)).
Proof.
  induction l as [|x l IH]; simpl; [constructor|].
  now apply insert_by_date_sorted.
Qed.

Lemma parse_dates_spec (history : list HistoricalPoint) :
  forall parsed, parse_dates history = Ok parsed ->
    map fst parsed = omap hist_date history /\
    length parsed = length history.
Proof.
  induction history as [|p rest IH]; simpl; intros parsed H.
  - injection H as <-. auto.
  - destruct (hist_date p) as [d|]; [|discriminate].
    bind_inv H. injection H as <-. destruct (IH _ E) as [E1 E2].
    split; simpl; f_equal; assumption.
Qed.

(** A row survives [dropna] exactly from the eighth position on. *)
Lemma feature_row_inv (sorted : list (Z * HistoricalPoint)) (i : nat)
    (r : FeatureRow) :
  feature_row sorted i = Some r ->
  (7 <= i)%nat /\ exists x, sorted !! i = Some x /\ row_date r = fst x.
Proof.
  unfold feature_row. destruct (sorted !! i) as [x|]; [simpl|discriminate].
  destruct (shift 1 _ i); [simpl|discriminate].
  destruct (shift 2 _ i); [simpl|discriminate].
  destruct (shift 7 _ i) eqn:E7; [simpl|discriminate].
  destruct (rolling_mean 3 _ i); [simpl|discriminate].
  destruct (rolling_mean 7 _ i); [simpl|discriminate].
  intros [= <-]. split; [|eauto].
  unfold shift in E7. destruct (i <? 7)%nat eqn:E; [discriminate|].
  apply Nat.ltb_ge in E. exact E.
Qed.

Lemma shift_Some (k : nat) (xs : list Q) (i : nat) :
  (k <= i)%nat -> (i < length xs)%nat -> is_Some (shift k xs i).
Proof.
  intros Hk Hi. unfold shift.
  destruct (i <? k)%nat eqn:E; [apply Nat.ltb_lt in E; lia|].
  apply lookup_lt_is_Some_2. lia.
Qed.

Lemma rolling_mean_Some (w : nat) (xs : list Q) (i : nat) :
  (w <= i + 1)%nat -> is_Some (rolling_mean w xs i).
Proof.
  intros Hw. unfold rolling_mean.
  destruct (i + 1 <? w)%nat eqn:E; [apply Nat.ltb_lt in E; lia|eauto].
Qed.

Lemma feature_row_Some (sorted : list (Z * HistoricalPoint)) (i : nat)
    (x : Z * HistoricalPoint) :
  (7 <= i)%nat -> sorted !! i = Some x ->
  exists r, feature_row sorted i = Some r /\ row_date r = fst x.
Proof.
  intros Hi Hx. unfold feature_row. rewrite Hx. simpl.
  assert (Hlen : (i < length (map (fun x => average_demand (snd x)) sorted))%nat)
    by (rewrite length_map; eapply lookup_lt_Some; eauto).
  destruct (shift_Some 1 _ i ltac:(lia) Hlen) as [? ->]. simpl.
  destruct (shift_Some 2 _ i ltac:(lia) Hlen) as [? ->]. simpl.
  destruct (shift_Some 7 _ i ltac:(lia) Hlen) as [? ->]. simpl.
  destruct (rolling_mean_Some 3 (map (fun x => average_demand (snd x)) sorted)
              i ltac:(lia)) as [? ->]. simpl.
  destruct (rolling_mean_Some 7 (map (fun x => average_demand (snd x)) sorted)
              i ltac:(lia)) as [? ->]. simpl.
  eexists. split; reflexivity.
Qed.

Lemma surviving_rows_elem (sorted : list (Z * HistoricalPoint))
    (r : FeatureRow) :
  r ∈ surviving_rows sorted <->
  exists i, feature_row sorted i = Some r.
Proof.
  unfold surviving_rows. rewrite list_elem_of_omap. split.
  - intros (i & _ & H). eauto.
  - intros (i & H). exists i. split; [|exact H].
    apply feature_row_inv in H as (_ & x & Hx & _).
    apply elem_of_seq. apply lookup_lt_Some in Hx. lia.
Qed.

(** Fewer than eight points leave no row. *)
Lemma surviving_rows_short (sorted : list (Z * HistoricalPoint)) :
  (length sorted < 8)%nat -> surviving_rows sorted = [].
Proof.
  intros Hlen. destruct (surviving_rows sorted) as [|r rest] eqn:E; [auto|].
  assert (Hr : r ∈ surviving_rows sorted) by (rewrite E; left).
  apply surviving_rows_elem in Hr as (i & Hi).
  apply feature_row_inv in Hi as (H7 & x & Hx & _).
  apply lookup_lt_Some in Hx. lia.
Qed.

(** The latest date among the surviving rows is the latest date of the
    whole history. *)
Lemma surviving_rows_max (sorted : list (Z * HistoricalPoint)) (m : Z) :
  StronglySorted Z.le (map fst sorted) ->
  is_max m (map row_date (surviving_rows sorted)) ->
  is_max m (map fst sorted).
Proof.
  intros HS [Hin Hub].
  apply list_elem_of_fmap in Hin as (r & -> & Hr).
  apply surviving_rows_elem in Hr as (i & Hi).
  pose proof Hi as Hi'.
  apply feature_row_inv in Hi' as (H7 & x & Hx & Ex). split.
  - rewrite Ex. apply list_elem_of_fmap. exists x. split; [auto|].
    eapply list_elem_of_lookup_2; eauto.
  - intros z Hz. apply list_elem_of_lookup in Hz as (j & Hj).
    rewrite list_lookup_fmap in Hj.
    destruct (sorted !! j) as [xj|] eqn:Hxj; [|discriminate].
    injection Hj as <-.
    destruct (le_lt_dec 7 j) as [Hge|Hlt].
    + destruct (feature_row_Some sorted j xj Hge Hxj) as (rj & Hrj & <-).
      apply Hub. apply list_elem_of_fmap. exists rj. split; [auto|].
      apply surviving_rows_elem. eauto.
    + rewrite Ex.
      apply (strongly_sorted_lookup _ HS j i); [| |lia].
      * rewrite list_lookup_fmap, Hxj. reflexivity.
      * rewrite list_lookup_fmap, Hx. reflexivity.
Qed.

Section ForecasterProperties.

Context `{L : Learner}.

Lemma prepare_features_inv (history : list HistoricalPoint) (p : Prepared) :
  _prepare_features history = Ok p ->
  exists parsed,
    parse_dates history = Ok parsed /\ history <> [] /\
    df p = surviving_rows (sort_by_date parsed) /\ df p <> [].
Proof.
  unfold _prepare_features. destruct history as [|h0 rest]; [discriminate|].
  intros H. bind_inv H. exists a. split; [exact E|]. split; [discriminate|].
  destruct (surviving_rows (sort_by_date a)) as [|r rs] eqn:Es; [discriminate|].
  injection H as <-. simpl. split; [reflexivity | discriminate].
Qed.

(** A history of fewer than eight points cannot be prepared. *)
Lemma prepare_features_short (history : list HistoricalPoint) :
  (length history < 8)%nat -> exists e, _prepare_features history = Raise e.
Proof.
  intros Hlen. destruct (_prepare_features history) as [p|e] eqn:E; [|eauto].
  exfalso. apply prepare_features_inv in E as (parsed & Hp & _ & Hdf & Hne).
  apply parse_dates_spec in Hp as [_ Hl].
  apply Hne. rewrite Hdf. apply surviving_rows_short.
  rewrite (Permutation_length (sort_by_date_perm parsed)). lia.
Qed.

(** The date the forecast starts from is the last date of the history. *)
Lemma prepare_features_max_date (history : list HistoricalPoint)
    (p : Prepared) :
  _prepare_features history = Ok p ->
  exists last_date,
    max_date (df p) = Some last_date /\
    last_historical_date history = Some last_date.
Proof.
  intros E. apply prepare_features_inv in E as (parsed & Hp & _ & Hdf & Hne).
  apply parse_dates_spec in Hp as [Hdates _].
  destruct (df p) as [|r rs] eqn:Edf; [contradiction|].
  exists (fold_left Z.max (map row_date rs) (row_date r)).
  split; [reflexivity|].
  pose proof (fold_max_is_max (map row_date rs) (row_date r)) as Hmax.
  change (row_date r :: map row_date rs) with (map row_date (r :: rs)) in Hmax.
  rewrite Hdf in Hmax.
  apply surviving_rows_max in Hmax; [|apply sort_by_date_sorted].
  assert (Hmax' : is_max (fold_left Z.max (map row_date rs) (row_date r))
                    (map fst parsed)).
  { destruct Hmax as [Hin Hub]. split.
    - now rewrite <- (Permutation_map fst (sort_by_date_perm parsed)).
    - intros x Hx. apply Hub.
      now rewrite (Permutation_map fst (sort_by_date_perm parsed)). }
  unfold last_historical_date. rewrite <- Hdates.
  destruct (map fst parsed) as [|d ds] eqn:Ep.
  - destruct Hmax' as [Hin _]. inversion Hin.
  - f_equal. eapply is_max_unique; [apply fold_max_is_max|exact Hmax'].
Qed.

(** The points the loop adds: one per step, dated by the step, with the
    bounds computed from the same prediction. *)
Lemma forecast_loop_spec (m : Model) (scaler : Scaler) (last_date : Z)
    (steps : list nat) :
  forall (last_row : FeatureRow) (results0 results : list ForecastPoint),
    forecast_loop m scaler last_date steps last_row results0 = Ok results ->
    exists added,
      results = results0 ++ added /\
      Forall2 (fun i pt => exists x,
                 pt = mkForecastPoint (last_date + Z.of_nat i)
                        (round2 (model_predict m x))
                        (round2 (model_predict m x * 0.95))
                        (round2 (model_predict m x * 1.05)))
        steps added.
Proof.
  induction steps as [|i rest IH]; intros last_row results0 results H.
  - simpl in H. injection H as <-. exists []. rewrite app_nil_r.
    split; [reflexivity | constructor].
  - simpl in H. bind_inv H. apply IH in H as (added & -> & Hall).
    eexists (_ :: added). split.
    + rewrite <- app_assoc. reflexivity.
    + constructor; [|exact Hall]. eexists. reflexivity.
Qed.

Lemma forecast_steps_inv (self : DemandForecaster)
    (history : list HistoricalPoint) (forecast_days : Z)
    (fc : list ForecastPoint) :
  forecast_steps self history forecast_days = Ok fc ->
  exists p last_date last_row m,
    _prepare_features history = Ok p /\
    max_date (df p) = Some last_date /\
    model self = Some m /\
    forecast_loop m (fitted_scaler p) last_date
      (seq 1 (Z.to_nat forecast_days)) last_row [] = Ok fc.
Proof.
  unfold forecast_steps. intros H. bind_inv H.
  destruct (max_date (df a)) as [last_date|] eqn:Em;
    destruct (last (df a)) as [last_row|] eqn:El;
    destruct (model self) as [m|] eqn:Eo; try discriminate.
  exists a, last_date, last_row, m. auto.
Qed.



(** C1 (what the code does at the failing input): a forecaster without a
    trained model, given a history of fewer than eight points, returns the
    failed training result as it is: the response has neither a [forecast]
    nor a [fallback_forecast]. *)
Theorem training_failure_returns_no_series (today : Z)
    (history : list HistoricalPoint) (forecast_days : Z) :
  (length history < 8)%nat ->
  exists error,
    forecast_demand today new_forecaster history forecast_days
    = (TrainingFailed error, new_forecaster) /\
    get_forecast (TrainingFailed error) = None /\
    get_fallback_forecast (TrainingFailed error) = None.
Proof.
  intros Hlen. destruct (prepare_features_short history Hlen) as [e He].
  exists (exn_message e). split; [|split; reflexivity].
  unfold forecast_demand, train_model. simpl. now rewrite He.
Qed.


End ForecasterProperties.



(** Five points of history and no trained model: no series is returned. *)
Lemma training_failure_returns_no_series_witness :
  exists error,
    forecast_demand (H := mean_learner) 20000 new_forecaster
      (take 5 example_history) 7
    = (TrainingFailed error, new_forecaster) /\
    get_forecast (TrainingFailed error) = None /\
    get_fallback_forecast (TrainingFailed error) = None.
Proof.
  apply (training_failure_returns_no_series (L := mean_learner) 20000
           (take 5 example_history) 7).
  vm_compute. lia.
Defined.

(** C6: the fallback forecast for seven days, which takes no history, has
    exactly seven points; the i-th, for i from 1 to 7, predicts
    320000 + 15000 * (((i mod 7) - 3) / 3), with a lower bound of 95% and an
    upper bound of 105% of that value. *)
Theorem fallback_forecast_week (today : Z) :
  length (_get_fallback_forecast today 7) = 7%nat /\
  Forall2
    (fun i pt =>
       date pt = (today + i)%Z /\
       predicted_demand pt == 320000 + 15000 * (inject_Z (i mod 7 - 3) / 3) /\
       lower_bound pt == predicted_demand pt * 0.95 /\
       upper_bound pt == predicted_demand pt * 1.05)
    [1; 2; 3; 4; 5; 6; 7]%Z
    (_get_fallback_forecast today 7).
Proof.
  split; [reflexivity|].
  unfold _get_fallback_forecast. simpl.
  repeat constructor; simpl; try lia; reflexivity.
Qed.

(** * The load balancer: further properties *)

(** ** Clamping *)

Lemma py_min_cases (a b : Q) :
  (b < a /\ py_min a b = b) \/ (a <= b /\ py_min a b = a).
Proof.
  unfold py_min. destruct (Qlt_bool b a) eqn:E.
  - left. apply Qlt_bool_iff in E. auto.
  - right. apply Qlt_bool_false in E. auto.
Qed.

Lemma py_max_cases (a b : Q) :
  (a < b /\ py_max a b = b) \/ (b <= a /\ py_max a b = a).
Proof.
  unfold py_max. destruct (Qlt_bool a b) eqn:E.
  - left. apply Qlt_bool_iff in E. auto.
  - right. apply Qlt_bool_false in E. auto.
Qed.

Lemma py_min_pos (a b : Q) : 0 < a -> 0 < b -> 0 < py_min a b.
Proof.
  intros Ha Hb. destruct (py_min_cases a b) as [[_ ->]|[_ ->]]; assumption.
Qed.

Lemma clamp_frequency_bounds (f : Q) :
  49.8 <= clamp_frequency f /\ clamp_frequency f <= 50.2.
Proof.
  unfold clamp_frequency.
  destruct (py_max_cases 49.8 f) as [[H1 ->]|[H1 ->]];
    destruct (py_min_cases 50.2 f) as [[H2 E2]|[H2 E2]];
    destruct (py_min_cases 50.2 49.8) as [[H3 E3]|[H3 E3]];
    rewrite ?E2, ?E3; lra.
Qed.

(** A frequency already in the band is left alone. *)
Lemma clamp_frequency_inside (f : Q) :
  49.8 <= f -> f <= 50.2 -> clamp_frequency f == f.
Proof.
  intros Hlo Hhi. unfold clamp_frequency.
  destruct (py_max_cases 49.8 f) as [[H1 ->]|[H1 ->]].
  - destruct (py_min_cases 50.2 f) as [[H2 ->]|[H2 ->]]; lra.
  - destruct (py_min_cases 50.2 49.8) as [[H2 ->]|[H2 ->]]; lra.
Qed.

Lemma clamp_frequency_proper (f g : Q) :
  f == g -> clamp_frequency f == clamp_frequency g.
Proof.
  intros E. unfold clamp_frequency.
  destruct (py_max_cases 49.8 f) as [[H1 ->]|[H1 ->]];
    destruct (py_max_cases 49.8 g) as [[H2 ->]|[H2 ->]];
    try (exfalso; lra); try reflexivity.
  destruct (py_min_cases 50.2 f) as [[H3 ->]|[H3 ->]];
    destruct (py_min_cases 50.2 g) as [[H4 ->]|[H4 ->]]; lra.
Qed.

Lemma clamp_frequency_idempotent (f : Q) :
  clamp_frequency (clamp_frequency f) == clamp_frequency f.
Proof.
  destruct (clamp_frequency_bounds f). now apply clamp_frequency_inside.
Qed.

(** ** What the frequency loop computes *)

(** Both dictionaries given to the loop hold the same references, so the
    balance change it computes is a balance minus itself: every region's
    frequency becomes its own clamped value, whatever was transferred. *)
Lemma frequency_loop_clamps (d : StatusDict) (keys : list string) :
  forall (h h' : Heap),
    frequency_loop d d keys h = Ok h' ->
    (forall l s s', h !! l = Some s -> h' !! l = Some s' ->
       frequency s' == frequency s \/
       frequency s' == clamp_frequency (frequency s)) /\
    (forall k l s s', k ∈ keys -> dict_get d k = Some l ->
       h !! l = Some s -> h' !! l = Some s' ->
       frequency s' == clamp_frequency (frequency s)).
Proof.
  induction keys as [|k keys IH]; intros h h' H; simpl in H.
  - injection H as <-. split.
    + intros l s s' H1 H2. rewrite H1 in H2. injection H2 as <-.
      left. reflexivity.
    + intros k l s s' Hk. inversion Hk.
  - do 2 bind_inv H. rewrite E in E0. injection E0 as <-.
    destruct (Qeq_bool (consumption a) 0) eqn:Ec; [discriminate|].
    apply bind_Ok in H as (h1 & Eu & H). destruct (IH _ _ H) as [P1 P2].
    apply status_get_inv in E as (l0 & Hl0 & Ha).
    apply status_update_inv in Eu as (l1 & s1 & Hl1 & Hs1 & ->).
    rewrite Hl0 in Hl1. injection Hl1 as <-.
    rewrite Ha in Hs1. injection Hs1 as <-.
    set (v := clamp_frequency
                (frequency a + (balance a - balance a) / consumption a * 0.1))
      in *.
    assert (Ev : v == clamp_frequency (frequency a)).
    { apply clamp_frequency_proper. unfold Qdiv. ring. }
    assert (Hl0' : forall s s', h !! l0 = Some s -> h' !! l0 = Some s' ->
              frequency s' == clamp_frequency (frequency s)).
    { intros s s' H1 H2. rewrite Ha in H1. injection H1 as <-.
      assert (Hm : <[l0 := set_frequency v a]> h !! l0
                   = Some (set_frequency v a))
        by (apply list_lookup_insert_eq; eapply lookup_lt_Some; eauto).
      destruct (P1 _ _ _ Hm H2) as [P|P]; simpl in P; rewrite P.
      - exact Ev.
      - rewrite (clamp_frequency_proper _ _ Ev).
        apply clamp_frequency_idempotent. }
    split.
    + intros l s s' H1 H2. destruct (decide (l = l0)) as [->|Hne].
      * right. now apply Hl0'.
      * apply (P1 l); [|exact H2].
        rewrite list_lookup_insert_ne by auto. exact H1.
    + intros k' l s s' Hk Hl H1 H2. destruct (decide (l = l0)) as [->|Hne].
      * now apply Hl0'.
      * apply elem_of_cons in Hk as [->|Hk]; [congruence|].
        apply (P2 k' l); auto.
        rewrite list_lookup_insert_ne by auto. exact H1.
Qed.

Lemma same_but_frequency_get (d : StatusDict) (h h' : Heap) (k : string)
    (s : RegionStatus) :
  same_but_frequency h h' -> status_get d h k = Ok s ->
  exists l s',
    dict_get d k = Some l /\ h !! l = Some s /\ h' !! l = Some s' /\
    status_get d h' k = Ok s' /\
    generation s' = generation s /\ consumption s' = consumption s /\
    balance s' = balance s.
Proof.
  intros [L S] Hget. apply status_get_inv in Hget as (l & Hl & Hs).
  destruct (lookup_lt_is_Some_2 h' l) as [s' Hs'].
  { rewrite L. eapply lookup_lt_Some; eauto. }
  exists l, s'. unfold status_get. rewrite Hl, Hs'.
  destruct (S _ _ _ Hs Hs') as (G & C & B). repeat split; auto.
Qed.

Lemma transfers_get (d : StatusDict) (h h' : Heap) (k : string)
    (s : RegionStatus) :
  transfers h h' -> status_get d h k = Ok s ->
  exists l s',
    dict_get d k = Some l /\ h !! l = Some s /\ h' !! l = Some s' /\
    status_get d h' k = Ok s' /\
    generation s' = generation s /\ consumption s' = consumption s /\
    frequency s' = frequency s /\
    (0 <= balance s -> 0 <= balance s') /\ (balance s <= 0 -> balance s' <= 0).
Proof.
  intros T Hget. apply status_get_inv in Hget as (l & Hl & Hs).
  destruct (transfers_lookup _ _ _ _ T Hs) as [s' Hs'].
  exists l, s'. unfold status_get. rewrite Hl, Hs'.
  destruct T as [_ T]. destruct (T _ _ _ Hs Hs') as (G & C & F & P & N).
  repeat split; auto.
Qed.

(** The loop fails exactly on a region without consumption. *)
Lemma frequency_loop_total (d : StatusDict) (keys : list string) :
  forall (h : Heap),
    wf_store d h -> (forall k, k ∈ keys -> k ∈ dict_keys d) ->
    (forall k s, k ∈ keys -> status_get d h k = Ok s -> ~ consumption s == 0) ->
    exists h', frequency_loop d d keys h = Ok h'.
Proof.
  induction keys as [|k keys IH]; intros h W Hk Hc; simpl; [eauto|].
  destruct (status_get_wf d h k W) as (l & s & Hl & Hs & Hget);
    [apply Hk; left|].
  rewrite Hget. simpl.
  destruct (Qeq_bool (consumption s) 0) eqn:Ec.
  { exfalso. apply Qeq_bool_iff in Ec. eapply Hc; eauto. left. }
  rewrite (status_update_ok d h k _ l s Hl Hs). simpl.
  apply IH.
  - eapply wf_store_length; [|exact W]. apply length_insert.
  - intros k' Hk'. apply Hk. now right.
  - intros k' s' Hk' Hget'.
    apply status_get_inv in Hget' as (l' & Hl' & Hs').
    destruct (decide (l' = l)) as [->|Hne].
    + rewrite list_lookup_insert_eq in Hs' by (eapply lookup_lt_Some; eauto).
      injection Hs' as <-. simpl. eapply Hc; [left|exact Hget].
    + rewrite list_lookup_insert_ne in Hs' by auto.
      apply (Hc k'); [now right|]. unfold status_get. now rewrite Hl', Hs'.
Qed.

Lemma frequency_loop_fails (d : StatusDict) (keys : list string) :
  forall (h : Heap) (k : string) (s : RegionStatus),
    k ∈ keys -> status_get d h k = Ok s -> consumption s == 0 ->
    exists e, frequency_loop d d keys h = Raise e.
Proof.
  induction keys as [|k0 keys IH]; intros h k s Hk Hget Hc.
  - inversion Hk.
  - simpl. destruct (status_get d h k0) as [s0|e] eqn:E0; simpl; [|eauto].
    destruct (Qeq_bool (consumption s0) 0) eqn:Ec; [eauto|].
    destruct (status_update d h k0 _) as [h1|e] eqn:E1; simpl; [|eauto].
    apply elem_of_cons in Hk as [->|Hk].
    + rewrite Hget in E0. injection E0 as <-.
      apply Qeq_bool_neq in Ec. contradiction.
    + assert (S1 : same_but_frequency h h1).
      { apply (frequency_loop_spec d d [k0]). simpl. rewrite E0. simpl.
        rewrite Ec. unfold clamp_frequency in *. rewrite E1. reflexivity. }
      destruct (same_but_frequency_get d h h1 k s S1 Hget)
        as (l & s' & _ & _ & _ & Hget' & _ & C & _).
      apply (IH h1 k s'); auto. now rewrite C.
Qed.

(** ** What a successful run reports for a region *)

(** X1: in every successful run each region is reported with the generation
    and the consumption it has after the scenario stage, and with that
    stage's frequency clamped to the band from 49.8 to 50.2; the power
    transferred to or from the region does not enter its frequency. *)
Theorem reported_frequency_is_clamped_input (rng : RandomSource)
    (now : nat -> string) (regional_data : Snapshot) (scenario : string)
    (regions : list string) (r : BalancingResult) :
  simulate_load_balancing rng now regional_data scenario regions = Balanced r ->
  exists d h0,
    perturbed_status rng regional_data scenario regions = Ok (d, h0) /\
    forall region s0,
      status_get d h0 region = Ok s0 ->
      exists s,
        reported balanced_status r region = Some s /\
        generation s = generation s0 /\ consumption s = consumption s0 /\
        frequency s == clamp_frequency (frequency s0) /\
        49.8 <= frequency s /\ frequency s <= 50.2.
Proof.
  intros Hrun. apply simulate_load_balancing_inv in Hrun.
  apply simulate_body_inv in Hrun
    as (d & h0 & h1 & acts & h2 & Hp & Hr & Hf & ->).
  exists d, h0. split; [exact Hp|]. intros region s0 Hget.
  apply perturbed_status_spec in Hp as [W _].
  destruct (rebalance_spec now d h0 W) as (h1' & acts' & Hr' & T & _).
  rewrite Hr in Hr'. injection Hr' as <- <-.
  destruct (transfers_get d h0 h1 region s0 T Hget)
    as (l & s1 & Hl & Hs0 & Hs1 & Hget1 & G1 & C1 & F1 & _).
  pose proof (frequency_loop_spec _ _ _ _ _ Hf) as S.
  destruct (same_but_frequency_get d h1 h2 region s1 S Hget1)
    as (l' & s2 & Hl' & _ & Hs2 & _ & G2 & C2 & _).
  rewrite Hl in Hl'. injection Hl' as <-.
  exists s2. unfold reported. simpl. rewrite Hl.
  split; [exact Hs2|]. split; [congruence|]. split; [congruence|].
  destruct (frequency_loop_clamps _ _ _ _ Hf) as [_ P].
  assert (E : frequency s2 == clamp_frequency (frequency s0)).
  { rewrite <- F1. apply (P region l); auto. eapply dict_get_is_key; eauto. }
  split; [exact E|]. rewrite E. apply clamp_frequency_bounds.
Qed.

(** The two-region example under [normal]: 20 are transferred from A to B,
    and both regions are still reported with the frequency 50 they started
    with. *)
Lemma reported_frequency_is_clamped_input_witness :
  exists r a,
    simulate_load_balancing no_randomness fixed_clock example_snapshot
      "normal" [] = Balanced r /\
    balancing_actions r = [a] /\
    source a = "A"%string /\ target a = "B"%string /\ amount a == 20 /\
    exists d h0,
      perturbed_status no_randomness example_snapshot "normal" []
      = Ok (d, h0) /\
      forall region s0,
        status_get d h0 region = Ok s0 ->
        exists s,
          reported balanced_status r region = Some s /\
          generation s = generation s0 /\ consumption s = consumption s0 /\
          frequency s == clamp_frequency (frequency s0) /\
          49.8 <= frequency s /\ frequency s <= 50.2.
Proof.
  eexists _, _. split; [vm_compute; reflexivity|].
  split; [reflexivity|]. split; [reflexivity|]. split; [reflexivity|].
  split; [reflexivity|].
  apply (reported_frequency_is_clamped_input no_randomness fixed_clock
           example_snapshot "normal" []).
  vm_compute. reflexivity.
Defined.

(** X2: once the scenario stage has produced a status, the simulation
    succeeds exactly when no region of that status has a consumption of
    zero; with such a region the frequency update divides by zero and the
    whole call returns the error result. *)
Theorem simulation_succeeds_iff_consumption_nonzero (rng : RandomSource)
    (now : nat -> string) (regional_data : Snapshot) (scenario : string)
    (regions : list string) (d : StatusDict) (h0 : Heap) :
  perturbed_status rng regional_data scenario regions = Ok (d, h0) ->
  ((exists r,
      simulate_load_balancing rng now regional_data scenario regions
      = Balanced r) <->
   (forall region s0,
      status_get d h0 region = Ok s0 -> ~ consumption s0 == 0)) /\
  ((exists region s0,
      status_get d h0 region = Ok s0 /\ consumption s0 == 0) ->
   exists msg,
     simulate_load_balancing rng now regional_data scenario regions
     = SimulationError msg scenario
         (effective_regions regional_data regions)).
Proof.
  intros Hp. pose proof (perturbed_status_spec _ _ _ _ _ _ Hp) as [W _].
  destruct (rebalance_spec now d h0 W) as (h1 & acts & Hr & T & _).
  assert (W1 : wf_store d h1)
    by (eapply wf_store_length; [apply T|exact W]).
  assert (Hfail : forall region s0,
            status_get d h0 region = Ok s0 -> consumption s0 == 0 ->
            exists e, simulate_body rng now regional_data scenario regions
                      = Raise e).
  { intros region s0 Hget Hc.
    destruct (transfers_get d h0 h1 region s0 T Hget)
      as (l & s1 & Hl & _ & _ & Hget1 & _ & C1 & _).
    destruct (frequency_loop_fails d (dict_keys d) h1 region s1) as [e He].
    - eapply dict_get_is_key; eauto.
    - exact Hget1.
    - now rewrite C1.
    - exists e. unfold simulate_body, dict_copy. rewrite Hp. simpl.
      rewrite Hr. simpl. now rewrite He. }
  split; [split|].
  - intros [r Hrun] region s0 Hget Hc.
    apply simulate_load_balancing_inv in Hrun.
    destruct (Hfail region s0 Hget Hc) as [e He]. congruence.
  - intros Hc.
    destruct (frequency_loop_total d (dict_keys d) h1 W1) as [h2 Hf]; [auto| |].
    + intros k s1 _ Hget1.
      apply status_get_inv in Hget1 as (l & Hl & Hs1).
      destruct (lookup_lt_is_Some_2 h0 l) as [s0 Hs0].
      { destruct T as [<- _]. eapply lookup_lt_Some; eauto. }
      destruct T as [_ T]. destruct (T _ _ _ Hs0 Hs1) as (_ & -> & _).
      apply (Hc k). unfold status_get. now rewrite Hl, Hs0.
    + eexists. unfold simulate_load_balancing, simulate_body, dict_copy.
      rewrite Hp. simpl. rewrite Hr. simpl. rewrite Hf. simpl. reflexivity.
  - intros (region & s0 & Hget & Hc).
    destruct (Hfail region s0 Hget Hc) as [e He].
    exists (exn_message e). unfold simulate_load_balancing. now rewrite He.
Qed.

(** A snapshot whose second region consumes nothing. *)
Lemma simulation_succeeds_iff_consumption_nonzero_witness :
  exists msg,
    simulate_load_balancing no_randomness fixed_clock
      [("A"%string, mkRegionData (Some 100) (Some 80) None);
       ("B"%string, mkRegionData (Some 50) None None)] "normal" []
    = SimulationError msg "normal" ["A"%string; "B"%string].
Proof.
  refine (proj2 (simulation_succeeds_iff_consumption_nonzero no_randomness
            fixed_clock
            [("A"%string, mkRegionData (Some 100) (Some 80) None);
             ("B"%string, mkRegionData (Some 50) None None)] "normal" []
            _ _ _) _).
  - vm_compute. reflexivity.
  - exists "B"%string. eexists. split; [vm_compute; reflexivity|reflexivity].
Defined.

(** ** The greedy pass exhausts one side *)

(** One surplus region is offered until it has nothing left or no region of
    the list needs anything. *)
Lemma offer_surplus_exhausts (now : nat -> string) (d : StatusDict)
    (src : string) (ls : loc) :
  NoDup (dict_values d) -> dict_get d src = Some ls ->
  forall (deficits : list string) (avail : Q) (h : Heap)
         (acts : list BalancingAction) (ss : RegionStatus)
         (h' : Heap) (acts' : list BalancingAction),
    h !! ls = Some ss -> balance ss == avail -> 0 < avail ->
    (forall r, r ∈ deficits ->
       exists l s, dict_get d r = Some l /\ h !! l = Some s /\ balance s <= 0) ->
    offer_surplus now d src deficits avail h acts = Ok (h', acts') ->
    exists ss',
      h' !! ls = Some ss' /\
      (balance ss' <= 0 \/
       forall r, r ∈ deficits ->
         exists l s', dict_get d r = Some l /\ h' !! l = Some s' /\
                      0 <= balance s').
Proof.
  intros ND Hsrc deficits.
  induction deficits as [|r rest IH];
    intros avail h acts ss h' acts' Hss Hbal Hpos Hdef Hrun.
  - simpl in Hrun. injection Hrun as <- <-. exists ss. split; [auto|].
    right. intros r Hr. inversion Hr.
  - assert (Hrest : forall r', r' ∈ rest ->
        exists l s, dict_get d r' = Some l /\ h !! l = Some s /\ balance s <= 0).
    { intros r' Hr'. apply Hdef. now right. }
    destruct (Hdef r) as (l & sd & Hl & Hsd & Hneg); [left|].
    simpl in Hrun. unfold status_get at 1 in Hrun.
    rewrite Hl, Hsd in Hrun. simpl in Hrun.
    destruct (Qle_bool (Qabs (balance sd)) 0) eqn:Eneed.
    { (* nothing needed here *)
      apply Qle_bool_iff in Eneed.
      assert (Hzero : 0 <= balance sd).
      { rewrite Qabs_neg in Eneed by exact Hneg. lra. }
      destruct (offer_surplus_spec now d src ls ND Hsrc rest avail h acts ss
                  Hss Hbal Hpos Hrest) as (h1 & acts1 & Hrun1 & T & _).
      rewrite Hrun in Hrun1. injection Hrun1 as <- <-.
      destruct (IH _ _ _ _ _ _ Hss Hbal Hpos Hrest Hrun) as (ss' & Hss' & Hex).
      exists ss'. split; [exact Hss'|]. destruct Hex as [Hex|Hex]; [auto|].
      right. intros r' Hr'. apply elem_of_cons in Hr' as [->|Hr']; [|auto].
      destruct (transfers_lookup _ _ _ _ T Hsd) as [sd' Hsd'].
      exists l, sd'. repeat split; auto.
      destruct T as [_ T]. destruct (T _ _ _ Hsd Hsd') as (_ & _ & _ & P & _).
      auto. }
    apply Qle_bool_false in Eneed.
    assert (Eabs : Qabs (balance sd) == - balance sd) by now apply Qabs_neg.
    set (t := py_min avail (Qabs (balance sd))) in *.
    assert (Htpos : 0 < t) by (apply py_min_pos; auto).
    destruct (Qle_bool t 0) eqn:Et; [apply Qle_bool_iff in Et; lra|].
    assert (Ht1 : t <= avail) by apply py_min_le_l.
    assert (Ht2 : t <= Qabs (balance sd)) by apply py_min_le_r.
    assert (Hne : ls <> l).
    { intros ->. rewrite Hss in Hsd. injection Hsd as ->. lra. }
    rewrite (status_update_ok d h src _ ls ss) in Hrun by auto.
    simpl in Hrun.
    rewrite (status_update_ok d _ r _ l sd) in Hrun
      by (auto; rewrite list_lookup_insert_ne; auto).
    simpl in Hrun.
    set (h2 := <[l := set_balance (balance sd + t) sd]>
                 (<[ls := set_balance (balance ss - t) ss]> h)) in *.
    assert (T : transfers h h2) by (apply transfer_step; auto; lra).
    assert (Hss2 : h2 !! ls = Some (set_balance (balance ss - t) ss)).
    { unfold h2. rewrite list_lookup_insert_ne by auto.
      apply list_lookup_insert_eq. eapply lookup_lt_Some; eauto. }
    destruct (Qle_bool (avail - t) 0) eqn:Eleft.
    + (* the surplus is used up *)
      apply Qle_bool_iff in Eleft. injection Hrun as <- <-.
      eexists. split; [exact Hss2|]. left. simpl. lra.
    + (* the need of this region is met *)
      apply Qle_bool_false in Eleft.
      assert (Et' : t == - balance sd).
      { unfold t in *.
        destruct (py_min_cases avail (Qabs (balance sd))) as [[_ E]|[_ E]];
          rewrite E in *; lra. }
      assert (Hrest2 : forall r', r' ∈ rest ->
          exists l s, dict_get d r' = Some l /\ h2 !! l = Some s /\
                      balance s <= 0).
      { intros r' Hr'. destruct (Hrest r' Hr') as (l' & s' & Hl' & Hs' & Hn').
        destruct (transfers_lookup _ _ _ _ T Hs') as [s2 Hs2].
        exists l', s2. repeat split; auto.
        destruct T as [_ T]. destruct (T _ _ _ Hs' Hs2) as (_ & _ & _ & _ & N).
        auto. }
      assert (Hbal2 : balance (set_balance (balance ss - t) ss) == avail - t)
        by (simpl; lra).
      destruct (offer_surplus_spec now d src ls ND Hsrc rest (avail - t) h2
                  (acts ++ [mkBalancingAction src r (round2 t)
                              (now (length acts))])
                  _ Hss2 Hbal2 Eleft Hrest2) as (h3 & acts3 & Hrun3 & T3 & _).
      rewrite Hrun in Hrun3. injection Hrun3 as <- <-.
      destruct (IH _ _ _ _ _ _ Hss2 Hbal2 Eleft Hrest2 Hrun)
        as (ss' & Hss' & Hex).
      exists ss'. split; [exact Hss'|]. destruct Hex as [Hex|Hex]; [auto|].
      right. intros r' Hr'. apply elem_of_cons in Hr' as [->|Hr']; [|auto].
      assert (Hsd2 : h2 !! l = Some (set_balance (balance sd + t) sd)).
      { unfold h2. apply list_lookup_insert_eq. rewrite length_insert.
        eapply lookup_lt_Some; eauto. }
      destruct (transfers_lookup _ _ _ _ T3 Hsd2) as [sd' Hsd'].
      exists l, sd'. repeat split; auto.
      destruct T3 as [_ T3].
      destruct (T3 _ _ _ Hsd2 Hsd') as (_ & _ & _ & P & _).
      apply P. simpl. lra.
Qed.

(** After the outer loop, no region of the surplus list has anything left
    or no region of the deficit list needs anything. *)
Lemma transfer_loop_exhausts (now : nat -> string) (d : StatusDict) :
  NoDup (dict_values d) ->
  forall (surplus deficits : list string) (h : Heap)
         (acts : list BalancingAction) (h' : Heap)
         (acts' : list BalancingAction),
    (forall r, r ∈ surplus ->
       exists l, dict_get d r = Some l /\ (l < length h)%nat) ->
    (forall r, r ∈ deficits ->
       exists l s, dict_get d r = Some l /\ h !! l = Some s /\ balance s <= 0) ->
    transfer_loop now d surplus deficits h acts = Ok (h', acts') ->
    (forall r, r ∈ surplus ->
       exists l s', dict_get d r = Some l /\ h' !! l = Some s' /\
                    balance s' <= 0) \/
    (forall r, r ∈ deficits ->
       exists l s', dict_get d r = Some l /\ h' !! l = Some s' /\
                    0 <= balance s').
Proof.
  intros ND surplus.
  induction surplus as [|src rest IH];
    intros deficits h acts h' acts' Hsur Hdef Hrun.
  - left. intros r Hr. inversion Hr.
  - assert (Hpre : forall h1, transfers h h1 ->
        (forall r, r ∈ rest ->
           exists l, dict_get d r = Some l /\ (l < length h1)%nat) /\
        (forall r, r ∈ deficits ->
           exists l s, dict_get d r = Some l /\ h1 !! l = Some s /\
                       balance s <= 0)).
    { intros h1 T. split.
      - intros r Hr. destruct (Hsur r) as (l & Hl & Hlt); [now right|].
        exists l. split; [auto|]. destruct T as [-> _]. auto.
      - intros r Hr. destruct (Hdef r Hr) as (l & s & Hl & Hs & Hn).
        destruct (transfers_lookup _ _ _ _ T Hs) as [s2 Hs2].
        exists l, s2. repeat split; auto.
        destruct T as [_ T]. destruct (T _ _ _ Hs Hs2) as (_ & _ & _ & _ & N).
        auto. }
    destruct (Hsur src) as (ls & Hls & Hlt); [left|].
    destruct (lookup_lt_is_Some_2 h ls Hlt) as [ss Hss].
    simpl in Hrun. unfold status_get at 1 in Hrun.
    rewrite Hls, Hss in Hrun. simpl in Hrun.
    (* what the rest of the loop does to a heap [h1] reached by transfers *)
    assert (Hloop : forall h1 acts1,
        transfers h h1 ->
        transfer_loop now d rest deficits h1 acts1 = Ok (h', acts') ->
        transfers h1 h' /\
        ((forall r, r ∈ rest ->
            exists l s', dict_get d r = Some l /\ h' !! l = Some s' /\
                         balance s' <= 0) \/
         (forall r, r ∈ deficits ->
            exists l s', dict_get d r = Some l /\ h' !! l = Some s' /\
                         0 <= balance s'))).
    { intros h1 acts1 T1 Hrun1. destruct (Hpre h1 T1) as [H1 H2].
      destruct (transfer_loop_spec now d ND rest deficits h1 acts1 H1 H2)
        as (h3 & acts3 & Hrun3 & T3 & _).
      rewrite Hrun1 in Hrun3. injection Hrun3 as <- <-.
      split; [exact T3|]. eapply IH; eauto. }
    (* a source whose balance is not positive in [h1] stays so *)
    assert (Hsrc : forall h1 s1,
        transfers h1 h' -> h1 !! ls = Some s1 -> balance s1 <= 0 ->
        exists l s', dict_get d src = Some l /\ h' !! l = Some s' /\
                     balance s' <= 0).
    { intros h1 s1 T1 Hs1 Hn.
      destruct (transfers_lookup _ _ _ _ T1 Hs1) as [s' Hs'].
      exists ls, s'. repeat split; auto.
      destruct T1 as [_ T1].
      destruct (T1 _ _ _ Hs1 Hs') as (_ & _ & _ & _ & N). auto. }
    destruct (Qle_bool (balance ss) 0) eqn:Eav.
    + apply Qle_bool_iff in Eav.
      destruct (Hloop h acts (transfers_refl h) Hrun) as [T [Hex|Hex]];
        [|auto].
      left. intros r Hr. apply elem_of_cons in Hr as [->|Hr]; [|auto].
      eapply Hsrc; eauto.
    + apply Qle_bool_false in Eav.
      destruct (offer_surplus_spec now d src ls ND Hls deficits (balance ss)
                  h acts ss Hss ltac:(reflexivity) Eav Hdef)
        as (h1 & acts1 & Hrun1 & T1 & _).
      rewrite Hrun1 in Hrun. simpl in Hrun.
      destruct (offer_surplus_exhausts now d src ls ND Hls deficits
                  (balance ss) h acts ss h1 acts1 Hss ltac:(reflexivity)
                  Eav Hdef Hrun1) as (ss1 & Hss1 & Hex1).
      destruct (Hloop h1 acts1 T1 Hrun) as [T [Hex|Hex]]; [|auto].
      destruct Hex1 as [Hex1|Hex1].
      * left. intros r Hr. apply elem_of_cons in Hr as [->|Hr]; [|auto].
        eapply Hsrc; eauto.
      * right. intros r Hr. destruct (Hex1 r Hr) as (l & s1 & Hl & Hs1 & Hp).
        destruct (transfers_lookup _ _ _ _ T Hs1) as [s' Hs'].
        exists l, s'. repeat split; auto.
        destruct T as [_ T]. destruct (T _ _ _ Hs1 Hs') as (_ & _ & _ & P & _).
        auto.
Qed.

Lemma select_regions_sound (test : Q -> bool) (d : StatusDict) (h : Heap)
    (keys : list string) :
  forall selected,
    select_regions test d h keys = Ok selected ->
    forall r, r ∈ selected ->
      r ∈ keys /\
      exists s, status_get d h r = Ok s /\ test (balance s) = true.
Proof.
  induction keys as [|k keys IH]; intros selected H; simpl in H.
  - injection H as <-. intros r Hr. inversion Hr.
  - apply bind_Ok in H as (s & Es & H). apply bind_Ok in H as (sel & Esel & H).
    injection H as <-. intros r Hr.
    destruct (test (balance s)) eqn:Et.
    + apply elem_of_cons in Hr as [->|Hr].
      * split; [left|eauto].
      * destruct (IH _ Esel r Hr) as [Hin Hs]. split; [now right|exact Hs].
    + destruct (IH _ Esel r Hr) as [Hin Hs]. split; [now right|exact Hs].
Qed.

Lemma select_regions_complete (test : Q -> bool) (d : StatusDict) (h : Heap)
    (keys : list string) :
  forall selected,
    select_regions test d h keys = Ok selected ->
    forall r s, r ∈ keys -> status_get d h r = Ok s ->
      test (balance s) = true -> r ∈ selected.
Proof.
  induction keys as [|k keys IH]; intros selected H; simpl in H.
  - intros r s Hr. inversion Hr.
  - apply bind_Ok in H as (s0 & Es & H). apply bind_Ok in H as (sel & Esel & H).
    injection H as <-. intros r s Hr Hget Ht.
    apply elem_of_cons in Hr as [->|Hr].
    + rewrite Hget in Es. injection Es as <-. rewrite Ht. left.
    + destruct (test (balance s0)); [right|]; eapply IH; eauto.
Qed.

Lemma rebalance_inv (now : nat -> string) (d : StatusDict) (h h1 : Heap)
    (acts : list BalancingAction) :
  rebalance now d h = Ok (h1, acts) ->
  exists sorted surplus deficits,
    sorted_regions d h = Ok sorted /\
    select_regions (fun b => Qlt_bool 0 b) d h sorted = Ok surplus /\
    select_regions (fun b => Qlt_bool b 0) d h sorted = Ok deficits /\
    transfer_loop now d surplus deficits h [] = Ok (h1, acts).
Proof.
  unfold rebalance. intros H.
  apply bind_Ok in H as (sorted & E1 & H).
  apply bind_Ok in H as (surplus & E2 & H).
  apply bind_Ok in H as (deficits & E3 & H).
  exists sorted, surplus, deficits. auto.
Qed.

(** X3: after the greedy pass either no region has a positive balance or no
    region has a negative balance: the pass never stops while one region
    still has a surplus and another still a deficit. *)
Theorem rebalancing_exhausts_one_side (rng : RandomSource)
    (now : nat -> string) (regional_data : Snapshot) (scenario : string)
    (regions : list string) (d : StatusDict) (h0 : Heap) :
  perturbed_status rng regional_data scenario regions = Ok (d, h0) ->
  exists h1 acts,
    rebalance now d h0 = Ok (h1, acts) /\
    ((forall region s1, status_get d h1 region = Ok s1 -> balance s1 <= 0) \/
     (forall region s1, status_get d h1 region = Ok s1 -> 0 <= balance s1)).
Proof.
  intros Hp. apply perturbed_status_spec in Hp as [W _].
  destruct (rebalance_spec now d h0 W) as (h1 & acts & Hr & T & _).
  exists h1, acts. split; [exact Hr|].
  apply rebalance_inv in Hr as (sorted & surplus & deficits & E1 & E2 & E3 & Hl).
  destruct (sorted_regions_spec d h0 W) as (sorted' & E1' & P).
  rewrite E1 in E1'. injection E1' as <-.
  pose proof (select_regions_sound _ _ _ _ _ E2) as S2.
  pose proof (select_regions_sound _ _ _ _ _ E3) as S3.
  destruct W as [ND Hlt].
  (* the record of a region before the pass *)
  assert (Hback : forall region s1,
            status_get d h1 region = Ok s1 ->
            exists l s0,
              dict_get d region = Some l /\ h0 !! l = Some s0 /\
              h1 !! l = Some s1 /\ status_get d h0 region = Ok s0 /\
              region ∈ sorted /\
              (0 <= balance s0 -> 0 <= balance s1) /\
              (balance s0 <= 0 -> balance s1 <= 0)).
  { intros region s1 Hget. apply status_get_inv in Hget as (l & Hl' & Hs1).
    destruct (lookup_lt_is_Some_2 h0 l) as [s0 Hs0].
    { destruct T as [<- _]. eapply lookup_lt_Some; eauto. }
    exists l, s0. split; [auto|]. split; [auto|]. split; [auto|].
    split; [unfold status_get; now rewrite Hl', Hs0|].
    split; [rewrite P; eapply dict_get_is_key; eauto|].
    destruct T as [_ T]. destruct (T _ _ _ Hs0 Hs1) as (_ & _ & _ & Pp & N).
    auto. }
  destruct (transfer_loop_exhausts now d ND surplus deficits h0 [] h1 acts)
    as [Hex|Hex]; auto.
  - intros r Hr. destruct (S2 r Hr) as (_ & s & Hget & _).
    apply status_get_inv in Hget as (l & Hl' & Hs).
    exists l. split; [auto|]. eapply lookup_lt_Some; eauto.
  - intros r Hr. destruct (S3 r Hr) as (_ & s & Hget & Ht).
    apply status_get_inv in Hget as (l & Hl' & Hs).
    exists l, s. repeat split; auto. apply Qlt_bool_iff in Ht. lra.
  - left. intros region s1 Hget.
    destruct (Hback region s1 Hget)
      as (l & s0 & Hl' & Hs0 & Hs1 & Hget0 & Hin & Pp & N).
    destruct (Qlt_le_dec 0 (balance s0)) as [Hpos|Hneg]; [|auto].
    assert (Hsel : region ∈ surplus).
    { eapply select_regions_complete; eauto. now apply Qlt_bool_iff. }
    destruct (Hex region Hsel) as (l' & s' & Hl'' & Hs' & Hle).
    rewrite Hl' in Hl''. injection Hl'' as <-.
    rewrite Hs1 in Hs'. injection Hs' as <-. exact Hle.
  - right. intros region s1 Hget.
    destruct (Hback region s1 Hget)
      as (l & s0 & Hl' & Hs0 & Hs1 & Hget0 & Hin & Pp & N).
    destruct (Qlt_le_dec (balance s0) 0) as [Hneg|Hpos]; [|auto].
    assert (Hsel : region ∈ deficits).
    { eapply select_regions_complete; eauto. now apply Qlt_bool_iff. }
    destruct (Hex region Hsel) as (l' & s' & Hl'' & Hs' & Hle).
    rewrite Hl' in Hl''. injection Hl'' as <-.
    rewrite Hs1 in Hs'. injection Hs' as <-. exact Hle.
Qed.

(** The two-region example under [peak]: A gives all it has to B. *)
Lemma rebalancing_exhausts_one_side_witness :
  exists d h0,
    perturbed_status no_randomness example_snapshot "peak" [] = Ok (d, h0) /\
    exists h1 acts,
      rebalance fixed_clock d h0 = Ok (h1, acts) /\
      ((forall region s1, status_get d h1 region = Ok s1 -> balance s1 <= 0) \/
       (forall region s1, status_get d h1 region = Ok s1 -> 0 <= balance s1)).
Proof.
  eexists _, _. split; [vm_compute; reflexivity|].
  apply (rebalancing_exhausts_one_side no_randomness fixed_clock
           example_snapshot "peak" []).
  vm_compute. reflexivity.
Defined.

(** ** The recorded actions *)

Lemma round2_nonneg (x : Q) : 0 <= x -> 0 <= round2 x.
Proof.
  intros Hx. apply round2_mono in Hx. now rewrite round2_zero in Hx.
Qed.

Lemma offer_surplus_actions (now : nat -> string) (d : StatusDict)
    (src : string) (deficits : list string) :
  forall (avail : Q) (h : Heap) (acts : list BalancingAction) (h' : Heap)
         (acts' : list BalancingAction),
    offer_surplus now d src deficits avail h acts = Ok (h', acts') ->
    exists added,
      acts' = acts ++ added /\
      Forall (fun a => source a = src /\ target a ∈ deficits /\
                       0 <= amount a) added.
Proof.
  induction deficits as [|r rest IH]; intros avail h acts h' acts' H;
    simpl in H.
  - injection H as <- <-. exists []. now rewrite app_nil_r.
  - assert (Hweak : forall added,
        Forall (fun a => source a = src /\ target a ∈ rest /\ 0 <= amount a)
          added ->
        Forall (fun a => source a = src /\ target a ∈ r :: rest /\
                         0 <= amount a) added).
    { intros added Hadded. eapply Forall_impl; [exact Hadded|].
      intros a (H1 & H2 & H3). repeat split; auto. now right. }
    apply bind_Ok in H as (s & Es & H).
    destruct (Qle_bool (Qabs (balance s)) 0).
    { apply IH in H as (added & -> & Hall). eauto. }
    destruct (Qle_bool (py_min avail (Qabs (balance s))) 0) eqn:Et.
    { apply IH in H as (added & -> & Hall). eauto. }
    apply Qle_bool_false in Et.
    apply bind_Ok in H as (h1 & E1 & H). apply bind_Ok in H as (h2 & E2 & H).
    assert (Hnew : forall ts,
        source (mkBalancingAction src r
                  (round2 (py_min avail (Qabs (balance s)))) ts) = src /\
        target (mkBalancingAction src r
                  (round2 (py_min avail (Qabs (balance s)))) ts) ∈ r :: rest /\
        0 <= amount (mkBalancingAction src r
                       (round2 (py_min avail (Qabs (balance s)))) ts)).
    { intros ts. simpl. split; [reflexivity|]. split; [left|].
      apply round2_nonneg. lra. }
    destruct (Qle_bool (avail - py_min avail (Qabs (balance s))) 0).
    + injection H as <- <-. eexists [_]. split; [reflexivity|].
      constructor; [apply Hnew|constructor].
    + apply IH in H as (added & -> & Hall).
      eexists (_ :: added). split; [now rewrite <- app_assoc|].
      constructor; [apply Hnew|auto].
Qed.

Lemma transfer_loop_actions (now : nat -> string) (d : StatusDict)
    (surplus deficits : list string) :
  forall (h : Heap) (acts : list BalancingAction) (h' : Heap)
         (acts' : list BalancingAction),
    transfer_loop now d surplus deficits h acts = Ok (h', acts') ->
    exists added,
      acts' = acts ++ added /\
      Forall (fun a => source a ∈ surplus /\ target a ∈ deficits /\
                       0 <= amount a) added.
Proof.
  induction surplus as [|src rest IH]; intros h acts h' acts' H; simpl in H.
  - injection H as <- <-. exists []. now rewrite app_nil_r.
  - assert (Hweak : forall added,
        Forall (fun a => source a ∈ rest /\ target a ∈ deficits /\
                         0 <= amount a) added ->
        Forall (fun a => source a ∈ src :: rest /\ target a ∈ deficits /\
                         0 <= amount a) added).
    { intros added Hadded. eapply Forall_impl; [exact Hadded|].
      intros a (H1 & H2 & H3). repeat split; auto. now right. }
    apply bind_Ok in H as (s & Es & H).
    destruct (Qle_bool (balance s) 0).
    { apply IH in H as (added & -> & Hall). eauto. }
    apply bind_Ok in H as ([h1 acts1] & E1 & H). simpl in H.
    apply offer_surplus_actions in E1 as (added1 & -> & Hall1).
    apply IH in H as (added & -> & Hall).
    exists (added1 ++ added). split; [now rewrite app_assoc|].
    apply Forall_app. split; [|auto].
    eapply Forall_impl; [exact Hall1|]. intros a (H1 & H2 & H3).
    repeat split; auto. rewrite H1. left.
Qed.

(** X4: every recorded balancing action moves power from a region that had
    a positive balance before the pass to a different region that had a
    negative balance before the pass, and its amount is not negative. *)
Theorem actions_go_from_surplus_to_deficit (rng : RandomSource)
    (now : nat -> string) (regional_data : Snapshot) (scenario : string)
    (regions : list string) (r : BalancingResult) :
  simulate_load_balancing rng now regional_data scenario regions = Balanced r ->
  exists d h0,
    perturbed_status rng regional_data scenario regions = Ok (d, h0) /\
    forall a, a ∈ balancing_actions r ->
      exists ss st,
        status_get d h0 (source a) = Ok ss /\ 0 < balance ss /\
        status_get d h0 (target a) = Ok st /\ balance st < 0 /\
        source a <> target a /\ 0 <= amount a.
Proof.
  intros Hrun. apply simulate_load_balancing_inv in Hrun.
  apply simulate_body_inv in Hrun
    as (d & h0 & h1 & acts & h2 & Hp & Hr & Hf & ->).
  exists d, h0. split; [exact Hp|]. simpl. intros a Ha.
  apply rebalance_inv in Hr as (sorted & surplus & deficits & E1 & E2 & E3 & Hl).
  apply transfer_loop_actions in Hl as (added & Eadd & Hall).
  simpl in Eadd. subst added.
  rewrite Forall_forall in Hall. destruct (Hall a Ha) as (Hs & Ht & Hamt).
  destruct (select_regions_sound _ _ _ _ _ E2 _ Hs) as (_ & ss & Hgs & Hts).
  destruct (select_regions_sound _ _ _ _ _ E3 _ Ht) as (_ & st & Hgt & Htt).
  apply Qlt_bool_iff in Hts, Htt.
  exists ss, st. repeat split; auto.
  intros Heq. rewrite Heq in Hgs. rewrite Hgs in Hgt. injection Hgt as <-. lra.
Qed.

(** The single action of the two-region example goes from A to B. *)
Lemma actions_go_from_surplus_to_deficit_witness :
  exists r,
    simulate_load_balancing no_randomness fixed_clock example_snapshot
      "normal" [] = Balanced r /\
    length (balancing_actions r) = 1%nat /\
    exists d h0,
      perturbed_status no_randomness example_snapshot "normal" [] = Ok (d, h0) /\
      forall a, a ∈ balancing_actions r ->
        exists ss st,
          status_get d h0 (source a) = Ok ss /\ 0 < balance ss /\
          status_get d h0 (target a) = Ok st /\ balance st < 0 /\
          source a <> target a /\ 0 <= amount a.
Proof.
  eexists. split; [vm_compute; reflexivity|]. split; [reflexivity|].
  apply (actions_go_from_surplus_to_deficit no_randomness fixed_clock
           example_snapshot "normal" []).
  vm_compute. reflexivity.
Defined.

(** ** No transfer without both a surplus and a deficit *)

Lemma select_regions_none (test : Q -> bool) (d : StatusDict) (h : Heap)
    (keys : list string) :
  forall selected,
    select_regions test d h keys = Ok selected ->
    (forall r s, status_get d h r = Ok s -> test (balance s) = false) ->
    selected = [].
Proof.
  intros selected H Hnone. destruct selected as [|r rest]; [reflexivity|].
  destruct (select_regions_sound _ _ _ _ _ H r) as (_ & s & Hget & Ht); [left|].
  rewrite (Hnone r s Hget) in Ht. discriminate.
Qed.

Lemma transfer_loop_no_deficit (now : nat -> string) (d : StatusDict)
    (surplus : list string) (h : Heap) (acts : list BalancingAction) :
  (forall r, r ∈ surplus -> exists s, status_get d h r = Ok s) ->
  transfer_loop now d surplus [] h acts = Ok (h, acts).
Proof.
  induction surplus as [|src rest IH]; intros Hs; simpl; [reflexivity|].
  destruct (Hs src) as [s ->]; [left|]. simpl.
  destruct (Qle_bool (balance s) 0); simpl; apply IH;
    intros r Hr; apply Hs; now right.
Qed.

(** X5: when no region has a negative balance before the pass, or none has
    a positive one, the pass records no action and leaves every record as it
    was. *)
Theorem no_transfer_without_both_sides (rng : RandomSource)
    (now : nat -> string) (regional_data : Snapshot) (scenario : string)
    (regions : list string) (d : StatusDict) (h0 : Heap) :
  perturbed_status rng regional_data scenario regions = Ok (d, h0) ->
  (forall region s0, status_get d h0 region = Ok s0 -> 0 <= balance s0) \/
  (forall region s0, status_get d h0 region = Ok s0 -> balance s0 <= 0) ->
  rebalance now d h0 = Ok (h0, []).
Proof.
  intros Hp Hside. apply perturbed_status_spec in Hp as [W _].
  destruct (rebalance_spec now d h0 W) as (h1 & acts & Hr & _ & _).
  pose proof Hr as Hr'.
  apply rebalance_inv in Hr' as (sorted & surplus & deficits & E1 & E2 & E3 & Hl).
  unfold rebalance. rewrite E1. simpl. rewrite E2. simpl. rewrite E3. simpl.
  destruct Hside as [Hnn|Hnp].
  - assert (deficits = []) as ->.
    { eapply select_regions_none; [exact E3|]. intros r s Hget.
      apply Qlt_bool_false. eauto. }
    apply transfer_loop_no_deficit. intros r Hr0.
    destruct (select_regions_sound _ _ _ _ _ E2 r Hr0) as (_ & s & Hget & _).
    eauto.
  - assert (surplus = []) as ->.
    { eapply select_regions_none; [exact E2|]. intros r s Hget.
      apply Qlt_bool_false. eauto. }
    reflexivity.
Qed.

(** A snapshot of two regions in surplus. *)
Lemma no_transfer_without_both_sides_witness :
  exists d h0,
    perturbed_status no_randomness
      [("A"%string, mkRegionData (Some 100) (Some 80) None);
       ("B"%string, mkRegionData (Some 90) (Some 50) (Some 49.9))]
      "normal" [] = Ok (d, h0) /\
    rebalance fixed_clock d h0 = Ok (h0, []).
Proof.
  eexists _, _. split; [vm_compute; reflexivity|].
  eapply (no_transfer_without_both_sides no_randomness fixed_clock
            [("A"%string, mkRegionData (Some 100) (Some 80) None);
             ("B"%string, mkRegionData (Some 90) (Some 50) (Some 49.9))]
            "normal" []).
  - vm_compute. reflexivity.
  - left. intros region s0 Hget.
    apply status_get_inv in Hget as (l & _ & Hs).
    destruct l as [|[|l]]; vm_compute in Hs; [| |discriminate];
      injection Hs as <-; vm_compute; discriminate.
Defined.

(** ** Which regions a run covers *)

Lemma dict_set_fresh (d : StatusDict) (k : string) (l : loc) :
  k ∉ dict_keys d -> dict_set d k l = d ++ [(k, l)].
Proof.
  induction d as [|[k' l'] d IH]; simpl; intros Hk; [reflexivity|].
  apply not_elem_of_cons in Hk as [Hne Hk].
  destruct (String.eqb k' k) eqn:E;
    [apply String.eqb_eq in E; congruence|].
  now rewrite IH.
Qed.

(** With distinct region names the loop appends one entry and one record per
    region, in the order of the snapshot. *)
Lemma build_status_distinct (rest : Snapshot) :
  forall (d : StatusDict) (h : Heap),
    NoDup (dict_keys d ++ map fst rest) ->
    build_status rest d h
    = (d ++ zip (map fst rest) (seq (length h) (length rest)),
       h ++ map (fun kv => region_status_of (snd kv)) rest).
Proof.
  induction rest as [|[region data] rest IH]; intros d h ND; simpl.
  - now rewrite !app_nil_r.
  - assert (Hfresh : region ∉ dict_keys d).
    { apply NoDup_app in ND as (_ & Hdis & _). intros Hin.
      apply (Hdis region Hin). left. }
    rewrite dict_set_fresh by exact Hfresh.
    rewrite IH.
    + rewrite length_app, <- !app_assoc. simpl.
      now rewrite Nat.add_1_r.
    + unfold dict_keys in *. rewrite map_app, <- app_assoc. exact ND.
Qed.

Lemma build_initial_status_keys (regional_data : Snapshot)
    (regions : list string) :
  NoDup (map fst regional_data) ->
  dict_keys (fst (build_initial_status regional_data regions))
  = map fst (filter_regions regional_data
               (effective_regions regional_data regions)).
Proof.
  intros ND. unfold build_initial_status.
  rewrite build_status_distinct
    by (simpl; now apply filter_regions_NoDup).
  simpl. unfold dict_keys. apply fst_zip.
  rewrite length_seq, length_map. reflexivity.
Qed.

Lemma perturbed_status_dict (rng : RandomSource) (regional_data : Snapshot)
    (scenario : string) (regions : list string) (d : StatusDict) (h : Heap) :
  perturbed_status rng regional_data scenario regions = Ok (d, h) ->
  d = fst (build_initial_status regional_data regions) /\
  apply_scenario rng scenario d
    (snd (build_initial_status regional_data regions)) = Ok h.
Proof.
  unfold perturbed_status.
  destruct (build_initial_status regional_data regions) as [d0 h0].
  intros H. apply bind_Ok in H as (h1 & E & H). injection H as <- <-.
  simpl. auto.
Qed.

(** X6: with distinct region names in the snapshot, a successful run covers
    exactly the regions of the snapshot that the caller asked for (all of
    them when the list of regions is empty), in the order of the snapshot;
    names asked for that the snapshot does not have are ignored. *)
Theorem result_covers_selected_regions (rng : RandomSource)
    (now : nat -> string) (regional_data : Snapshot) (scenario : string)
    (regions : list string) (r : BalancingResult) :
  NoDup (map fst regional_data) ->
  simulate_load_balancing rng now regional_data scenario regions = Balanced r ->
  dict_keys (balanced_status r)
  = map fst (filter_regions regional_data
               (effective_regions regional_data regions)) /\
  forall region,
    is_Some (reported balanced_status r region) <->
    region ∈ map fst regional_data /\
    key_in region (effective_regions regional_data regions) = true.
Proof.
  intros ND Hrun. apply simulate_load_balancing_inv in Hrun.
  apply simulate_body_inv in Hrun
    as (d & h0 & h1 & acts & h2 & Hp & Hr & Hf & ->).
  pose proof (perturbed_status_spec _ _ _ _ _ _ Hp) as [W _].
  apply perturbed_status_dict in Hp as [-> _].
  assert (Hkeys : dict_keys (fst (build_initial_status regional_data regions))
                  = map fst (filter_regions regional_data
                               (effective_regions regional_data regions)))
    by now apply build_initial_status_keys.
  simpl. split; [exact Hkeys|]. intros region.
  set (d := fst (build_initial_status regional_data regions)) in *.
  assert (Hsel : region ∈ dict_keys d <->
                 region ∈ map fst regional_data /\
                 key_in region (effective_regions regional_data regions)
                 = true).
  { rewrite Hkeys. unfold filter_regions. rewrite list_elem_of_fmap. split.
    - intros ([k v] & -> & Hin). apply list_elem_of_filter in Hin as [Hk Hin].
      simpl in *. split; [|now apply Is_true_eq_true].
      apply list_elem_of_fmap. exists (k, v). auto.
    - intros [Hin Hk]. apply list_elem_of_fmap in Hin as ([k v] & -> & Hin).
      exists (k, v). split; [reflexivity|].
      apply list_elem_of_filter. split; [|exact Hin]. simpl in *.
      now rewrite Hk. }
  rewrite <- Hsel. unfold reported. simpl. split.
  - intros [s Hs]. destruct (dict_get d region) as [l|] eqn:El;
      [|discriminate]. eapply dict_get_is_key; eauto.
  - intros Hk. destruct (dict_get_key _ _ Hk) as [l Hl]. rewrite Hl.
    apply lookup_lt_is_Some_2.
    apply frequency_loop_spec in Hf as [-> _].
    destruct (rebalance_spec now d h0 W) as (h1' & acts' & Hr' & [L _] & _).
    rewrite Hr in Hr'. injection Hr' as <- <-. rewrite L.
    apply W. eapply dict_get_value; eauto.
Qed.

(** Only B is asked for, together with a name the snapshot does not have. *)
Lemma result_covers_selected_regions_witness :
  exists r,
    simulate_load_balancing no_randomness fixed_clock example_snapshot
      "normal" ["B"%string; "Z"%string] = Balanced r /\
    dict_keys (balanced_status r) = ["B"%string] /\
    forall region,
      is_Some (reported balanced_status r region) <->
      region ∈ map fst example_snapshot /\
      key_in region
        (effective_regions example_snapshot ["B"%string; "Z"%string]) = true.
Proof.
  eexists. split; [vm_compute; reflexivity|]. split; [reflexivity|].
  refine (proj2 (result_covers_selected_regions no_randomness fixed_clock
            example_snapshot "normal" ["B"%string; "Z"%string] _ _ _)).
  - apply (bool_decide_unpack _). vm_compute. exact I.
  - vm_compute. reflexivity.
Defined.

(** ** Scenarios that need regions *)

Lemma dict_set_length (d : StatusDict) (k : string) (l : loc) :
  (length (dict_set d k l) <= S (length d))%nat.
Proof.
  induction d as [|[k' l'] d IH]; simpl; [lia|].
  destruct (String.eqb k' k); simpl; lia.
Qed.

Lemma build_status_length (rest : Snapshot) :
  forall (d : StatusDict) (h : Heap),
    (length (fst (build_status rest d h)) <= length d + length rest)%nat.
Proof.
  induction rest as [|[region data] rest IH]; intros d h; simpl; [lia|].
  specialize (IH (dict_set d region (length h)) (h ++ [region_status_of data])).
  pose proof (dict_set_length d region (length h)). lia.
Qed.

(** X7: the [renewable_surplus] scenario on fewer than two selected regions
    fails: the two regions to boost cannot be drawn, and the call returns
    the error result. *)
Theorem renewable_surplus_needs_two_regions (rng : RandomSource)
    (now : nat -> string) (regional_data : Snapshot) (regions : list string) :
  (length (filter_regions regional_data
             (effective_regions regional_data regions)) < 2)%nat ->
  exists msg,
    simulate_load_balancing rng now regional_data "renewable_surplus" regions
    = SimulationError msg "renewable_surplus"
        (effective_regions regional_data regions).
Proof.
  intros Hlen. eexists.
  unfold simulate_load_balancing, simulate_body, perturbed_status.
  pose proof (build_status_length
                (filter_regions regional_data
                   (effective_regions regional_data regions)) [] []) as Hb.
  unfold build_initial_status.
  destruct (build_status _ [] []) as [d h]. simpl in *.
  unfold apply_scenario. simpl. unfold random_choice2.
  assert (E : (length (dict_keys d) <? 2)%nat = true).
  { apply Nat.ltb_lt. unfold dict_keys. rewrite length_map. lia. }
  rewrite E. reflexivity.
Qed.

(** The two-region example restricted to region A. *)
Lemma renewable_surplus_needs_two_regions_witness :
  exists msg,
    simulate_load_balancing no_randomness fixed_clock example_snapshot
      "renewable_surplus" ["A"%string]
    = SimulationError msg "renewable_surplus" ["A"%string].
Proof.
  apply (renewable_surplus_needs_two_regions no_randomness fixed_clock
           example_snapshot ["A"%string]).
  vm_compute. lia.
Defined.

(** X8: when no region of the snapshot is selected, the [outage] scenario
    fails, having no region to choose, while [normal] and every unknown
    scenario name succeed with an empty result: no region, no action, and
    all metrics zero. *)
Theorem empty_selection (rng : RandomSource) (now : nat -> string)
    (regional_data : Snapshot) (scenario : string) (regions : list string) :
  filter_regions regional_data (effective_regions regional_data regions) = [] ->
  (scenario = "outage"%string ->
   exists msg,
     simulate_load_balancing rng now regional_data scenario regions
     = SimulationError msg scenario
         (effective_regions regional_data regions)) /\
  (scenario <> "peak"%string -> scenario <> "renewable_surplus"%string ->
   scenario <> "outage"%string ->
   exists r,
     simulate_load_balancing rng now regional_data scenario regions
     = Balanced r /\
     initial_status r = [] /\ balanced_status r = [] /\
     balancing_actions r = [] /\
     initial_imbalance (metrics r) == 0 /\
     remaining_imbalance (metrics r) == 0 /\
     improvement_percentage (metrics r) == 0 /\
     transfers_count (metrics r) = 0%nat /\
     total_power_transferred (metrics r) == 0).
Proof.
  intros Hempty. split.
  - intros ->. eexists.
    unfold simulate_load_balancing, simulate_body, perturbed_status,
      build_initial_status.
    rewrite Hempty. simpl. reflexivity.
  - intros H1 H2 H3. eexists.
    unfold simulate_load_balancing, simulate_body, perturbed_status,
      build_initial_status, apply_scenario.
    apply String.eqb_neq in H1, H2, H3.
    rewrite Hempty, H1, H2, H3. simpl.
    split; [reflexivity|]. repeat split; reflexivity.
Qed.

(** Only a name the snapshot does not have is asked for. *)
Lemma empty_selection_witness :
  (exists msg,
     simulate_load_balancing no_randomness fixed_clock example_snapshot
       "outage" ["Z"%string]
     = SimulationError msg "outage" ["Z"%string]) /\
  (exists r,
     simulate_load_balancing no_randomness fixed_clock example_snapshot
       "normal" ["Z"%string] = Balanced r /\
     initial_status r = [] /\ balanced_status r = [] /\
     balancing_actions r = [] /\
     initial_imbalance (metrics r) == 0 /\
     remaining_imbalance (metrics r) == 0 /\
     improvement_percentage (metrics r) == 0 /\
     transfers_count (metrics r) = 0%nat /\
     total_power_transferred (metrics r) == 0).
Proof.
  destruct (empty_selection no_randomness fixed_clock example_snapshot
              "outage" ["Z"%string] ltac:(reflexivity)) as [Hout _].
  destruct (empty_selection no_randomness fixed_clock example_snapshot
              "normal" ["Z"%string] ltac:(reflexivity)) as [_ Hnormal].
  split.
  - apply Hout. reflexivity.
  - apply Hnormal; discriminate.
Defined.

(** ** What the scenarios change *)

(** X9: with distinct region names, a successful [outage] stage changes the
    record of exactly one selected region, the one the random index points
    at: its generation is scaled by 0.6 + 0.2 * random, its balance is
    recomputed and its frequency lowered by 0.2 + 0.2 * random; every other
    region keeps the record derived from the snapshot. *)
Theorem outage_changes_one_region (rng : RandomSource)
    (regional_data : Snapshot) (regions : list string) (d : StatusDict)
    (h : Heap) :
  NoDup (map fst regional_data) ->
  perturbed_status rng regional_data "outage" regions = Ok (d, h) ->
  exists outage_region data0,
    filter_regions regional_data (effective_regions regional_data regions)
      !! (choice_index rng 0
          mod length (filter_regions regional_data
                        (effective_regions regional_data regions)))%nat
    = Some (outage_region, data0) /\
    status_get d h outage_region
    = Ok (outage_record rng (region_status_of data0)) /\
    forall region data,
      (region, data) ∈ filter_regions regional_data
                         (effective_regions regional_data regions) ->
      region <> outage_region ->
      status_get d h region = Ok (region_status_of data).
Proof.
  intros ND Hp.
  pose proof (build_initial_status_wf regional_data regions) as [NDv _].
  pose proof (build_initial_status_keys regional_data regions ND) as Hkeys.
  assert (Hbuilt : forall region data,
            (region, data) ∈ filter_regions regional_data
                               (effective_regions regional_data regions) ->
            status_get (fst (build_initial_status regional_data regions))
              (snd (build_initial_status regional_data regions)) region
            = Ok (region_status_of data)).
  { intros region data Hin. unfold build_initial_status.
    apply build_status_lookup; [now apply filter_regions_NoDup|exact Hin]. }
  apply perturbed_status_dict in Hp as [-> Hp].
  set (d := fst (build_initial_status regional_data regions)) in *.
  set (h0 := snd (build_initial_status regional_data regions)) in *.
  set (selected := filter_regions regional_data
                     (effective_regions regional_data regions)) in *.
  unfold apply_scenario in Hp. simpl in Hp. unfold outage in Hp.
  apply bind_Ok in Hp as (k & Ek & Hp).
  apply bind_Ok in Hp as (h1 & E1 & Hp).
  apply bind_Ok in Hp as (h2 & E2 & Hp).
  pose proof (status_update_thrice _ _ _ _ _ _ _ _ _ E1 E2 Hp) as E.
  apply status_update_inv in E as (l & s & Hl & Hs & ->).
  unfold random_choice in Ek. rewrite Hkeys in Ek.
  rewrite length_map, list_lookup_fmap in Ek.
  destruct (selected !! (choice_index rng 0 mod length selected)%nat)
    as [[k' data0]|] eqn:Esel; [|discriminate].
  simpl in Ek. injection Ek as ->.
  assert (Hin0 : (k, data0) ∈ selected)
    by (eapply list_elem_of_lookup_2; eauto).
  pose proof (Hbuilt _ _ Hin0) as Hget0.
  apply status_get_inv in Hget0 as (l' & Hl' & Hs').
  rewrite Hl in Hl'. injection Hl' as <-.
  rewrite Hs in Hs'. injection Hs' as ->.
  exists k, data0. split; [reflexivity|]. split.
  - unfold status_get. rewrite Hl.
    rewrite list_lookup_insert_eq by (eapply lookup_lt_Some; eauto).
    reflexivity.
  - intros region data Hin Hne. pose proof (Hbuilt _ _ Hin) as Hget.
    apply status_get_inv in Hget as (l' & Hl' & Hs').
    unfold status_get. rewrite Hl'.
    rewrite list_lookup_insert_ne.
    + now rewrite Hs'.
    + intros ->. apply Hne. eapply dict_get_inj; eauto.
Qed.

(** The two-region example: the index 0 points at A. *)
Lemma outage_changes_one_region_witness :
  exists d h,
    perturbed_status no_randomness example_snapshot "outage" [] = Ok (d, h) /\
    exists outage_region data0,
      filter_regions example_snapshot (effective_regions example_snapshot [])
        !! (choice_index no_randomness 0
            mod length (filter_regions example_snapshot
                          (effective_regions example_snapshot [])))%nat
      = Some (outage_region, data0) /\
      status_get d h outage_region
      = Ok (outage_record no_randomness (region_status_of data0)) /\
      forall region data,
        (region, data) ∈ filter_regions example_snapshot
                           (effective_regions example_snapshot []) ->
        region <> outage_region ->
        status_get d h region = Ok (region_status_of data).
Proof.
  eexists _, _. split; [vm_compute; reflexivity|].
  apply (outage_changes_one_region no_randomness example_snapshot []).
  - apply (bool_decide_unpack _). vm_compute. exact I.
  - vm_compute. reflexivity.
Defined.

(** The [peak] loop over distinct region names gives each region the record
    of its own two draws and touches nothing else. *)
Lemma peak_loop_exact (rng : RandomSource) (d : StatusDict) :
  NoDup (dict_values d) ->
  forall (keys : list string) (n : nat) (h h' : Heap),
    NoDup keys -> peak_loop rng d keys n h = Ok h' ->
    (forall i k, keys !! i = Some k ->
       exists l s, dict_get d k = Some l /\ h !! l = Some s /\
                   h' !! l = Some (peak_record rng (n + 2 * i) s)) /\
    (forall l, (forall k, k ∈ keys -> dict_get d k <> Some l) ->
       h' !! l = h !! l).
Proof.
  intros NDv keys. induction keys as [|k rest IH]; intros n h h' ND H;
    simpl in H.
  - injection H as <-. split; [|reflexivity]. intros i k Hk. discriminate.
  - apply NoDup_cons in ND as [Hfresh ND].
    apply bind_Ok in H as (h1 & E1 & H). apply bind_Ok in H as (h2 & E2 & H).
    apply bind_Ok in H as (h3 & E3 & H).
    pose proof (status_update_thrice _ _ _ _ _ _ _ _ _ E1 E2 E3) as E.
    apply status_update_inv in E as (l & s & Hl & Hs & ->).
    destruct (IH _ _ _ ND H) as [A B].
    assert (Hother : forall k', k' ∈ rest -> dict_get d k' <> Some l).
    { intros k' Hk' Hl'. apply Hfresh.
      now rewrite (dict_get_inj d k k' l NDv Hl Hl'). }
    split.
    + intros [|i] k' Hk'; simpl in Hk'.
      * injection Hk' as <-. exists l, s. split; [auto|]. split; [auto|].
        rewrite (B l Hother).
        rewrite list_lookup_insert_eq by (eapply lookup_lt_Some; eauto).
        now rewrite Nat.add_0_r.
      * destruct (A i k' Hk') as (l' & s' & Hl' & Hs' & Hfinal).
        assert (Hne : l <> l').
        { intros ->. apply (Hother k'); [|exact Hl'].
          eapply list_elem_of_lookup_2; eauto. }
        rewrite list_lookup_insert_ne in Hs' by auto.
        exists l', s'. split; [auto|]. split; [auto|].
        rewrite Hfinal. do 2 f_equal. lia.
    + intros l0 Hl0. rewrite B by (intros k' Hk'; apply Hl0; now right).
      apply list_lookup_insert_ne. intros ->. apply (Hl0 k); [left|exact Hl].
Qed.

Lemma peak_loop_total (rng : RandomSource) (d : StatusDict)
    (keys : list string) :
  forall (n : nat) (h : Heap),
    wf_store d h -> (forall k, k ∈ keys -> k ∈ dict_keys d) ->
    exists h', peak_loop rng d keys n h = Ok h'.
Proof.
  induction keys as [|k rest IH]; intros n h W Hk; simpl; [eauto|].
  destruct (status_get_wf d h k W) as (l & s & Hl & Hs & _); [apply Hk; left|].
  assert (Hlt : (l < length h)%nat) by (eapply lookup_lt_Some; eauto).
  rewrite (status_update_ok d h k _ l s Hl Hs). simpl.
  erewrite (status_update_ok d _ k _ l)
    by (auto; apply list_lookup_insert_eq; auto).
  simpl.
  erewrite (status_update_ok d _ k _ l)
    by (auto; apply list_lookup_insert_eq; now rewrite length_insert).
  simpl. apply IH.
  - eapply wf_store_length; [|exact W]. now rewrite !length_insert.
  - intros k' Hk'. apply Hk. now right.
Qed.

(** X10: with distinct region names and random draws in [0, 1), the [peak]
    stage always succeeds, and it gives every selected region the snapshot's
    generation, the snapshot's consumption times a factor in [1.1, 1.2), the
    difference of the two as balance, and the snapshot's frequency less a
    drop in [0.05, 0.15). *)
Theorem peak_raises_every_consumption (rng : RandomSource)
    (regional_data : Snapshot) (regions : list string) :
  NoDup (map fst regional_data) ->
  (forall n, 0 <= random rng n /\ random rng n < 1) ->
  exists d h,
    perturbed_status rng regional_data "peak" regions = Ok (d, h) /\
    forall region data,
      (region, data) ∈ filter_regions regional_data
                         (effective_regions regional_data regions) ->
      exists factor drop,
        1.1 <= factor /\ factor < 1.2 /\ 0.05 <= drop /\ drop < 0.15 /\
        status_get d h region
        = Ok (mkRegionStatus
                (generation (region_status_of data))
                (consumption (region_status_of data) * factor)
                (generation (region_status_of data)
                 - consumption (region_status_of data) * factor)
                (frequency (region_status_of data) - drop)).
Proof.
  intros ND Hrng.
  pose proof (build_initial_status_wf regional_data regions) as W.
  pose proof (build_initial_status_keys regional_data regions ND) as Hkeys.
  assert (Hbuilt : forall region data,
            (region, data) ∈ filter_regions regional_data
                               (effective_regions regional_data regions) ->
            status_get (fst (build_initial_status regional_data regions))
              (snd (build_initial_status regional_data regions)) region
            = Ok (region_status_of data)).
  { intros region data Hin. unfold build_initial_status.
    apply build_status_lookup; [now apply filter_regions_NoDup|exact Hin]. }
  unfold perturbed_status.
  destruct (build_initial_status regional_data regions) as [d h0].
  simpl in *. unfold apply_scenario. simpl.
  destruct (peak_loop_total rng d (dict_keys d) 0 h0 W) as [h Hloop]; [auto|].
  rewrite Hloop. simpl. exists d, h. split; [reflexivity|].
  intros region data Hin.
  assert (NDk : NoDup (dict_keys d))
    by (rewrite Hkeys; now apply filter_regions_NoDup).
  destruct W as [NDv _].
  destruct (peak_loop_exact rng d NDv _ _ _ _ NDk Hloop) as [A _].
  assert (Hk : region ∈ dict_keys d).
  { rewrite Hkeys. apply list_elem_of_fmap. exists (region, data). auto. }
  apply list_elem_of_lookup in Hk as [i Hi].
  destruct (A i region Hi) as (l & s & Hl & Hs & Hfinal).
  pose proof (Hbuilt _ _ Hin) as Hget.
  apply status_get_inv in Hget as (l' & Hl' & Hs').
  rewrite Hl in Hl'. injection Hl' as <-.
  rewrite Hs in Hs'. injection Hs' as ->.
  exists (1.1 + random rng (0 + 2 * i) * 0.1),
         (0.05 + random rng (S (0 + 2 * i)) * 0.1).
  destruct (Hrng (0 + 2 * i)%nat) as [R1 R2].
  destruct (Hrng (S (0 + 2 * i))) as [R3 R4].
  split; [lra|]. split; [lra|]. split; [lra|]. split; [lra|].
  unfold status_get. rewrite Hl, Hfinal. reflexivity.
Qed.

(** The two-region example with draws that are all 0. *)
Lemma peak_raises_every_consumption_witness :
  exists d h,
    perturbed_status no_randomness example_snapshot "peak" [] = Ok (d, h) /\
    forall region data,
      (region, data) ∈ filter_regions example_snapshot
                         (effective_regions example_snapshot []) ->
      exists factor drop,
        1.1 <= factor /\ factor < 1.2 /\ 0.05 <= drop /\ drop < 0.15 /\
        status_get d h region
        = Ok (mkRegionStatus
                (generation (region_status_of data))
                (consumption (region_status_of data) * factor)
                (generation (region_status_of data)
                 - consumption (region_status_of data) * factor)
                (frequency (region_status_of data) - drop)).
Proof.
  apply (peak_raises_every_consumption no_randomness example_snapshot []).
  - apply (bool_decide_unpack _). vm_compute. exact I.
  - intros n. simpl. lra.
Defined.

Lemma random_choice2_spec (rng : RandomSource) (keys chosen : list string) :
  NoDup keys -> random_choice2 rng keys = Ok chosen ->
  exists a b, chosen = [a; b] /\ a ∈ keys /\ b ∈ keys /\ a <> b.
Proof.
  intros ND. unfold random_choice2.
  destruct (length keys <? 2)%nat; [discriminate|].
  set (i := (choice_index rng 0 mod length keys)%nat).
  destruct (keys !! i) as [a|] eqn:Ea; [|discriminate].
  destruct (delete i keys !! _) as [b|] eqn:Eb; [|discriminate].
  intros [= <-]. exists a, b. split; [reflexivity|].
  apply list_elem_of_lookup_2 in Eb.
  rewrite delete_take_drop in Eb.
  rewrite <- (take_drop_middle keys i a Ea) in ND.
  apply NoDup_app in ND as (_ & Hdis & ND2).
  apply NoDup_cons in ND2 as [Hnotin _].
  split; [eapply list_elem_of_lookup_2; eauto|]. split.
  - rewrite <- (take_drop_middle keys i a Ea).
    apply elem_of_app in Eb as [Hb|Hb]; apply elem_of_app; [left|right]; auto.
    now right.
  - intros ->. apply elem_of_app in Eb as [Hb|Hb]; [|contradiction].
    apply (Hdis b Hb). left.
Qed.

(** X11: with distinct region names, a successful [renewable_surplus] stage
    changes the records of exactly two different selected regions: each has
    its generation scaled by 1.15 + 0.15 * random, its balance recomputed
    and its frequency raised by 0.05 + 0.1 * random; every other region
    keeps the record derived from the snapshot. *)
Theorem renewable_surplus_boosts_two_regions (rng : RandomSource)
    (regional_data : Snapshot) (regions : list string) (d : StatusDict)
    (h : Heap) :
  NoDup (map fst regional_data) ->
  perturbed_status rng regional_data "renewable_surplus" regions = Ok (d, h) ->
  exists first second data1 data2,
    first <> second /\
    (first, data1) ∈ filter_regions regional_data
                       (effective_regions regional_data regions) /\
    (second, data2) ∈ filter_regions regional_data
                        (effective_regions regional_data regions) /\
    status_get d h first = Ok (surplus_record rng 0 (region_status_of data1)) /\
    status_get d h second = Ok (surplus_record rng 2 (region_status_of data2)) /\
    forall region data,
      (region, data) ∈ filter_regions regional_data
                         (effective_regions regional_data regions) ->
      region <> first -> region <> second ->
      status_get d h region = Ok (region_status_of data).
Proof.
  intros ND Hp.
  pose proof (build_initial_status_wf regional_data regions) as [NDv _].
  pose proof (build_initial_status_keys regional_data regions ND) as Hkeys.
  assert (Hbuilt : forall region data,
            (region, data) ∈ filter_regions regional_data
                               (effective_regions regional_data regions) ->
            status_get (fst (build_initial_status regional_data regions))
              (snd (build_initial_status regional_data regions)) region
            = Ok (region_status_of data)).
  { intros region data Hin. unfold build_initial_status.
    apply build_status_lookup; [now apply filter_regions_NoDup|exact Hin]. }
  apply perturbed_status_dict in Hp as [-> Hp].
  set (d := fst (build_initial_status regional_data regions)) in *.
  set (h0 := snd (build_initial_status regional_data regions)) in *.
  set (selected := filter_regions regional_data
                     (effective_regions regional_data regions)) in *.
  assert (Hdata : forall k, k ∈ dict_keys d ->
            exists data, (k, data) ∈ selected).
  { intros k Hk. rewrite Hkeys in Hk.
    apply list_elem_of_fmap in Hk as ([k' data] & -> & Hin). eauto. }
  unfold apply_scenario in Hp. simpl in Hp.
  apply bind_Ok in Hp as (chosen & Ec & Hp).
  apply random_choice2_spec in Ec as (a & b & -> & Ha & Hb & Hab);
    [|rewrite Hkeys; now apply filter_regions_NoDup].
  simpl in Hp.
  apply bind_Ok in Hp as (h1 & E1 & Hp). apply bind_Ok in Hp as (h2 & E2 & Hp).
  apply bind_Ok in Hp as (h3 & E3 & Hp).
  apply bind_Ok in Hp as (h4 & E4 & Hp). apply bind_Ok in Hp as (h5 & E5 & Hp).
  apply bind_Ok in Hp as (h6 & E6 & Hp). injection Hp as <-.
  pose proof (status_update_thrice _ _ _ _ _ _ _ _ _ E1 E2 E3) as Ea.
  pose proof (status_update_thrice _ _ _ _ _ _ _ _ _ E4 E5 E6) as Eb.
  apply status_update_inv in Ea as (la & sa & Hla & Hsa & ->).
  apply status_update_inv in Eb as (lb & sb & Hlb & Hsb & ->).
  destruct (Hdata a Ha) as [data1 Hin1]. destruct (Hdata b Hb) as [data2 Hin2].
  assert (Hne : la <> lb).
  { intros ->. apply Hab. eapply dict_get_inj; eauto. }
  rewrite list_lookup_insert_ne in Hsb by auto.
  pose proof (Hbuilt _ _ Hin1) as G1. pose proof (Hbuilt _ _ Hin2) as G2.
  apply status_get_inv in G1 as (l1 & Hl1 & Hs1).
  apply status_get_inv in G2 as (l2 & Hl2 & Hs2).
  rewrite Hla in Hl1. injection Hl1 as <-.
  rewrite Hlb in Hl2. injection Hl2 as <-.
  rewrite Hsa in Hs1. injection Hs1 as ->.
  rewrite Hsb in Hs2. injection Hs2 as ->.
  exists a, b, data1, data2.
  split; [exact Hab|]. split; [exact Hin1|]. split; [exact Hin2|].
  split; [|split].
  - unfold status_get. rewrite Hla.
    rewrite list_lookup_insert_ne by auto.
    rewrite list_lookup_insert_eq by (eapply lookup_lt_Some; eauto).
    reflexivity.
  - unfold status_get. rewrite Hlb.
    rewrite list_lookup_insert_eq
      by (rewrite length_insert; eapply lookup_lt_Some; eauto).
    reflexivity.
  - intros region data Hin Hn1 Hn2. pose proof (Hbuilt _ _ Hin) as Hget.
    apply status_get_inv in Hget as (l & Hl & Hs).
    unfold status_get. rewrite Hl.
    rewrite !list_lookup_insert_ne.
    + now rewrite Hs.
    + intros ->. apply Hn1. eapply dict_get_inj; eauto.
    + intros ->. apply Hn2. eapply dict_get_inj; eauto.
Qed.

(** The two-region example: both regions are boosted. *)
Lemma renewable_surplus_boosts_two_regions_witness :
  exists d h,
    perturbed_status no_randomness example_snapshot "renewable_surplus" []
    = Ok (d, h) /\
    exists first second data1 data2,
      first <> second /\
      (first, data1) ∈ filter_regions example_snapshot
                         (effective_regions example_snapshot []) /\
      (second, data2) ∈ filter_regions example_snapshot
                          (effective_regions example_snapshot []) /\
      status_get d h first
      = Ok (surplus_record no_randomness 0 (region_status_of data1)) /\
      status_get d h second
      = Ok (surplus_record no_randomness 2 (region_status_of data2)) /\
      forall region data,
        (region, data) ∈ filter_regions example_snapshot
                           (effective_regions example_snapshot []) ->
        region <> first -> region <> second ->
        status_get d h region = Ok (region_status_of data).
Proof.
  eexists _, _. split; [vm_compute; reflexivity|].
  apply (renewable_surplus_boosts_two_regions no_randomness example_snapshot []).
  - apply (bool_decide_unpack _). vm_compute. exact I.
  - vm_compute. reflexivity.
Defined.

(** * The forecaster: further properties *)

(** ** The fallback forecast *)

Lemma round2_integer (z : Z) : round2 (inject_Z z) == inject_Z z.
Proof.
  unfold round2, round_half_even.
  assert (E : inject_Z z * 100 == inject_Z (z * 100))
    by (rewrite inject_Z_mult; reflexivity).
  rewrite (Qfloor_comp _ _ E), Qfloor_Z.
  assert (Er : inject_Z z * 100 - inject_Z (z * 100) == 0) by (rewrite E; ring).
  rewrite (Qlt_bool_proper _ _ Er (1 # 2) (1 # 2) ltac:(reflexivity)).
  simpl. rewrite inject_Z_mult. field.
Qed.



Lemma fallback_forecast_length (today forecast_days : Z) :
  length (_get_fallback_forecast today forecast_days) = Z.to_nat forecast_days.
Proof.
  unfold _get_fallback_forecast. now rewrite length_map, length_seq.
Qed.





(** ** Which rows feature preparation keeps *)

Lemma parse_dates_total (history : list HistoricalPoint) :
  Forall (fun p => is_Some (hist_date p)) history ->
  exists parsed, parse_dates history = Ok parsed.
Proof.
  induction 1 as [|p rest [d Hd] _ [parsed IH]]; simpl; [eauto|].
  rewrite Hd, IH. simpl. eauto.
Qed.

Lemma parse_dates_dated (history : list HistoricalPoint) :
  forall parsed, parse_dates history = Ok parsed ->
    Forall (fun p => is_Some (hist_date p)) history.
Proof.
  induction history as [|p rest IH]; simpl; intros parsed H; [constructor|].
  destruct (hist_date p) as [d|] eqn:Ed; [|discriminate].
  apply bind_Ok in H as (parsed' & E & _).
  constructor; [rewrite Ed; eauto | eauto].
Qed.

Lemma surviving_rows_from (sorted : list (Z * HistoricalPoint)) :
  forall k a,
    (a + k = length sorted)%nat -> (7 <= a)%nat ->
    map row_date (omap (feature_row sorted) (seq a k))
    = map fst (drop a sorted).
Proof.
  induction k as [|k IH]; intros a Hlen H7; simpl.
  - rewrite drop_ge by lia. reflexivity.
  - destruct (lookup_lt_is_Some_2 sorted a ltac:(lia)) as [x Hx].
    destruct (feature_row_Some sorted a x H7 Hx) as (r & Hr & Er).
    rewrite Hr. simpl. rewrite (drop_S _ _ _ Hx). simpl.
    rewrite Er. f_equal. apply IH; lia.
Qed.

(** The rows that survive are those from the eighth on, in date order. *)
Lemma surviving_rows_dates (sorted : list (Z * HistoricalPoint)) :
  map row_date (surviving_rows sorted) = drop 7 (map fst sorted).
Proof.
  destruct (le_lt_dec 8 (length sorted)) as [Hge|Hlt].
  - unfold surviving_rows.
    replace (length sorted) with (7 + (length sorted - 7))%nat by lia.
    rewrite seq_app, omap_app, map_app.
    assert (E0 : omap (feature_row sorted) (seq 0 7) = []).
    { destruct (omap (feature_row sorted) (seq 0 7)) as [|r rest] eqn:E;
        [reflexivity|].
      assert (Hr : r ∈ omap (feature_row sorted) (seq 0 7))
        by (rewrite E; left).
      apply list_elem_of_omap in Hr as (i & Hi & Hf).
      apply elem_of_seq in Hi. apply feature_row_inv in Hf as [H7 _]. lia. }
    rewrite E0. simpl.
    rewrite (surviving_rows_from sorted (length sorted - 7) 7) by lia.
    now rewrite <- skipn_map.
  - rewrite surviving_rows_short by lia.
    rewrite drop_ge by (rewrite length_map; lia). reflexivity.
Qed.

Lemma strongly_sorted_drop (n : nat) (l : list Z) :
  StronglySorted Z.le l -> StronglySorted Z.le (drop n l).
Proof.
  revert l. induction n as [|n IH]; intros l HS; [now rewrite drop_0|].
  destruct l as [|x l]; [constructor|]. simpl.
  apply StronglySorted_inv in HS as [HS _]. auto.
Qed.

(** In a sorted list no element of the first [n] exceeds a later one. *)
Lemma strongly_sorted_take_drop (n : nat) (l : list Z) :
  StronglySorted Z.le l ->
  forall a b, a ∈ take n l -> b ∈ drop n l -> (a <= b)%Z.
Proof.
  intros HS a b Ha Hb.
  apply list_elem_of_lookup in Ha as [i Hi].
  apply list_elem_of_lookup in Hb as [j Hj].
  apply lookup_take_Some in Hi as [Hi Hlt]. rewrite lookup_drop in Hj.
  apply (strongly_sorted_lookup l HS i (n + j)); [assumption|assumption|lia].
Qed.

(** A parsed point is a point of the history, with the date it was read
    as. *)
Lemma parse_dates_elem (history : list HistoricalPoint) :
  forall parsed x,
    parse_dates history = Ok parsed -> x ∈ parsed ->
    snd x ∈ history /\ hist_date (snd x) = Some (fst x).
Proof.
  induction history as [|pt rest IH]; simpl; intros parsed x H Hx.
  - injection H as <-. inversion Hx.
  - destruct (hist_date pt) as [d|] eqn:Ed; [|discriminate].
    apply bind_Ok in H as (parsed' & E & H). injection H as <-.
    apply elem_of_cons in Hx as [->|Hx].
    + split; [left|exact Ed].
    + destruct (IH _ _ E Hx) as [Hin Hd]. split; [now right|exact Hd].
Qed.

(** A row carries the date and the average demand of the point at its
    position. *)
Lemma feature_row_source (sorted : list (Z * HistoricalPoint)) (i : nat)
    (r : FeatureRow) :
  feature_row sorted i = Some r ->
  exists x,
    sorted !! i = Some x /\ row_date r = fst x /\
    row_average_demand r = average_demand (snd x).
Proof.
  unfold feature_row. destruct (sorted !! i) as [x|]; [simpl|discriminate].
  destruct (shift 1 _ i); [simpl|discriminate].
  destruct (shift 2 _ i); [simpl|discriminate].
  destruct (shift 7 _ i); [simpl|discriminate].
  destruct (rolling_mean 3 _ i); [simpl|discriminate].
  destruct (rolling_mean 7 _ i); [simpl|discriminate].
  intros [= <-]. eauto.
Qed.

Section ForecasterCoverage.

Context `{L : Learner}.

Lemma prepare_features_ok_iff (history : list HistoricalPoint) :
  (exists p, _prepare_features history = Ok p) <->
  (8 <= length history)%nat /\
  Forall (fun pt => is_Some (hist_date pt)) history.
Proof.
  split.
  - intros [p H]. pose proof H as H'.
    apply prepare_features_inv in H' as (parsed & Hp & _ & _ & _).
    split; [|eapply parse_dates_dated; eauto].
    destruct (le_lt_dec 8 (length history)) as [?|Hlt]; [assumption|].
    destruct (prepare_features_short history Hlt) as [e He]. congruence.
  - intros [Hlen Hdates].
    destruct (parse_dates_total history Hdates) as [parsed Hp].
    pose proof (parse_dates_spec _ _ Hp) as [_ Hl].
    unfold _prepare_features. destruct history as [|h0 rest]; [simpl in *; lia|].
    rewrite Hp. simpl.
    assert (Hrows : length (surviving_rows (sort_by_date parsed))
                    = (length parsed - 7)%nat).
    { rewrite <- (length_map row_date), surviving_rows_dates, length_drop.
      rewrite length_map.
      now rewrite (Permutation_length (sort_by_date_perm parsed)). }
    destruct (surviving_rows (sort_by_date parsed)) as [|r rs];
      [simpl in *; lia|eauto].
Qed.

(** X14: feature preparation succeeds exactly on a history of at least eight
    points whose dates can all be read.  It then keeps all rows but seven
    with the earliest dates: the dates of the history are those of seven
    dropped rows together with those of the kept rows, and no dropped date
    is later than a kept one.  The kept rows are in ascending order of date,
    each carries the date and the average demand of a point of the history,
    and there is one target value, the row's average demand, and one scaled
    feature vector per row. *)
Theorem prepare_features_succeeds_iff (history : list HistoricalPoint) :
  ((exists p, _prepare_features history = Ok p) <->
   (8 <= length history)%nat /\
   Forall (fun pt => is_Some (hist_date pt)) history) /\
  forall p,
    _prepare_features history = Ok p ->
    (exists dropped,
       length dropped = 7%nat /\
       omap hist_date history ≡ₚ dropped ++ map row_date (df p) /\
       forall a b, a ∈ dropped -> b ∈ map row_date (df p) -> (a <= b)%Z) /\
    Forall (fun r => exists pt,
              pt ∈ history /\ hist_date pt = Some (row_date r) /\
              average_demand pt = row_average_demand r) (df p) /\
    length (df p) = (length history - 7)%nat /\
    StronglySorted Z.le (map row_date (df p)) /\
    y p = map row_average_demand (df p) /\
    length (X_scaled p) = length (df p).
Proof.
  assert (Hinv : forall p, _prepare_features history = Ok p ->
            exists parsed,
              parse_dates history = Ok parsed /\
              length parsed = length history /\
              df p = surviving_rows (sort_by_date parsed) /\
              y p = map row_average_demand (df p) /\
              length (X_scaled p) = length (df p)).
  { intros p H. pose proof H as H'.
    apply prepare_features_inv in H' as (parsed & Hp & _ & Hdf & _).
    exists parsed. split; [exact Hp|].
    split; [apply (parse_dates_spec _ _ Hp)|]. split; [exact Hdf|].
    unfold _prepare_features in H. destruct history; [discriminate|].
    rewrite Hp in H. simpl in H.
    destruct (surviving_rows (sort_by_date parsed)); [discriminate|].
    injection H as <-. simpl. now rewrite !length_map. }
  assert (Hrows : forall parsed : list (Z * HistoricalPoint),
            length (surviving_rows (sort_by_date parsed))
            = (length parsed - 7)%nat).
  { intros parsed.
    rewrite <- (length_map row_date), surviving_rows_dates, length_drop.
    rewrite length_map.
    now rewrite (Permutation_length (sort_by_date_perm parsed)). }
  split; [split|].
  - intros [p H]. destruct (Hinv p H) as (parsed & Hp & Hl & Hdf & _).
    split; [|eapply parse_dates_dated; eauto].
    destruct (le_lt_dec 8 (length history)) as [?|Hlt]; [assumption|].
    destruct (prepare_features_short history Hlt) as [e He]. congruence.
  - intros [Hlen Hdates].
    destruct (parse_dates_total history Hdates) as [parsed Hp].
    pose proof (parse_dates_spec _ _ Hp) as [_ Hl].
    unfold _prepare_features. destruct history as [|h0 rest]; [simpl in *; lia|].
    rewrite Hp. simpl. specialize (Hrows parsed).
    destruct (surviving_rows (sort_by_date parsed)) as [|r rs];
      [simpl in *; lia|eauto].
  - intros p H. destruct (Hinv p H) as (parsed & Hp & Hl & Hdf & Hy & HX).
    pose proof (sort_by_date_sorted parsed) as HS.
    pose proof (sort_by_date_perm parsed) as HP.
    assert (H8 : (8 <= length history)%nat).
    { destruct (le_lt_dec 8 (length history)) as [?|Hlt]; [assumption|].
      destruct (prepare_features_short history Hlt) as [e He]. congruence. }
    split; [|split; [|split; [rewrite Hdf, Hrows; lia|split; [|auto]]]].
    + exists (take 7 (map fst (sort_by_date parsed))).
      rewrite Hdf, surviving_rows_dates. split; [|split].
      * rewrite length_take, length_map, (Permutation_length HP). lia.
      * rewrite take_drop. destruct (parse_dates_spec _ _ Hp) as [<- _].
        symmetry. now apply Permutation_map.
      * now apply strongly_sorted_take_drop.
    + rewrite Hdf. apply Forall_forall. intros r Hr.
      apply surviving_rows_elem in Hr as [i Hi].
      apply feature_row_source in Hi as (x & Hx & Ed & Ea).
      apply list_elem_of_lookup_2 in Hx. rewrite HP in Hx.
      destruct (parse_dates_elem _ _ _ Hp Hx) as [Hin Hd].
      exists (snd x). rewrite Ed, Ea. auto.
    + rewrite Hdf, surviving_rows_dates.
      apply strongly_sorted_drop, sort_by_date_sorted.
Qed.

(** The forecasting loop never fails: when it reads the last but one
    result, that result is there. *)
Lemma forecast_loop_total (m : Model) (scaler : Scaler) (last_date : Z)
    (steps : list nat) :
  forall (last_row : FeatureRow) (results0 : list ForecastPoint),
    (forall i, head steps = Some i ->
       i = 1%nat \/ (1 <= length results0)%nat) ->
    exists results,
      forecast_loop m scaler last_date steps last_row results0 = Ok results.
Proof.
  induction steps as [|i rest IH]; intros last_row results0 Hsteps;
    [simpl; eauto|].
  cbn [forecast_loop]. cbv zeta.
  match goal with
  | |- context [results0 ++ [?pt]] => set (results1 := results0 ++ [pt])
  end.
  assert (Hlen : length results1 = S (length results0))
    by (unfold results1; rewrite length_app; simpl; lia).
  assert (Hnext : forall j, head rest = Some j ->
            j = 1%nat \/ (1 <= length results1)%nat)
    by (intros j _; right; lia).
  destruct (i =? 1)%nat eqn:Ei.
  - simpl. apply IH. exact Hnext.
  - apply Nat.eqb_neq in Ei.
    destruct (Hsteps i) as [?|Hone]; [reflexivity|contradiction|].
    destruct (lookup_lt_is_Some_2 results1 (length results1 - 2)) as [p Hp];
      [lia|].
    rewrite Hp.
    assert (E2 : (2 <=? length results1)%nat = true)
      by (apply Nat.leb_le; lia).
    rewrite E2. simpl. apply IH. exact Hnext.
Qed.

Lemma forecast_steps_total (self : DemandForecaster)
    (history : list HistoricalPoint) (forecast_days : Z) (p : Prepared)
    (m : Model) :
  _prepare_features history = Ok p -> model self = Some m ->
  exists fc,
    forecast_steps self history forecast_days = Ok fc /\
    length fc = Z.to_nat forecast_days.
Proof.
  intros Hp Hm. unfold forecast_steps. rewrite Hp. simpl.
  apply prepare_features_inv in Hp as (_ & _ & _ & _ & Hne).
  destruct (df p) as [|r rs] eqn:Edf; [contradiction|].
  unfold max_date. rewrite Hm.
  destruct (last (r :: rs)) as [last_row|] eqn:El.
  2:{ apply last_None in El. discriminate. }
  destruct (forecast_loop_total m (fitted_scaler p)
              (fold_left Z.max (map row_date rs) (row_date r))
              (seq 1 (Z.to_nat forecast_days)) last_row []) as [fc Hfc].
  { intros i Hi. left.
    destruct (Z.to_nat forecast_days); simpl in Hi; congruence. }
  exists fc. split; [exact Hfc|].
  apply forecast_loop_spec in Hfc as (added & -> & Hall). simpl.
  rewrite <- (Forall2_length _ _ _ Hall). apply length_seq.
Qed.

(** The points of a model forecast: one per day after the last date of the
    history, each computed from a prediction of the forecaster's model. *)
Lemma forecast_steps_points (self : DemandForecaster)
    (history : list HistoricalPoint) (forecast_days : Z)
    (fc : list ForecastPoint) :
  forecast_steps self history forecast_days = Ok fc ->
  exists last_date m,
    last_historical_date history = Some last_date /\
    model self = Some m /\
    length fc = Z.to_nat forecast_days /\
    forall i pt, fc !! i = Some pt ->
      date pt = (last_date + Z.of_nat i + 1)%Z /\
      exists x,
        predicted_demand pt = round2 (model_predict m x) /\
        lower_bound pt = round2 (model_predict m x * 0.95) /\
        upper_bound pt = round2 (model_predict m x * 1.05).
Proof.
  intros Hrun. apply forecast_steps_inv in Hrun
    as (p & last_date & last_row & m & Hprep & Hmax & Hm & Hloop).
  destruct (prepare_features_max_date _ _ Hprep) as (d & Hd & Hlast).
  rewrite Hmax in Hd. injection Hd as <-.
  apply forecast_loop_spec in Hloop as (added & -> & Hall). simpl.
  exists last_date, m. split; [exact Hlast|]. split; [exact Hm|]. split.
  - rewrite <- (Forall2_length _ _ _ Hall). apply length_seq.
  - intros i pt Hpt.
    destruct (Forall2_lookup_r _ _ _ _ _ Hall Hpt) as (k & Hk & x & ->).
    apply lookup_seq in Hk as [-> _]. simpl. split; [lia|eauto].
Qed.

(** No date of a model forecast is later than the last date of the history
    plus the horizon. *)
Lemma forecast_steps_last_date (self : DemandForecaster)
    (history : list HistoricalPoint) (forecast_days : Z)
    (fc : list ForecastPoint) :
  forecast_steps self history forecast_days = Ok fc ->
  exists last_date,
    last_historical_date history = Some last_date /\
    forall pt, pt ∈ fc -> (date pt <= last_date + forecast_days)%Z.
Proof.
  intros Hrun.
  destruct (forecast_steps_points _ _ _ _ Hrun)
    as (last_date & m & Hlast & _ & Hlen & Hpts).
  exists last_date. split; [exact Hlast|]. intros pt Hpt.
  apply list_elem_of_lookup in Hpt as [i Hi].
  destruct (Hpts i pt Hi) as [-> _]. apply lookup_lt_Some in Hi. lia.
Qed.

(** No date of a fallback forecast is later than today plus the horizon. *)
Lemma fallback_forecast_last_date (today forecast_days : Z)
    (pt : ForecastPoint) :
  pt ∈ _get_fallback_forecast today forecast_days ->
  (date pt <= today + forecast_days)%Z.
Proof.
  unfold _get_fallback_forecast. intros Hpt.
  apply list_elem_of_fmap in Hpt as (i & -> & Hi).
  apply elem_of_seq in Hi. simpl. lia.
Qed.

(** X15: as long as no date overflows, a forecaster that holds a trained
    model always answers with a series of exactly [forecast_days] points and
    keeps its model: the model's forecast when the history has at least
    eight points with readable dates, the fallback forecast otherwise.  The
    dates do not overflow when today plus the horizon is no later than
    9999-12-31, which bounds the dates of the fallback forecast, and the
    last date of the history plus the horizon is no later than 2262-04-11,
    which bounds the dates of the model's forecast. *)
Theorem trained_forecaster_always_answers (today : Z)
    (self : DemandForecaster) (history : list HistoricalPoint)
    (forecast_days : Z) (m : Model) :
  model self = Some m ->
  (today + forecast_days <= datetime_max_day)%Z ->
  (forall last_date,
     last_historical_date history = Some last_date ->
     (last_date + forecast_days <= timestamp_max_day)%Z) ->
  exists fc,
    snd (forecast_demand today self history forecast_days) = self /\
    length fc = Z.to_nat forecast_days /\
    (((8 <= length history)%nat /\
      Forall (fun pt => is_Some (hist_date pt)) history /\
      fst (forecast_demand today self history forecast_days) = Forecast fc /\
      forall pt, pt ∈ fc -> (date pt <= timestamp_max_day)%Z) \/
     (~ ((8 <= length history)%nat /\
         Forall (fun pt => is_Some (hist_date pt)) history) /\
      fc = _get_fallback_forecast today forecast_days /\
      (exists error,
         fst (forecast_demand today self history forecast_days)
         = Fallback error fc) /\
      forall pt, pt ∈ fc -> (date pt <= datetime_max_day)%Z)).
Proof.
  intros Hm Htoday Hlast. unfold forecast_demand. rewrite Hm.
  unfold forecast_or_fallback.
  pose proof (prepare_features_ok_iff history) as Hiff.
  destruct (_prepare_features history) as [p|e] eqn:Hp.
  - destruct (forecast_steps_total self history forecast_days p m Hp Hm)
      as (fc & Hfc & Hlen).
    rewrite Hfc. exists fc. split; [reflexivity|]. split; [exact Hlen|].
    left. destruct (proj1 Hiff) as [H8 Hd]; [eauto|].
    split; [exact H8|]. split; [exact Hd|]. split; [reflexivity|].
    destruct (forecast_steps_last_date _ _ _ _ Hfc) as (d & Hd' & Hdates).
    intros pt Hpt. specialize (Hdates pt Hpt). specialize (Hlast d Hd'). lia.
  - assert (Hsteps : forecast_steps self history forecast_days = Raise e)
      by (unfold forecast_steps; now rewrite Hp).
    rewrite Hsteps. exists (_get_fallback_forecast today forecast_days).
    split; [reflexivity|].
    split; [apply fallback_forecast_length|].
    right. split; [|split; [reflexivity|split; [eauto|]]].
    + intros Hok. apply (proj2 Hiff) in Hok as [p Hp']. discriminate.
    + intros pt Hpt. apply fallback_forecast_last_date in Hpt. lia.
Qed.

End ForecasterCoverage.

(** A forecaster holding a model, on the ten-day history. *)
Lemma trained_forecaster_always_answers_witness :
  exists fc,
    snd (forecast_demand (H := mean_learner) 20000
           (@mkDemandForecaster mean_learner (Some 251000)) example_history 3)
    = @mkDemandForecaster mean_learner (Some 251000) /\
    length fc = Z.to_nat 3 /\
    (((8 <= length example_history)%nat /\
      Forall (fun pt => is_Some (hist_date pt)) example_history /\
      fst (forecast_demand (H := mean_learner) 20000
             (@mkDemandForecaster mean_learner (Some 251000)) example_history 3)
      = Forecast fc /\
      forall pt, pt ∈ fc -> (date pt <= timestamp_max_day)%Z) \/
     (~ ((8 <= length example_history)%nat /\
         Forall (fun pt => is_Some (hist_date pt)) example_history) /\
      fc = _get_fallback_forecast 20000 3 /\
      (exists error,
         fst (forecast_demand (H := mean_learner) 20000
                (@mkDemandForecaster mean_learner (Some 251000))
                example_history 3)
         = Fallback error fc) /\
      forall pt, pt ∈ fc -> (date pt <= datetime_max_day)%Z)).
Proof.
  apply (trained_forecaster_always_answers (L := mean_learner) 20000
           (@mkDemandForecaster mean_learner (Some 251000)) example_history 3 251000).
  - reflexivity.
  - vm_compute. discriminate.
  - intros last_date [= <-]. vm_compute. discriminate.
Defined.


(** ** The order of the history *)





Section ForecasterOrder.

Context `{L : Learner}.



End ForecasterOrder.


(** * The data source and the forecast endpoint: properties *)

Lemma fallback_history_dates (levels : nat -> Q * Q * Q) (today : Z) (n : nat) :
  omap hist_date (_get_fallback_historical_data levels today (Z.of_nat n))
  = map (fun i => (today - Z.of_nat i)%Z) (seq 0 n).
Proof.
  unfold _get_fallback_historical_data. rewrite Nat2Z.id.
  induction (seq 0 n) as [|i l IH]; simpl; [reflexivity|].
  f_equal. exact IH.
Qed.

Lemma fallback_history_dated (levels : nat -> Q * Q * Q) (today days : Z) :
  Forall (fun pt => is_Some (hist_date pt))
    (_get_fallback_historical_data levels today days).
Proof.
  unfold _get_fallback_historical_data. apply Forall_fmap, Forall_true.
  intros i. simpl. eauto.
Qed.

Lemma fallback_history_last (levels : nat -> Q * Q * Q) (today days : Z) :
  (1 <= days)%Z ->
  last_historical_date (_get_fallback_historical_data levels today days)
  = Some today.
Proof.
  intros Hdays. rewrite <- (Z2Nat.id days) by lia.
  unfold last_historical_date. rewrite fallback_history_dates.
  destruct (Z.to_nat days) as [|n] eqn:En; [lia|]. simpl.
  f_equal. eapply is_max_unique; [apply fold_max_is_max|].
  split; [apply elem_of_cons; left; simpl; lia|]. intros x Hx.
  apply elem_of_cons in Hx as [->|Hx]; [simpl; lia|].
  apply list_elem_of_fmap in Hx as (i & -> & _). lia.
Qed.

Section EndpointProperties.

Context `{L : Learner}.


(** X19: as long as no forecast date overflows (today plus [days] is no
    later than 2262-04-11), the forecast endpoint never serves the fallback
    forecast.  On the 30 days of history it asks the data source for, the
    forecaster answers with its [forecast] entry, and the endpoint serves
    that series: exactly [days] points dated from tomorrow on, each made of
    a prediction of the model the forecaster is left with, 95% of it and
    105% of it, rounded to two decimals.  Otherwise the forecaster has no
    model, the history is prepared and the fit of the regressor fails: the
    forecaster returns the failed training result, and the endpoint serves
    that dictionary in the place of the series. *)
Theorem endpoint_serves_model_forecast_or_failure
    (levels : nat -> Q * Q * Q) (today : Z) (forecaster : DemandForecaster)
    (days : Z) :
  (today + days <= timestamp_max_day)%Z ->
  (exists fc forecaster' m,
     forecast_demand today forecaster (get_historical_data levels today 30) days
     = (Forecast fc, forecaster') /\
     api_forecast_demand levels today forecaster days
     = (PayloadSeries fc, forecaster') /\
     model forecaster' = Some m /\
     length fc = Z.to_nat days /\
     forall i pt,
       fc !! i = Some pt ->
       date pt = (today + Z.of_nat i + 1)%Z /\
       (date pt <= timestamp_max_day)%Z /\
       exists x,
         predicted_demand pt = round2 (model_predict m x) /\
         lower_bound pt = round2 (model_predict m x * 0.95) /\
         upper_bound pt = round2 (model_predict m x * 1.05)) \/
  (model forecaster = None /\
   exists p e,
     _prepare_features (get_historical_data levels today 30) = Ok p /\
     fit_model (X_scaled p) (y p) = Raise e /\
     forecast_demand today forecaster (get_historical_data levels today 30) days
     = (TrainingFailed (exn_message e), forecaster) /\
     api_forecast_demand levels today forecaster days
     = (PayloadFailure (exn_message e), forecaster)).
Proof.
  intros Hmax. set (history := get_historical_data levels today 30).
  assert (Hprep : exists p, _prepare_features history = Ok p).
  { apply prepare_features_ok_iff. split.
    - unfold history, get_historical_data, _get_fallback_historical_data.
      rewrite length_map, length_seq. simpl. lia.
    - apply fallback_history_dated. }
  destruct Hprep as [p Hp].
  assert (Hlast : last_historical_date history = Some today)
    by (apply fallback_history_last; lia).
  (* what a forecaster holding a model serves *)
  assert (Hserve : forall self m,
            model self = Some m ->
            exists fc,
              forecast_or_fallback today self history days
              = (Forecast fc, self) /\
              length fc = Z.to_nat days /\
              forall i pt,
                fc !! i = Some pt ->
                date pt = (today + Z.of_nat i + 1)%Z /\
                (date pt <= timestamp_max_day)%Z /\
                exists x,
                  predicted_demand pt = round2 (model_predict m x) /\
                  lower_bound pt = round2 (model_predict m x * 0.95) /\
                  upper_bound pt = round2 (model_predict m x * 1.05)).
  { intros self m Hm.
    destruct (forecast_steps_total self history days p m Hp Hm)
      as (fc & Hfc & Hlen).
    exists fc. unfold forecast_or_fallback. rewrite Hfc.
    split; [reflexivity|]. split; [exact Hlen|].
    destruct (forecast_steps_points _ _ _ _ Hfc)
      as (d & m' & Hd & Hm' & _ & Hpts).
    rewrite Hlast in Hd. injection Hd as <-.
    rewrite Hm in Hm'. injection Hm' as <-.
    intros i pt Hpt. destruct (Hpts i pt Hpt) as [Hdate Hvalues].
    split; [exact Hdate|]. split; [|exact Hvalues].
    apply lookup_lt_Some in Hpt. lia. }
  unfold api_forecast_demand. fold history. unfold forecast_demand.
  destruct (model forecaster) as [m|] eqn:Hm.
  - left. destruct (Hserve forecaster m Hm) as (fc & -> & Hlen & Hpts).
    exists fc, forecaster, m. auto.
  - unfold train_model. rewrite Hp. simpl.
    destruct (fit_model (X_scaled p) (y p)) as [[m info]|e] eqn:Hfit.
    + left.
      destruct (Hserve (mkDemandForecaster (Some m)) m eq_refl)
        as (fc & -> & Hlen & Hpts).
      exists fc, (mkDemandForecaster (Some m)), m. auto.
    + right. split; [reflexivity|]. exists p, e. auto.
Qed.

End EndpointProperties.

(** A new forecaster asked for three days on 2024-10-04: the mean learner is
    fitted on the 30 days of history and its forecast is served. *)
Lemma endpoint_serves_model_forecast_or_failure_witness :
  (exists fc forecaster' m,
     forecast_demand (H := mean_learner) 20000 new_forecaster
       (get_historical_data flat_levels 20000 30) 3
     = (Forecast fc, forecaster') /\
     api_forecast_demand (H := mean_learner) flat_levels 20000 new_forecaster 3
     = (PayloadSeries fc, forecaster') /\
     model forecaster' = Some m /\
     length fc = Z.to_nat 3 /\
     forall i pt,
       fc !! i = Some pt ->
       date pt = (20000 + Z.of_nat i + 1)%Z /\
       (date pt <= timestamp_max_day)%Z /\
       exists x,
         predicted_demand pt
         = round2 (model_predict (Learner := mean_learner) m x) /\
         lower_bound pt
         = round2 (model_predict (Learner := mean_learner) m x * 0.95) /\
         upper_bound pt
         = round2 (model_predict (Learner := mean_learner) m x * 1.05)) \/
  (model (H := mean_learner) new_forecaster = None /\
   exists p e,
     _prepare_features (H := mean_learner)
       (get_historical_data flat_levels 20000 30) = Ok p /\
     fit_model (Learner := mean_learner) (X_scaled p) (y p) = Raise e /\
     forecast_demand (H := mean_learner) 20000 new_forecaster
       (get_historical_data flat_levels 20000 30) 3
     = (TrainingFailed (exn_message e), new_forecaster) /\
     api_forecast_demand (H := mean_learner) flat_levels 20000 new_forecaster 3
     = (PayloadFailure (exn_message e), new_forecaster)).
Proof.
  apply (endpoint_serves_model_forecast_or_failure (L := mean_learner)
           flat_levels 20000 new_forecaster 3).
  vm_compute. discriminate.
Defined.

(** * Fault detection: properties *)

(** Each step of the detection keeps the faults found so far and adds at
    most one. *)
Lemma frequency_faults_spec (show : Q -> string) (now : nat -> string)
    (frequency : Q) (faults : list Fault) :
  exists added,
    frequency_faults show now frequency faults = faults ++ added /\
    (added = [] <-> 49.7 <= frequency /\ frequency <= 50.3) /\
    (length added <= 1)%nat /\
    Forall (fun f => fault_type f = "frequency_deviation"%string) added.
Proof.
  unfold frequency_faults.
  destruct (Qlt_bool frequency 49.7) eqn:E1;
    destruct (Qlt_bool 50.3 frequency) eqn:E2; simpl;
    try (eexists [_]; split; [reflexivity|];
         split; [|split; [simpl; lia|repeat constructor]];
         split; [discriminate|];
         intros [H1 H2];
         repeat match goal with
           | H : Qlt_bool _ _ = true |- _ => apply Qlt_bool_iff in H
           end; lra).
  exists []. rewrite app_nil_r. split; [reflexivity|].
  split; [|split; [simpl; lia|constructor]].
  apply Qlt_bool_false in E1, E2. split; auto.
Qed.

Lemma load_faults_spec (show : Q -> string) (now : nat -> string)
    (region : string) (data : RegionHealth) (faults : list Fault) :
  exists added,
    load_faults show now region data faults = faults ++ added /\
    (added = [] <-> get_default (load_percentage data) 0 <= 90) /\
    (length added <= 1)%nat /\
    Forall (fun f => fault_type f = "high_load"%string /\
                     fault_region f = Some region /\
                     (fault_severity f = "critical"%string <->
                      95 < get_default (load_percentage data) 0)) added.
Proof.
  unfold load_faults.
  destruct (Qlt_bool 90 (get_default (load_percentage data) 0)) eqn:E.
  - apply Qlt_bool_iff in E. eexists [_]. split; [reflexivity|].
    split; [split; [discriminate|intros; lra]|].
    split; [simpl; lia|]. constructor; [|constructor]. simpl.
    split; [reflexivity|]. split; [reflexivity|].
    destruct (Qlt_bool 95 (get_default (load_percentage data) 0)) eqn:E95.
    + apply Qlt_bool_iff in E95. split; auto.
    + apply Qlt_bool_false in E95. split; [discriminate|intros; lra].
  - apply Qlt_bool_false in E. exists []. rewrite app_nil_r.
    split; [reflexivity|]. split; [split; auto|].
    split; [simpl; lia|constructor].
Qed.

Lemma regional_frequency_faults_spec (show : Q -> string)
    (now : nat -> string) (region : string) (data : RegionHealth)
    (faults : list Fault) :
  exists added,
    regional_frequency_faults show now region data faults = faults ++ added /\
    (added = [] <->
     Qabs (get_default (region_frequency data) 50.0 - 50.0) <= 0.3) /\
    (length added <= 1)%nat /\
    Forall (fun f => fault_type f = "regional_frequency_deviation"%string /\
                     fault_region f = Some region) added.
Proof.
  unfold regional_frequency_faults.
  destruct (Qlt_bool 0.3 _) eqn:E.
  - apply Qlt_bool_iff in E. eexists [_]. split; [reflexivity|].
    split; [split; [discriminate|intros; lra]|].
    split; [simpl; lia|]. repeat constructor.
  - apply Qlt_bool_false in E. exists []. rewrite app_nil_r.
    split; [reflexivity|]. split; [split; auto|].
    split; [simpl; lia|constructor].
Qed.

(** The faults the loop over the regions adds. *)
Lemma region_faults_spec (show : Q -> string) (now : nat -> string)
    (regions : list (string * RegionHealth)) :
  forall faults,
    exists added,
      region_faults show now regions faults = faults ++ added /\
      (added = [] <->
       Forall (fun rd =>
                 get_default (load_percentage (snd rd)) 0 <= 90 /\
                 Qabs (get_default (region_frequency (snd rd)) 50.0 - 50.0)
                 <= 0.3) regions) /\
      (length added <= 2 * length regions)%nat /\
      Forall (fun f => fault_type f = "high_load"%string \/
                       fault_type f = "regional_frequency_deviation"%string)
        added /\
      (forall region data,
         (region, data) ∈ regions ->
         90 < get_default (load_percentage data) 0 ->
         exists f,
           f ∈ added /\ fault_type f = "high_load"%string /\
           fault_region f = Some region /\
           (fault_severity f = "critical"%string <->
            95 < get_default (load_percentage data) 0)).
Proof.
  induction regions as [|[region data] rest IH]; intros faults.
  - exists []. rewrite app_nil_r. split; [reflexivity|].
    split; [split; [constructor|reflexivity]|].
    split; [simpl; lia|]. split; [constructor|].
    intros r d Hin. inversion Hin.
  - simpl.
    destruct (load_faults_spec show now region data faults)
      as (a & -> & Ha & La & Fa).
    destruct (regional_frequency_faults_spec show now region data
                (faults ++ a)) as (b & -> & Hb & Lb & Fb).
    destruct (IH ((faults ++ a) ++ b)) as (c & -> & Hc & Lc & Fc & Oc).
    exists (a ++ b ++ c). split; [now rewrite <- !app_assoc|].
    split; [|split; [|split]].
    + split.
      * intros E. apply app_eq_nil in E as [Ea E].
        apply app_eq_nil in E as [Eb Ec].
        constructor; [simpl; split; [now apply Ha|now apply Hb]|now apply Hc].
      * intros Hall. apply Forall_cons in Hall as [[H1 H2] Hall]. simpl in *.
        rewrite (proj2 Ha H1), (proj2 Hb H2), (proj2 Hc Hall). reflexivity.
    + rewrite !length_app. simpl. lia.
    + apply Forall_app. split.
      * eapply Forall_impl; [exact Fa|]. intros f (H1 & _). now left.
      * apply Forall_app. split; [|exact Fc].
        eapply Forall_impl; [exact Fb|]. intros f (H1 & _). now right.
    + intros r d Hin Hload. apply elem_of_cons in Hin as [[= -> ->]|Hin].
      * destruct a as [|f a'].
        { exfalso. assert (get_default (load_percentage data) 0 <= 90)
            by now apply Ha. lra. }
        apply Forall_cons in Fa as [(F1 & F2 & F3) _].
        exists f. split; [left|auto].
      * destruct (Oc r d Hin Hload) as (f & Hf & Hrest).
        exists f. split; [|exact Hrest].
        apply elem_of_app. right. apply elem_of_app. now right.
Qed.

(** The loop over the reported issues adds one fault per issue, in order. *)
Lemma issue_faults_spec (now : nat -> string) (issues : list ReportedIssue) :
  forall faults,
    exists reported,
      issue_faults now issues faults = faults ++ reported /\
      Forall2 (fun issue f =>
                 exists n, f = issue_fault now issue n) issues reported.
Proof.
  induction issues as [|issue rest IH]; intros faults; simpl.
  - exists []. rewrite app_nil_r. split; [reflexivity|constructor].
  - destruct (IH (faults ++ [issue_fault now issue (length faults)]))
      as (reported & -> & Hall).
    eexists (_ :: reported). split; [now rewrite <- app_assoc|].
    constructor; [eauto|exact Hall].
Qed.

(** X20: fault detection reports nothing exactly when the grid frequency is
    between 49.7 and 50.3 (50.0 when it is missing), every region has a load
    of at most 90 (0 when missing) and a frequency within 0.3 of 50 (50.0
    when missing), and no issue was reported. *)
Theorem no_fault_iff_healthy (show : Q -> string) (now : nat -> string)
    (grid_status : GridStatus) :
  detect_grid_faults show now grid_status = [] <->
  (49.7 <= get_default (grid_frequency grid_status) 50.0 /\
   get_default (grid_frequency grid_status) 50.0 <= 50.3) /\
  Forall (fun rd =>
            get_default (load_percentage (snd rd)) 0 <= 90 /\
            Qabs (get_default (region_frequency (snd rd)) 50.0 - 50.0) <= 0.3)
    (status_regions grid_status) /\
  potential_issues grid_status = [].
Proof.
  unfold detect_grid_faults.
  destruct (frequency_faults_spec show now
              (get_default (grid_frequency grid_status) 50.0) [])
    as (a & -> & Ha & _).
  destruct (region_faults_spec show now (status_regions grid_status) ([] ++ a))
    as (b & -> & Hb & _).
  destruct (issue_faults_spec now (potential_issues grid_status)
              (([] ++ a) ++ b)) as (c & -> & Hc).
  simpl. split.
  - intros E. apply app_eq_nil in E as [E Ec]. apply app_eq_nil in E as [Ea Eb].
    split; [now apply Ha|]. split; [now apply Hb|].
    subst c. now apply Forall2_nil_inv_r in Hc.
  - intros (H1 & H2 & H3). rewrite H3 in Hc. apply Forall2_nil_inv_l in Hc.
    rewrite (proj2 Ha H1), (proj2 Hb H2), Hc. reflexivity.
Qed.

(** X21: the detected faults are the computed ones followed by one fault per
    reported issue, in the order of the report.  A computed fault is a
    frequency deviation, a high load or a regional frequency deviation, and
    there are at most one plus two per region of them; the fault of an issue
    carries its type, region, substation and severity, with "unknown" and
    "low" for what the report leaves out, and its timestamp when it has
    one. *)
Theorem reported_issues_are_passed_on (show : Q -> string)
    (now : nat -> string) (grid_status : GridStatus) :
  exists computed reported,
    detect_grid_faults show now grid_status = computed ++ reported /\
    (length computed <= 1 + 2 * length (status_regions grid_status))%nat /\
    Forall (fun f =>
              fault_type f = "frequency_deviation"%string \/
              fault_type f = "high_load"%string \/
              fault_type f = "regional_frequency_deviation"%string)
      computed /\
    Forall2 (fun issue f =>
               fault_type f = get_text (issue_type issue) "unknown" /\
               fault_region f = Some (get_text (issue_region issue) "unknown") /\
               fault_substation f
               = Some (get_text (issue_substation issue) "unknown") /\
               fault_severity f = get_text (issue_severity issue) "low" /\
               (forall ts, issue_timestamp issue = Some ts ->
                           fault_timestamp f = ts))
      (potential_issues grid_status) reported.
Proof.
  unfold detect_grid_faults.
  destruct (frequency_faults_spec show now
              (get_default (grid_frequency grid_status) 50.0) [])
    as (a & -> & _ & La & Fa).
  destruct (region_faults_spec show now (status_regions grid_status) ([] ++ a))
    as (b & -> & _ & Lb & Fb & _).
  destruct (issue_faults_spec now (potential_issues grid_status)
              (([] ++ a) ++ b)) as (c & -> & Hc).
  exists (a ++ b), c. simpl. split; [reflexivity|].
  split; [rewrite length_app; lia|]. split.
  - apply Forall_app. split.
    + eapply Forall_impl; [exact Fa|]. intros f Hf. now left.
    + eapply Forall_impl; [exact Fb|]. intros f [Hf|Hf]; auto.
  - eapply Forall2_impl; [exact Hc|]. intros issue f [n ->]. simpl.
    repeat split. intros ts ->. reflexivity.
Qed.

(** X22: no overloaded region is missed: for every region whose load exceeds
    90 the detected faults contain a high-load fault naming that region, and
    its severity is critical exactly when the load exceeds 95. *)
Theorem overloaded_regions_are_reported (show : Q -> string)
    (now : nat -> string) (grid_status : GridStatus) (region : string)
    (data : RegionHealth) :
  (region, data) ∈ status_regions grid_status ->
  90 < get_default (load_percentage data) 0 ->
  exists f,
    f ∈ detect_grid_faults show now grid_status /\
    fault_type f = "high_load"%string /\
    fault_region f = Some region /\
    (fault_severity f = "critical"%string <->
     95 < get_default (load_percentage data) 0).
Proof.
  intros Hin Hload. unfold detect_grid_faults.
  destruct (frequency_faults_spec show now
              (get_default (grid_frequency grid_status) 50.0) [])
    as (a & -> & _).
  destruct (region_faults_spec show now (status_regions grid_status) ([] ++ a))
    as (b & -> & _ & _ & _ & Ob).
  destruct (issue_faults_spec now (potential_issues grid_status)
              (([] ++ a) ++ b)) as (c & -> & _).
  destruct (Ob region data Hin Hload) as (f & Hf & Hrest).
  exists f. split; [|exact Hrest].
  apply elem_of_app. left. apply elem_of_app. now right.
Qed.

(** The example status: the north region, at 96, is reported as critical. *)
Lemma overloaded_regions_are_reported_witness :
  exists f,
    f ∈ detect_grid_faults (fun _ => "?"%string) fixed_clock
          example_grid_status /\
    fault_type f = "high_load"%string /\
    fault_region f = Some "north"%string /\
    (fault_severity f = "critical"%string <-> 95 < 96).
Proof.
  apply (overloaded_regions_are_reported (fun _ => "?"%string) fixed_clock
           example_grid_status "north" (mkRegionHealth (Some 96) (Some 49.95))).
  - left.
  - reflexivity.
Defined.

(** * Grid summary: properties *)

Lemma percentage_bounds (part whole : Q) :
  0 < whole -> 0 <= part -> part <= whole ->
  0 <= part / whole * 100 /\ part / whole * 100 <= 100.
Proof.
  intros Hw Hp Hpw.
  assert (H0 : 0 <= part / whole) by (apply Qle_shift_div_l; [exact Hw|lra]).
  assert (H1 : part / whole <= 1) by (apply Qle_shift_div_r; [exact Hw|lra]).
  set (x := part / whole) in *. split; lra.
Qed.

Lemma round2_percentage (x : Q) :
  0 <= x -> x <= 100 -> 0 <= round2 x /\ round2 x <= 100.
Proof.
  intros H0 H1. split; [now apply round2_nonneg|].
  apply round2_mono in H1.
  pose proof (round2_integer 100) as E. unfold inject_Z in E.
  now rewrite E in H1.
Qed.

(** X23: when the consumption is not negative and does not exceed the
    generation (each 0 when the data source leaves it out), the reserve
    margin of the summary is a percentage between 0 and 100, also when
    nothing is generated. *)
Theorem reserve_margin_is_a_percentage (now : string) (power_data : PowerData)
    (current_generation : CurrentGeneration) (grid_status : GridStatus) :
  0 <= get_default (total_consumption power_data) 0 ->
  get_default (total_consumption power_data) 0
  <= get_default (total_generation power_data) 0 ->
  let summary :=
    get_grid_summary now power_data current_generation grid_status in
  0 <= reserve_margin summary /\ reserve_margin summary <= 100.
Proof.
  intros Hc Hcg. unfold get_grid_summary. cbn [reserve_margin].
  apply round2_percentage;
    destruct (Qlt_bool 0 (get_default (total_generation power_data) 0)) eqn:E;
    try lra; apply Qlt_bool_iff in E;
    apply (percentage_bounds
             (get_default (total_generation power_data) 0
              - get_default (total_consumption power_data) 0)
             (get_default (total_generation power_data) 0)); lra.
Qed.

(** A grid that generates 200 and consumes 150. *)
Lemma reserve_margin_is_a_percentage_witness :
  let summary :=
    get_grid_summary "2024-01-01T00:00:00"
      (mkPowerData None (Some 200) (Some 150) [] [])
      (mkCurrentGeneration (Some 30) (Some 20) None None None)
      example_grid_status in
  0 <= reserve_margin summary /\ reserve_margin summary <= 100.
Proof.
  apply (reserve_margin_is_a_percentage "2024-01-01T00:00:00"
           (mkPowerData None (Some 200) (Some 150) [] [])
           (mkCurrentGeneration (Some 30) (Some 20) None None None)
           example_grid_status); simpl; lra.
Defined.

(** X24: when the five renewable sources together (each 0 when it is left
    out) generate a non-negative amount that does not exceed the total
    generation, the renewable percentage of the summary is between 0 and
    100, also when nothing is generated. *)
Theorem renewable_percentage_is_a_percentage (now : string)
    (power_data : PowerData) (current_generation : CurrentGeneration)
    (grid_status : GridStatus) :
  let renewable_generation :=
    get_default (solar current_generation) 0
    + get_default (wind current_generation) 0
    + get_default (hydro current_generation) 0
    + get_default (biomass current_generation) 0
    + get_default (others current_generation) 0 in
  0 <= renewable_generation ->
  renewable_generation <= get_default (total_generation power_data) 0 ->
  let summary :=
    get_grid_summary now power_data current_generation grid_status in
  0 <= renewable_percentage summary /\ renewable_percentage summary <= 100.
Proof.
  intros renewable_generation Hr Hrg. unfold get_grid_summary.
  cbn [renewable_percentage]. fold renewable_generation.
  apply round2_percentage;
    destruct (Qlt_bool 0 (get_default (total_generation power_data) 0)) eqn:E;
    try lra; apply Qlt_bool_iff in E;
    apply (percentage_bounds renewable_generation
             (get_default (total_generation power_data) 0)); lra.
Qed.

(** A grid that generates 200, of which 50 from solar and wind. *)
Lemma renewable_percentage_is_a_percentage_witness :
  let summary :=
    get_grid_summary "2024-01-01T00:00:00"
      (mkPowerData None (Some 200) (Some 150) [] [])
      (mkCurrentGeneration (Some 30) (Some 20) None None None)
      example_grid_status in
  0 <= renewable_percentage summary /\ renewable_percentage summary <= 100.
Proof.
  apply (renewable_percentage_is_a_percentage "2024-01-01T00:00:00"
           (mkPowerData None (Some 200) (Some 150) [] [])
           (mkCurrentGeneration (Some 30) (Some 20) None None None)
           example_grid_status); simpl; lra.
Defined.
